(** * MDP.py: the chain environment, tabular Q-learning and quantile-regression
    Q-learning, embedded in Rocq.

    Python floats are idealised as exact rationals ([Q]): the rounding of
    each arithmetic operation, overflow to an infinity and the NaN that
    follows from one are outside the model.  The conversions of float64 data
    to float32 that the code writes out (lines 94, 140 and 141) are in it, as
    [float32].  Numpy arrays are nested lists, read and written through
    numpy's index rule (negative indices count from the end, anything else
    out of range raises [IndexError]); in the program every table has
    [action_dim = 2] columns, and a table without rows stands for the array
    of shape [(0, 2)] or [(0, 2, num_quantiles)].  The ambient [np.random] generator is an explicit
    [RandomState] threaded through every call that draws from it.  Python
    exceptions are the [Raise] results of an error monad. *)

From stdpp Require Import base list sets.
From Stdlib Require Import ZArith QArith Qabs Qround Qpower Lqa Lia.

Open Scope Q_scope.

(** ** Rational helpers *)

Definition Qltb (x y : Q) : bool := negb (Qle_bool y x).

Definition Qmaxb (x y : Q) : Q := if Qle_bool x y then y else x.

Definition Qsum (l : list Q) : Q := foldr Qplus 0 l.

Definition Qsign (x : Q) : Q :=
  if Qltb 0 x then 1 else if Qltb x 0 then -(1) else 0.

(** [float()] of a Python/torch boolean. *)
Definition float_of_bool (b : bool) : Q := if b then 1 else 0.

(** ** Conversion to float32 *)

(** The exponent [e] with [2^e <= x < 2^(e+1)], for a positive [x]. *)
Definition Qlog2 (x : Q) : Z :=
  let l := (Z.log2 (Qnum x) - Z.log2 (Zpos (Qden x)))%Z in
  if Qle_bool (2 ^ l) x then l else (l - 1)%Z.

(** The nearest integer, and the even one of two that are equally near. *)
Definition round_half_even (x : Q) : Z :=
  let f := Qfloor x in
  match Qcompare (x - inject_Z f) (1 # 2) with
  | Lt => f
  | Gt => (f + 1)%Z
  | Eq => if Z.even f then f else (f + 1)%Z
  end.

(** What [astype(np.float32)] and [torch.FloatTensor] keep of a float64: the
    nearest binary32 number, a significand of 24 bits at an exponent of at
    least -149, ties going to the even significand.  Past the largest
    binary32 number the code stores an infinity; that, like every overflow,
    is outside the model, which goes on rounding to 24 bits. *)
Definition float32 (x : Q) : Q :=
  let x := Qred x in
  if Qeq_bool x 0 then 0
  else
    let e := Z.max (Qlog2 (Qabs x) - 23) (-149) in
    let m := round_half_even (Qabs x / 2 ^ e) in
    Qred ((if Qltb x 0 then -(1) else 1) * inject_Z m * 2 ^ e).

(** ** Exceptions and the two monads *)

Inductive exn : Type :=
| IndexError | TypeError | ValueError | AssertionError | RuntimeError.

(** [Exhausted] is not a Python result: it marks a [while True] loop whose
    fuel ran out in the model. *)
Inductive outcome (A : Type) : Type :=
| Ok (a : A)
| Raise (e : exn)
| Exhausted.
Arguments Ok {A} a.
Arguments Raise {A} e.
Arguments Exhausted {A}.

Definition obind {A B : Type} (c : outcome A) (k : A -> outcome B) : outcome B :=
  match c with
  | Ok a => k a
  | Raise e => Raise e
  | Exhausted => Exhausted
  end.

(** The generator behind [np.random]: a stream of raw 53-bit draws and of
    standard-normal samples, and the position of the next draw. *)
Record RandomState : Type := mkRandomState {
  entropy : nat -> N;
  gaussian : nat -> Q;
  position : nat
}.

Definition advance (g : RandomState) : RandomState :=
  {| entropy := entropy g; gaussian := gaussian g; position := S (position g) |}.

Definition Py (A : Type) : Type := RandomState -> outcome (A * RandomState).

Definition ret {A : Type} (a : A) : Py A := fun g => Ok (a, g).

Definition bind {A B : Type} (c : Py A) (k : A -> Py B) : Py B :=
  fun g => match c g with
           | Ok (a, g') => k a g'
           | Raise e => Raise e
           | Exhausted => Exhausted
           end.

Definition lift {A : Type} (c : outcome A) : Py A :=
  fun g => match c with
           | Ok a => Ok (a, g)
           | Raise e => Raise e
           | Exhausted => Exhausted
           end.

Declare Scope py_scope.
Delimit Scope py_scope with py.
Notation "x <- c ;; k" := (bind c (fun x => k))
  (at level 100, c at next level, right associativity) : py_scope.
Notation "x <-! c ;; k" := (obind c (fun x => k))
  (at level 100, c at next level, right associativity) : py_scope.
Open Scope py_scope.

(** ** [np.random] *)

Definition two53 : positive := 9007199254740992%positive.

(** [np.random.rand()]: a float in [0, 1) on the 53-bit grid. *)
Definition rand : Py Q :=
  fun g => Ok (Z.of_N (entropy g (position g) mod Npos two53) # two53, advance g).

(** [np.random.randn()]. *)
Definition randn : Py Q :=
  fun g => Ok (gaussian g (position g), advance g).

(** [np.random.randint(n)]: an integer in [0, n); [ValueError] when [n <= 0]. *)
Definition randint (n : Z) : Py Z :=
  fun g => if (0 <? n)%Z
           then Ok ((Z.of_N (entropy g (position g)) mod n)%Z, advance g)
           else Raise ValueError.

(** [np.random.choice(l)]: one element of [l]; [ValueError] when [l] is empty. *)
Definition choice {A : Type} (l : list A) : Py A :=
  fun g => match l !! (N.to_nat (entropy g (position g)) mod length l)%nat with
           | Some x => Ok (x, advance g)
           | None => Raise ValueError
           end.

(** ** numpy indexing *)

(** Position addressed by index [i] in an axis of length [n]. *)
Definition np_index (n : nat) (i : Z) : option nat :=
  if ((0 <=? i) && (i <? Z.of_nat n))%Z then Some (Z.to_nat i)
  else if ((- Z.of_nat n <=? i) && (i <? 0))%Z then Some (Z.to_nat (Z.of_nat n + i))
  else None.

Definition getitem {A : Type} (l : list A) (i : Z) : outcome A :=
  match np_index (length l) i with
  | Some k => match l !! k with Some x => Ok x | None => Raise IndexError end
  | None => Raise IndexError
  end.

Definition setitem {A : Type} (l : list A) (i : Z) (x : A) : outcome (list A) :=
  match np_index (length l) i with
  | Some k => Ok (<[k:=x]> l)
  | None => Raise IndexError
  end.

(** [a[i, j]] and [a[i, j] = x] on an array with at least two axes. *)
Definition getitem2 {A : Type} (a : list (list A)) (i j : Z) : outcome A :=
  row <-! getitem a i ;; getitem row j.

Definition setitem2 {A : Type} (a : list (list A)) (i j : Z) (x : A)
  : outcome (list (list A)) :=
  row <-! getitem a i ;; row' <-! setitem row j x ;; setitem a i row'.

(** [range(n)]. *)
Definition range (n : Z) : list Z := map Z.of_nat (seq 0 (Z.to_nat n)).

(** [np.zeros(n)]; a negative dimension raises [ValueError]. *)
Definition np_zeros {A : Type} (zero : A) (n : Z) : outcome (list A) :=
  if (n <? 0)%Z then Raise ValueError else Ok (replicate (Z.to_nat n) zero).

(** [np.max] of a 1-D array; [ValueError] on an empty one. *)
Definition np_max (l : list Q) : outcome Q :=
  match l with
  | [] => Raise ValueError
  | x :: l' => Ok (foldl Qmaxb x l')
  end.

(** [np.argmax] of a 1-D array: the first position holding the maximum. *)
Fixpoint argmax_from (best : Q) (besti i : nat) (l : list Q) : nat :=
  match l with
  | [] => besti
  | x :: l' => if Qltb best x then argmax_from x i (S i) l'
               else argmax_from best besti (S i) l'
  end.

Definition np_argmax (l : list Q) : outcome Z :=
  match l with
  | [] => Raise ValueError
  | x :: l' => Ok (Z.of_nat (argmax_from x 0 1 l'))
  end.

(** [a.mean()] of a 1-D array, and [a.mean(-1)] of a 2-D and of a 3-D one.
    The mean of an empty array is NaN in numpy; here it is the [0 / 0 = 0]
    of [Q], and what is proved of a mean assumes a vector with an entry. *)
Definition np_mean (l : list Q) : Q := Qsum l / inject_Z (Z.of_nat (length l)).

Definition mean_last2 (a : list (list Q)) : list Q := map np_mean a.

Definition mean_last3 (a : list (list (list Q))) : list (list Q) := map mean_last2 a.

(** Evaluate a fallible computation on every element, left to right. *)
Fixpoint omap {A B : Type} (f : A -> outcome B) (l : list A) : outcome (list B) :=
  match l with
  | [] => Ok []
  | x :: l' => y <-! f x ;; ys <-! omap f l' ;; Ok (y :: ys)
  end.

(** The comprehension [[i for i in range(action_dim) if q[i] == best_q]]. *)
Fixpoint candidates_in (q : list Q) (best_q : Q) (actions : list Z) : outcome (list Z) :=
  match actions with
  | [] => Ok []
  | i :: actions' =>
      x <-! getitem q i ;;
      rest <-! candidates_in q best_q actions' ;;
      Ok (if Qeq_bool x best_q then i :: rest else rest)
  end.

Definition candidates (q : list Q) (best_q : Q) (action_dim : Z) : outcome (list Z) :=
  candidates_in q best_q (range action_dim).

(** ** The chain environment *)

Module Chain.

Record t : Type := mk {
  num_states : Z;
  state : Z;
  action_dim : Z;
  state_dim : Z;
  up_std : Q;
  left_std : Q
}.

Definition init (num_states : Z) (up_std left_std : Q) : t :=
  {| num_states := num_states; state := 0; action_dim := 2;
     state_dim := num_states; up_std := up_std; left_std := left_std |}.

Definition set_state (self : t) (s : Z) : t :=
  {| num_states := num_states self; state := s; action_dim := action_dim self;
     state_dim := state_dim self; up_std := up_std self; left_std := left_std self |}.

Definition reset (self : t) : t * Z := (set_state self 0, 0%Z).

(** What [step] hands back: the tuple [(state, reward, done, None)], or
    Python's [None] when the function falls off its end. *)
Inductive result : Type :=
| Transition (next_state : Z) (reward : Q) (done : bool)
| PyNone.

Definition step (self : t) (action : Z) : Py (t * result) :=
  if (action =? 0)%Z then
    let self := set_state self (state self + 1) in
    z <- randn ;;
    let reward := z * left_std self in
    let done := (state self =? num_states self)%Z in
    let reward := if done then reward + 10 else reward in
    ret (self, Transition (state self) reward done)
  else if (action =? 1)%Z then
    z <- randn ;;
    ret (self, Transition (-1) (z * up_std self) true)
  else ret (self, PyNone).

End Chain.

(** ** The scalar Q-learning agent *)

Module QAgent.

Record t : Type := mk {
  env : Chain.t;
  eval_env : Chain.t;
  q_values : list (list Q);
  epsilon : Q;
  discount : Q;
  lr : Q;
  total_steps : Z
}.

Definition init (env_fn : unit -> Chain.t) (lr epsilon discount : Q) : outcome t :=
  let env := env_fn tt in
  let eval_env := env_fn tt in
  cols <-! np_zeros 0 (Chain.action_dim env) ;;
  q <-! np_zeros cols (Chain.state_dim env) ;;
  Ok {| env := env; eval_env := eval_env; q_values := q; epsilon := epsilon;
        discount := discount; lr := lr; total_steps := 0 |}.

Definition set_env (self : t) (e : Chain.t) : t :=
  {| env := e; eval_env := eval_env self; q_values := q_values self;
     epsilon := epsilon self; discount := discount self; lr := lr self;
     total_steps := total_steps self |}.

Definition set_q_values (self : t) (q : list (list Q)) : t :=
  {| env := env self; eval_env := eval_env self; q_values := q;
     epsilon := epsilon self; discount := discount self; lr := lr self;
     total_steps := total_steps self |}.

Definition set_total_steps (self : t) (n : Z) : t :=
  {| env := env self; eval_env := eval_env self; q_values := q_values self;
     epsilon := epsilon self; discount := discount self; lr := lr self;
     total_steps := n |}.

Definition act (self : t) (state : Z) (eval : bool) : Py Z :=
  explore <- (if negb eval
              then u <- rand ;; ret (Qltb u (epsilon self))
              else ret false) ;;
  if (explore : bool) then randint (Chain.action_dim (env self))
  else
    q <- lift (getitem (q_values self) state) ;;
    best_q <- lift (np_max q) ;;
    cands <- lift (candidates q best_q (Chain.action_dim (env self))) ;;
    choice cands.

(** Lines 68-74: the temporal-difference update of one transition. *)
Definition learn (self : t) (state action : Z) (reward : Q) (next_state : Z)
           (done : bool) : outcome t :=
  target <-! (if done then Ok 0
              else row <-! getitem (q_values self) next_state ;;
                   m <-! np_max row ;;
                   Ok (discount self * m)) ;;
  q <-! getitem2 (q_values self) state action ;;
  let td_error := reward + target - q in
  q' <-! setitem2 (q_values self) state action (q + lr self * td_error) ;;
  Ok (set_q_values self q').

(** The body of [while True], iterated at most [fuel] times. *)
Fixpoint episode_loop (fuel : nat) (self : t) (state : Z) (total_rewards : Q)
  : Py (t * Q) :=
  match fuel with
  | O => fun _ => Exhausted
  | S fuel' =>
      action <- act self state false ;;
      sr <- Chain.step (env self) action ;;
      let self := set_env self (fst sr) in
      match snd sr with
      | Chain.PyNone => lift (Raise TypeError)
      | Chain.Transition next_state reward done =>
          let self := set_total_steps self (total_steps self + 1) in
          let total_rewards := total_rewards + reward in
          self <- lift (learn self state action reward next_state done) ;;
          if done then ret (self, total_rewards)
          else episode_loop fuel' self next_state total_rewards
      end
  end.

(** [episode]: an iteration that does not end the episode moves to the next
    row of the table, so one more iteration than the table has rows is
    fuel enough. *)
Definition episode (self : t) : Py (t * Q) :=
  let (e, state) := Chain.reset (env self) in
  let self := set_env self e in
  episode_loop (S (length (q_values self))) self state 0.

End QAgent.

(** ** torch tensors under autograd

    A tensor element is a dual number: its value and its derivative with
    respect to the one leaf coordinate that is seeded with derivative 1.
    Each primitive carries torch's derivative rule; [detach] and the result
    of a comparison carry none. *)

Record dual : Type := D { val : Q; der : Q }.

Definition const (x : Q) : dual := D x 0.
Definition detach (x : dual) : dual := D (val x) 0.
Definition dadd (x y : dual) : dual := D (val x + val y) (der x + der y).
Definition dsub (x y : dual) : dual := D (val x - val y) (der x - der y).
Definition dmul (x y : dual) : dual :=
  D (val x * val y) (der x * val y + val x * der y).
Definition dpow2 (x : dual) : dual := D (val x * val x) (2 * val x * der x).
Definition dabs (x : dual) : dual := D (Qabs (val x)) (Qsign (val x) * der x).
Definition dlt (x : dual) (k : Q) : bool := Qltb (val x) k.
Definition dfloat (b : bool) : dual := const (float_of_bool b).

(** Elementwise binary operation on the last axis with torch's broadcasting
    rule: equal lengths, or one side of length 1. *)
Definition broadcast {A B C : Type} (f : A -> B -> C) (a : list A) (b : list B)
  : outcome (list C) :=
  match a, b with
  | [x], _ => Ok (map (f x) b)
  | _, [y] => Ok (map (fun x => f x y) a)
  | _, _ => if Nat.eqb (length a) (length b) then Ok (zip_with f a b)
            else Raise RuntimeError
  end.

(** [t.mean()] of a 2-D tensor: the sum of all elements over their number. *)
Definition dmean (t : list (list dual)) : dual :=
  let flat := concat t in
  dmul (foldr dadd (const 0) flat)
       (const (1 / inject_Z (Z.of_nat (length flat)))).

(** ** The quantile-regression agent *)

Module QuantileAgent.

Record t : Type := mk {
  env : Chain.t;
  eval_env : Chain.t;
  q_values : list (list (list Q));
  epsilon : Q;
  discount : Q;
  lr : Q;
  num_quantiles : Z;
  cumulative_density : list Q;
  mean_exploration : bool;
  active_quantile : Z;
  total_steps : Z
}.

(** Line 93: [(2 * np.arange(n) + 1) / (2.0 * n)]. *)
Definition density (n : Z) : list Q :=
  map (fun k => inject_Z (2 * k + 1) / (2 * inject_Z n)) (range n).

Definition init (env_fn : unit -> Chain.t) (lr epsilon discount : Q)
           (num_quantiles : Z) (mean_exploration : bool) (active_quantile : Z)
  : outcome t :=
  let env := env_fn tt in
  let eval_env := env_fn tt in
  qs <-! np_zeros 0 num_quantiles ;;
  cols <-! np_zeros qs (Chain.action_dim env) ;;
  q <-! np_zeros cols (Chain.state_dim env) ;;
  Ok {| env := env; eval_env := eval_env; q_values := q; epsilon := epsilon;
        discount := discount; lr := lr; num_quantiles := num_quantiles;
        cumulative_density := map float32 (density num_quantiles);
        mean_exploration := mean_exploration;
        active_quantile := active_quantile; total_steps := 0 |}.

Definition set_env (self : t) (e : Chain.t) : t :=
  {| env := e; eval_env := eval_env self; q_values := q_values self;
     epsilon := epsilon self; discount := discount self; lr := lr self;
     num_quantiles := num_quantiles self;
     cumulative_density := cumulative_density self;
     mean_exploration := mean_exploration self;
     active_quantile := active_quantile self; total_steps := total_steps self |}.

Definition set_q_values (self : t) (q : list (list (list Q))) : t :=
  {| env := env self; eval_env := eval_env self; q_values := q;
     epsilon := epsilon self; discount := discount self; lr := lr self;
     num_quantiles := num_quantiles self;
     cumulative_density := cumulative_density self;
     mean_exploration := mean_exploration self;
     active_quantile := active_quantile self; total_steps := total_steps self |}.

Definition set_total_steps (self : t) (n : Z) : t :=
  {| env := env self; eval_env := eval_env self; q_values := q_values self;
     epsilon := epsilon self; discount := discount self; lr := lr self;
     num_quantiles := num_quantiles self;
     cumulative_density := cumulative_density self;
     mean_exploration := mean_exploration self;
     active_quantile := active_quantile self; total_steps := n |}.

(** The last three lines of either branch of [act]. *)
Definition greedy (self : t) (q : list Q) : Py Z :=
  best_q <- lift (np_max q) ;;
  cands <- lift (candidates q best_q (Chain.action_dim (env self))) ;;
  choice cands.

Definition act (self : t) (state : Z) (eval : bool) : Py Z :=
  if negb eval then
    u <- rand ;;
    if Qltb u (epsilon self) then randint (Chain.action_dim (env self))
    else
      rows <- lift (getitem (q_values self) state) ;;
      q <- lift (if mean_exploration self then Ok (mean_last2 rows)
                 else omap (fun row => getitem row (active_quantile self)) rows) ;;
      greedy self q
  else
    rows <- lift (getitem (q_values self) state) ;;
    greedy self (mean_last2 rows).

Definition huber (x : dual) (k : Q) : dual :=
  let cond := detach (dfloat (dlt (dabs x) k)) in
  dadd (dmul (dmul (const (1 # 2)) (dpow2 x)) cond)
       (dmul (dmul (const k) (dsub (dabs x) (const ((1 # 2) * k))))
             (dsub (const 1) cond)).

(** Lines 142-144: the scalar loss as a function of the leaf [quantiles]
    and of the tensor [target] of the targets. *)
Definition loss_graph (cumulative_density : list Q) (target : list Q)
           (quantiles : list dual) : outcome dual :=
  (* [quantiles_next.view(-1, 1) - quantiles]: a column against a row *)
  let diff := map (fun x => map (fun q => dsub (const x) q) quantiles) target in
  loss <-! omap (fun row =>
                   w <-! broadcast (fun tau d =>
                                      dabs (dsub tau (dfloat (dlt (detach d) 0))))
                                   (map const cumulative_density) row ;;
                   broadcast dmul (map (fun d => huber d 1) row) w)
                diff ;;
  Ok (dmean loss).

(** [loss.backward()] followed by [quantiles.grad]: one derivative per
    coordinate of the leaf; [seed j] is the leaf with derivative 1 at
    coordinate [j] and 0 at the others. *)
Fixpoint seed (j : nat) (quantiles : list Q) : list dual :=
  match quantiles, j with
  | [], _ => []
  | x :: l, O => D x 1 :: map const l
  | x :: l, S j' => const x :: seed j' l
  end.

Definition backward (cumulative_density target quantiles : list Q)
  : outcome (list Q) :=
  omap (fun j => l <-! loss_graph cumulative_density target (seed j quantiles) ;;
                 Ok (der l))
       (seq 0 (length quantiles)).

(** Lines 129-136: the bootstrap target. *)
Definition bootstrap (self : t) (reward : Q) (next_state : Z) (done : bool)
  : outcome (list Q) :=
  target <-! (if done then np_zeros 0 (num_quantiles self)
              else rows <-! getitem (q_values self) next_state ;;
                   let q_next := mean_last2 rows in
                   a_next <-! np_argmax q_next ;;
                   quantiles_next <-! getitem rows a_next ;;
                   Ok (map (Qmult (discount self)) quantiles_next)) ;;
  Ok (map (fun x => x + reward) target).

(** Lines 129-147: the quantile-regression update of one transition. *)
Definition learn (self : t) (state action : Z) (reward : Q) (next_state : Z)
           (done : bool) : outcome t :=
  target <-! bootstrap self reward next_state done ;;
  quantiles <-! getitem2 (q_values self) state action ;;
  (* lines 140-141: both vectors become float32 tensors *)
  let quantiles_next := map float32 target in
  let leaf := map float32 quantiles in
  grad <-! backward (cumulative_density self) quantiles_next leaf ;;
  let new := zip_with Qminus quantiles (map (Qmult (lr self)) grad) in
  q' <-! setitem2 (q_values self) state action new ;;
  Ok (set_q_values self q').

Fixpoint episode_loop (fuel : nat) (self : t) (state : Z) (total_rewards : Q)
  : Py (t * Q) :=
  match fuel with
  | O => fun _ => Exhausted
  | S fuel' =>
      action <- act self state false ;;
      sr <- Chain.step (env self) action ;;
      let self := set_env self (fst sr) in
      match snd sr with
      | Chain.PyNone => lift (Raise TypeError)
      | Chain.Transition next_state reward done =>
          let self := set_total_steps self (total_steps self + 1) in
          let total_rewards := total_rewards + reward in
          self <- lift (learn self state action reward next_state done) ;;
          if done then ret (self, total_rewards)
          else episode_loop fuel' self next_state total_rewards
      end
  end.

Definition episode (self : t) : Py (t * Q) :=
  let (e, state) := Chain.reset (env self) in
  let self := set_env self e in
  episode_loop (S (length (q_values self))) self state 0.

End QuantileAgent.

(** ** Convergence check and training loop *)

(** The value table handed to [check_optimality]: the 2-D table of [QAgent],
    the 3-D table of [QuantileAgent], or an array of any other rank.  A
    nested list carries no shape of its own: one without rows stands for
    the table of no state that the agents build, which has two columns. *)
Inductive ndarray : Type :=
| Array2 (a : list (list Q))
| Array3 (a : list (list (list Q)))
| ArrayOther (ndim : nat).

(** [np.sum] of a boolean array. *)
Definition count_true (l : list bool) : nat := length (filter (fun b => b = true) l).

Definition check_optimality (q_values : ndarray) : outcome bool :=
  let q_values := match q_values with
                  | Array3 a => Array2 (mean_last3 a)
                  | other => other
                  end in
  match q_values with
  | Array2 q =>
      advance_col <-! omap (fun row => getitem row 0) q ;;
      escape_col <-! omap (fun row => getitem row 1) q ;;
      let optimal := zip_with (fun x y => Qltb 0 (x - y)) advance_col escape_col in
      Ok (Nat.eqb (count_true optimal) (length optimal))
  | _ => Raise AssertionError
  end.

(** What [run_episodes] uses of an agent. *)
Class Agent (A : Type) : Type := {
  agent_episode : A -> Py (A * Q);
  agent_q_values : A -> ndarray;
  agent_total_steps : A -> Z;
  agent_set_total_steps : A -> Z -> A;
  (* reading an attribute returns what was last assigned to it *)
  agent_total_steps_set : forall a n, agent_total_steps (agent_set_total_steps a n) = n
}.

#[global] Instance QAgent_Agent : Agent QAgent.t := {|
  agent_episode := QAgent.episode;
  agent_q_values := fun a => Array2 (QAgent.q_values a);
  agent_total_steps := QAgent.total_steps;
  agent_set_total_steps := QAgent.set_total_steps;
  agent_total_steps_set := fun _ _ => eq_refl
|}.

#[global] Instance QuantileAgent_Agent : Agent QuantileAgent.t := {|
  agent_episode := QuantileAgent.episode;
  agent_q_values := fun a => Array3 (QuantileAgent.q_values a);
  agent_total_steps := QuantileAgent.total_steps;
  agent_set_total_steps := QuantileAgent.set_total_steps;
  agent_total_steps_set := fun _ _ => eq_refl
|}.

(** The loop of [run_episodes], iterated at most [fuel] times; the two
    [print] calls only write to standard output and are left out. *)
Fixpoint run_episodes_loop {A : Type} `{Agent A} (fuel : nat) (agent : A) (ep : Z)
         (max_steps : Z) : Py (A * Z) :=
  match fuel with
  | O => fun _ => Exhausted
  | S fuel' =>
      r <- agent_episode agent ;;
      let agent := fst r in
      let ep := (ep + 1)%Z in
      optimal <- lift (check_optimality (agent_q_values agent)) ;;
      if (optimal : bool) then ret (agent, agent_total_steps agent)
      else if (agent_total_steps agent >? max_steps)%Z then
        let agent := agent_set_total_steps agent max_steps in
        ret (agent, agent_total_steps agent)
      else run_episodes_loop fuel' agent ep max_steps
  end.

Definition run_episodes {A : Type} `{Agent A} (fuel : nat) (agent : A) (max_steps : Z)
  : Py (A * Z) :=
  run_episodes_loop fuel agent 0 max_steps.

(** ** Evaluation *)

(** What [BaseAgent.eval] uses of the agent it is inherited by. *)
Class BaseAgent (A : Type) : Type := {
  agent_act : A -> Z -> bool -> Py Z;
  agent_eval_env : A -> Chain.t;
  agent_set_eval_env : A -> Chain.t -> A
}.

Definition QAgent_set_eval_env (self : QAgent.t) (e : Chain.t) : QAgent.t :=
  {| QAgent.env := QAgent.env self; QAgent.eval_env := e;
     QAgent.q_values := QAgent.q_values self; QAgent.epsilon := QAgent.epsilon self;
     QAgent.discount := QAgent.discount self; QAgent.lr := QAgent.lr self;
     QAgent.total_steps := QAgent.total_steps self |}.

Definition QuantileAgent_set_eval_env (self : QuantileAgent.t) (e : Chain.t)
  : QuantileAgent.t :=
  {| QuantileAgent.env := QuantileAgent.env self;
     QuantileAgent.eval_env := e;
     QuantileAgent.q_values := QuantileAgent.q_values self;
     QuantileAgent.epsilon := QuantileAgent.epsilon self;
     QuantileAgent.discount := QuantileAgent.discount self;
     QuantileAgent.lr := QuantileAgent.lr self;
     QuantileAgent.num_quantiles := QuantileAgent.num_quantiles self;
     QuantileAgent.cumulative_density := QuantileAgent.cumulative_density self;
     QuantileAgent.mean_exploration := QuantileAgent.mean_exploration self;
     QuantileAgent.active_quantile := QuantileAgent.active_quantile self;
     QuantileAgent.total_steps := QuantileAgent.total_steps self |}.

#[global] Instance QAgent_BaseAgent : BaseAgent QAgent.t := {|
  agent_act := QAgent.act;
  agent_eval_env := QAgent.eval_env;
  agent_set_eval_env := QAgent_set_eval_env
|}.

#[global] Instance QuantileAgent_BaseAgent : BaseAgent QuantileAgent.t := {|
  agent_act := QuantileAgent.act;
  agent_eval_env := QuantileAgent.eval_env;
  agent_set_eval_env := QuantileAgent_set_eval_env
|}.

(** The loop of [BaseAgent.eval], iterated at most [fuel] times. *)
Fixpoint eval_loop {A : Type} `{BaseAgent A} (fuel : nat) (self : A) (state : Z)
         (total_rewards : Q) : Py (A * Q) :=
  match fuel with
  | O => fun _ => Exhausted
  | S fuel' =>
      action <- agent_act self state true ;;
      sr <- Chain.step (agent_eval_env self) action ;;
      let self := agent_set_eval_env self (fst sr) in
      match snd sr with
      | Chain.PyNone => lift (Raise TypeError)
      | Chain.Transition state reward done =>
          let total_rewards := total_rewards + reward in
          if done then ret (self, total_rewards)
          else eval_loop fuel' self state total_rewards
      end
  end.

Definition eval {A : Type} `{BaseAgent A} (fuel : nat) (self : A) : Py (A * Q) :=
  let (e, state) := Chain.reset (agent_eval_env self) in
  eval_loop fuel (agent_set_eval_env self e) state 0.

(** [eval] of either agent: an action is chosen from the row of the current
    state, so one more iteration than the table has rows is fuel enough. *)
Definition QAgent_eval (self : QAgent.t) : Py (QAgent.t * Q) :=
  eval (S (length (QAgent.q_values self))) self.

Definition QuantileAgent_eval (self : QuantileAgent.t) : Py (QuantileAgent.t * Q) :=
  eval (S (length (QuantileAgent.q_values self))) self.

(** A sequence of calls of [Chain.step], collecting what each returns. *)
Fixpoint steps (actions : list Z) (self : Chain.t) : Py (Chain.t * list Chain.result) :=
  match actions with
  | [] => ret (self, [])
  | action :: actions' =>
      sr <- Chain.step self action ;;
      rest <- steps actions' (fst sr) ;;
      ret (fst rest, snd sr :: snd rest)
  end.

(** The script's entry point: a [QAgent] with its default parameters on a
    chain of five states, trained under the default budget. *)
Definition main (fuel : nat) : Py Z :=
  agent <- lift (QAgent.init (fun _ => Chain.init 5 0 1) (1 # 10) (1 # 10) 1) ;;
  r <- run_episodes fuel agent 100000 ;;
  ret (snd r).

(** ** Specification-side notions *)

(** [m] is the maximum of the entries of [l]. *)
Definition is_max (l : list Q) (m : Q) : Prop :=
  m ∈ l /\ forall x, x ∈ l -> x <= m.

(** The entry at position [(i, j)] of a table, when there is one. *)
Definition entry {A : Type} (a : list (list A)) (i j : nat) : option A :=
  match a !! i with
  | Some row => row !! j
  | None => None
  end.

(** The table position that a pair of numpy indices addresses. *)
Definition position2 {A : Type} (a : list (list A)) (i j : Z) : option (nat * nat) :=
  match np_index (length a) i with
  | Some ki => match a !! ki with
               | Some row => match np_index (length row) j with
                             | Some kj => Some (ki, kj)
                             | None => None
                             end
               | None => None
               end
  | None => None
  end.


(** The state-by-action matrix of a value table: a 3-D table is collapsed by
    the mean over its quantile axis; other ranks have none. *)
Definition collapse (q_values : ndarray) : option (list (list Q)) :=
  match q_values with
  | Array2 a => Some a
  | Array3 a => Some (map (map (fun v => Qsum v / inject_Z (Z.of_nat (length v)))) a)
  | ArrayOther _ => None
  end.

(** In a row of the matrix, advancing is valued strictly above escaping. *)
Definition advance_beats_escape (row : list Q) : Prop :=
  exists x y, row !! 0%nat = Some x /\ row !! 1%nat = Some y /\ y < x.

(** The same agent under another exploration rate. *)
Definition with_epsilon (self : QuantileAgent.t) (epsilon : Q) : QuantileAgent.t :=
  {| QuantileAgent.env := QuantileAgent.env self;
     QuantileAgent.eval_env := QuantileAgent.eval_env self;
     QuantileAgent.q_values := QuantileAgent.q_values self;
     QuantileAgent.epsilon := epsilon;
     QuantileAgent.discount := QuantileAgent.discount self;
     QuantileAgent.lr := QuantileAgent.lr self;
     QuantileAgent.num_quantiles := QuantileAgent.num_quantiles self;
     QuantileAgent.cumulative_density := QuantileAgent.cumulative_density self;
     QuantileAgent.mean_exploration := QuantileAgent.mean_exploration self;
     QuantileAgent.active_quantile := QuantileAgent.active_quantile self;
     QuantileAgent.total_steps := QuantileAgent.total_steps self |}.

(** Action [a] has the largest value in the per-action summary [q]. *)
Definition maximal (q : list Q) (a : Z) : Prop :=
  exists (k : nat) (v : Q),
    a = Z.of_nat k /\ q !! k = Some v /\ forall w, w ∈ q -> w <= v.

(** The per-action summary that training-mode selection ranks: the mean of
    each quantile vector, or its entry at [active_quantile]. *)
Definition summary (mean_exploration : bool) (active_quantile : Z)
           (rows : list (list Q)) (q : list Q) : Prop :=
  if mean_exploration
  then q = map (fun v => Qsum v / inject_Z (Z.of_nat (length v))) rows
  else Forall2 (fun v s => getitem v active_quantile = Ok s) rows q.

(** The uniform draw that the next call of [np.random.rand] returns. *)
Definition next_uniform (g : RandomState) : Q :=
  Z.of_N (entropy g (position g) mod Npos two53) # two53.

(** The quantile-regression loss in the words of the specification, for
    Huber width 1: [diff i j = target i - current j],
    [loss i j = huber (diff i j) * |tau j - 1{diff i j < 0}|], and the total
    loss is the mean over all pairs. *)
Definition spec_huber (x : Q) : Q :=
  if Qltb (Qabs x) 1 then (1 # 2) * (x * x) else Qabs x - (1 # 2).

Definition indicator_neg (x : Q) : Q := if Qltb x 0 then 1 else 0.

Definition pair_loss (tau diff : Q) : Q :=
  spec_huber diff * Qabs (tau - indicator_neg diff).

Definition total_loss (taus target current : list Q) : Q :=
  Qsum (map (fun t => Qsum (zip_with (fun tau q => pair_loss tau (t - q)) taus current))
            target)
  / inject_Z (Z.of_nat (length target * length current)).

(** [d] is the derivative of [f] at [x]: the error of the linear
    approximation is at most quadratic in the increment. *)
Definition derivative_at (f : Q -> Q) (x d : Q) : Prop :=
  exists C, forall h, Qabs (f (x + h) - f x - d * h) <= C * (h * h).

(** The slope of the Huber function, and of one pair's loss in its [diff]. *)
Definition huber_slope (x : Q) : Q := if Qltb (Qabs x) 1 then x else Qsign x.

Definition pair_slope (tau diff : Q) : Q :=
  huber_slope diff * Qabs (tau - indicator_neg diff).

(** One element of the loss tensor, as the graph builds it. *)
Definition loss_elem (tau : Q) (d : dual) : dual :=
  dmul (QuantileAgent.huber d 1)
       (dabs (dsub (const tau) (dfloat (dlt (detach d) 0)))).

(** One row of the loss tensor: the target [t] against every current
    quantile. *)
Definition loss_row (taus : list Q) (quantiles : list dual) (t : Q) : list dual :=
  zip_with (fun tau q => loss_elem tau (dsub (const t) q)) taus quantiles.

(** The partial derivative of the total loss in the current quantile [q] at
    level [tau], in closed form. *)
Definition loss_gradient (target : list Q) (pairs : nat) (tau q : Q) : Q :=
  (0 - Qsum (map (fun t => pair_slope tau (t - q)) target))
  / inject_Z (Z.of_nat pairs).

(** Training in the words of the specification: run one episode, check
    convergence, and stop either converged or over budget, in which case the
    step count is clamped to the budget; the last index is the value
    returned. *)
Inductive training {A : Type} `{Agent A} (max_steps : Z)
  : A -> RandomState -> A -> Z -> Prop :=
| training_converged (a a1 : A) (g g1 : RandomState) (r : Q) :
    agent_episode a g = Ok (a1, r, g1) ->
    check_optimality (agent_q_values a1) = Ok true ->
    training max_steps a g a1 (agent_total_steps a1)
| training_over_budget (a a1 : A) (g g1 : RandomState) (r : Q) :
    agent_episode a g = Ok (a1, r, g1) ->
    check_optimality (agent_q_values a1) = Ok false ->
    (agent_total_steps a1 > max_steps)%Z ->
    training max_steps a g (agent_set_total_steps a1 max_steps) max_steps
| training_continues (a a1 a' : A) (g g1 : RandomState) (r : Q) (n : Z) :
    agent_episode a g = Ok (a1, r, g1) ->
    check_optimality (agent_q_values a1) = Ok false ->
    (agent_total_steps a1 <= max_steps)%Z ->
    training max_steps a1 g1 a' n ->
    training max_steps a g a' n.

(** A scalar agent as [QAgent.__init__] builds and [episode] keeps it: two
    actions, at least one state, and a table of [num_states] rows of two
    entries. *)
Definition QAgent_wf (self : QAgent.t) : Prop :=
  Chain.action_dim (QAgent.env self) = 2%Z /\
  (1 <= Chain.num_states (QAgent.env self))%Z /\
  length (QAgent.q_values self) = Z.to_nat (Chain.num_states (QAgent.env self)) /\
  Forall (fun row => length row = 2%nat) (QAgent.q_values self).

(** A quantile agent as [QuantileAgent.__init__] builds and [episode] keeps
    it: two actions, at least one state and one quantile, a table of
    [num_states] by two vectors of [num_quantiles] entries, as many
    cumulative densities, and an [active_quantile] inside the vectors unless
    the mean is used. *)
Definition QuantileAgent_wf (self : QuantileAgent.t) : Prop :=
  Chain.action_dim (QuantileAgent.env self) = 2%Z /\
  (1 <= Chain.num_states (QuantileAgent.env self))%Z /\
  (1 <= QuantileAgent.num_quantiles self)%Z /\
  length (QuantileAgent.q_values self)
  = Z.to_nat (Chain.num_states (QuantileAgent.env self)) /\
  Forall (fun rows =>
            length rows = 2%nat /\
            Forall (fun v => length v = Z.to_nat (QuantileAgent.num_quantiles self)) rows)
         (QuantileAgent.q_values self) /\
  length (QuantileAgent.cumulative_density self)
  = Z.to_nat (QuantileAgent.num_quantiles self) /\
  (QuantileAgent.mean_exploration self = true \/
   (- QuantileAgent.num_quantiles self <= QuantileAgent.active_quantile self
    < QuantileAgent.num_quantiles self)%Z).

(** [x] clipped to the interval from [lo] to [hi]. *)
Definition clip (lo hi x : Q) : Q :=
  if Qltb x lo then lo else if Qltb hi x then hi else x.

(** ** Sample configurations *)

Definition chain3 : Chain.t := Chain.init 3 0 1.

Definition g0 : RandomState :=
  {| entropy := fun n => N.of_nat (7 * n + 3);
     gaussian := fun n => Z.of_nat n # 3;
     position := 0 |}.

Definition qagent3 : QAgent.t :=
  {| QAgent.env := chain3; QAgent.eval_env := chain3;
     QAgent.q_values := [[1; 0]; [2; 3]; [0; 0]];
     QAgent.epsilon := 1 # 10; QAgent.discount := 1; QAgent.lr := 1 # 10;
     QAgent.total_steps := 0 |}.

Definition quantile3 : QuantileAgent.t :=
  {| QuantileAgent.env := chain3; QuantileAgent.eval_env := chain3;
     QuantileAgent.q_values := [[[0; 1]; [0; 0]]; [[0; 1]; [-1; 0]]; [[0; 0]; [0; 0]]];
     QuantileAgent.epsilon := 1 # 10; QuantileAgent.discount := 1;
     QuantileAgent.lr := 1 # 10; QuantileAgent.num_quantiles := 2;
     QuantileAgent.cumulative_density := map float32 (QuantileAgent.density 2);
     QuantileAgent.mean_exploration := false;
     QuantileAgent.active_quantile := -1;
     QuantileAgent.total_steps := 0 |}.


(** A generator whose uniform draws are all 1/2. *)
Definition g_half : RandomState :=
  {| entropy := fun _ => 4503599627370496%N;
     gaussian := fun _ => 0;
     position := 0 |}.


(** A scalar agent whose table values advancing above escaping everywhere. *)
Definition qagent_optimal : QAgent.t :=
  {| QAgent.env := chain3; QAgent.eval_env := chain3;
     QAgent.q_values := [[1; 0]; [2; 1]; [3; 0]];
     QAgent.epsilon := 1 # 10; QAgent.discount := 1; QAgent.lr := 1 # 10;
     QAgent.total_steps := 7 |}.



(** * Properties *)

(** ** Rationals and lists *)

Lemma Qltb_lt (x y : Q) : Qltb x y = true <-> x < y.
Proof.
  unfold Qltb. rewrite negb_true_iff. split.
  - intros H. apply Qnot_le_lt. intros Hle. apply Qle_bool_iff in Hle. congruence.
  - intros H. destruct (Qle_bool y x) eqn:E; [|reflexivity].
    apply Qle_bool_iff in E. lra.
Qed.

Lemma Qltb_ge (x y : Q) : Qltb x y = false <-> y <= x.
Proof.
  unfold Qltb. rewrite negb_false_iff. apply Qle_bool_iff.
Qed.

(** Equal rationals have the same float32 copy. *)
Lemma float32_proper (x y : Q) : x == y -> float32 x = float32 y.
Proof. intros H. unfold float32. by rewrite (Qred_complete x y H). Qed.

Lemma np_index_lt (n : nat) (i : Z) (k : nat) : np_index n i = Some k -> (k < n)%nat.
Proof.
  unfold np_index. intros H.
  destruct ((0 <=? i) && (i <? Z.of_nat n))%Z eqn:E1.
  - apply andb_true_iff in E1 as [H1 H2]. inversion H; subst. lia.
  - destruct ((- Z.of_nat n <=? i) && (i <? 0))%Z eqn:E2; [|discriminate].
    apply andb_true_iff in E2 as [H1 H2]. inversion H; subst. lia.
Qed.

Lemma np_index_nonneg (n : nat) (i : Z) :
  (0 <= i < Z.of_nat n)%Z -> np_index n i = Some (Z.to_nat i).
Proof.
  intros H. unfold np_index.
  destruct ((0 <=? i) && (i <? Z.of_nat n))%Z eqn:E1; [reflexivity|].
  apply andb_false_iff in E1 as [E|E]; lia.
Qed.

Lemma getitem_Ok {A} (l : list A) (i : Z) (x : A) :
  getitem l i = Ok x <-> exists k, np_index (length l) i = Some k /\ l !! k = Some x.
Proof.
  unfold getitem. split.
  - destruct (np_index (length l) i) as [k|]; [|discriminate].
    destruct (l !! k) eqn:E; [|discriminate]. intros [= ->]. eauto.
  - intros (k & -> & ->). reflexivity.
Qed.

(** ** Huber *)

Lemma huber_val (x : dual) :
  val (QuantileAgent.huber x 1) ==
  if Qltb (Qabs (val x)) 1 then (1 # 2) * (val x * val x) else Qabs (val x) - (1 # 2).
Proof.
  unfold QuantileAgent.huber, dlt, dfloat, float_of_bool. cbn [val dabs detach const dadd dmul dsub dpow2].
  destruct (Qltb (Qabs (val x)) 1); cbn [val]; ring.
Qed.

(** C3: with width [k = 1], [huber x] is [x^2 / 2] when [|x| < 1] and
    [|x| - 1/2] when [|x| >= 1]. *)
Theorem huber_correct (x dx : Q) :
  (Qabs x < 1 -> val (QuantileAgent.huber (D x dx) 1) == (1 # 2) * (x * x)) /\
  (1 <= Qabs x -> val (QuantileAgent.huber (D x dx) 1) == Qabs x - (1 # 2)).
Proof.
  split; intros H; rewrite huber_val; cbn [val].
  - apply Qltb_lt in H. rewrite H. reflexivity.
  - apply Qltb_ge in H. rewrite H. reflexivity.
Qed.

Lemma huber_correct_witness :
  val (QuantileAgent.huber (D (1 # 2) 1) 1) == (1 # 2) * ((1 # 2) * (1 # 2)) /\
  val (QuantileAgent.huber (D (-3) 1) 1) == Qabs (-3) - (1 # 2).
Proof.
  split.
  - apply (proj1 (huber_correct (1 # 2) 1)). reflexivity.
  - apply (proj2 (huber_correct (-3) 1)). discriminate.
Defined.

(** ** The chain environment *)

(** C9, as the code has it: an action outside {0, 1} raises nothing;
    [step] falls off its end and returns [None], leaving the environment and
    the generator as they were. *)
Theorem step_invalid_action_returns_None (self : Chain.t) (action : Z) (g : RandomState) :
  action <> 0%Z -> action <> 1%Z ->
  Chain.step self action g = Ok (self, Chain.PyNone, g).
Proof.
  intros H0 H1. unfold Chain.step.
  apply Z.eqb_neq in H0, H1. rewrite H0, H1. reflexivity.
Qed.

Lemma step_invalid_action_returns_None_witness :
  Chain.step chain3 2 g0 = Ok (chain3, Chain.PyNone, g0).
Proof.
  apply (step_invalid_action_returns_None chain3 2 g0); discriminate.
Defined.

(** C9 as stated fails: on action 2 [step] returns [None], which is no
    exception. *)
Lemma step_invalid_action_no_error :
  Chain.step chain3 2 g0 = Ok (chain3, Chain.PyNone, g0) /\
  ~ (exists e, Chain.step chain3 2 g0 = Raise e).
Proof.
  split; [reflexivity|]. intros [e He]. vm_compute in He. discriminate.
Qed.

Lemma setitem_Ok {A} (l l' : list A) (i : Z) (x : A) :
  setitem l i x = Ok l' <->
  exists k, np_index (length l) i = Some k /\ l' = <[k:=x]> l.
Proof.
  unfold setitem. split.
  - destruct (np_index (length l) i) as [k|]; [|discriminate].
    intros [= <-]. eauto.
  - intros (k & -> & ->). reflexivity.
Qed.

Lemma getitem2_Ok {A} (a : list (list A)) (i j : Z) (x : A) :
  getitem2 a i j = Ok x <->
  exists row, getitem a i = Ok row /\ getitem row j = Ok x.
Proof.
  unfold getitem2. split.
  - destruct (getitem a i) as [row| |]; cbn; [|discriminate..]. eauto.
  - intros (row & -> & H). exact H.
Qed.

Lemma getitem_setitem {A} (l : list A) (i : Z) (x y : A) :
  getitem l i = Ok y ->
  exists l', setitem l i x = Ok l' /\ getitem l' i = Ok x /\ length l' = length l.
Proof.
  intros (k & Hk & Hy)%getitem_Ok. exists (<[k:=x]> l).
  split; [apply setitem_Ok; eauto|]. split; [|apply length_insert].
  apply getitem_Ok. exists k. rewrite length_insert. split; [exact Hk|].
  apply list_lookup_insert_eq. by apply np_index_lt in Hk.
Qed.

Lemma Qmaxb_cases (x y : Q) :
  (Qmaxb x y = y /\ x <= y) \/ (Qmaxb x y = x /\ y <= x).
Proof.
  unfold Qmaxb. destruct (Qle_bool x y) eqn:E.
  - left. split; [reflexivity|]. by apply Qle_bool_iff.
  - right. split; [reflexivity|].
    destruct (Qlt_le_dec y x) as [H|H]; [lra|].
    apply Qle_bool_iff in H. congruence.
Qed.

Lemma foldl_Qmaxb_is_max (l : list Q) (x : Q) : is_max (x :: l) (foldl Qmaxb x l).
Proof.
  revert x. induction l as [|y l IH]; intros x; cbn.
  - split; [left|]. intros z ->%list_elem_of_singleton. lra.
  - destruct (IH (Qmaxb x y)) as [Hin Hle]. split.
    + apply elem_of_cons in Hin as [->|Hin].
      * destruct (Qmaxb_cases x y) as [[-> _]|[-> _]]; rewrite !elem_of_cons; auto.
      * rewrite !elem_of_cons; auto.
    + intros z Hz.
      assert (Hm : Qmaxb x y <= foldl Qmaxb (Qmaxb x y) l) by (apply Hle; left).
      destruct (Qmaxb_cases x y) as [[E Hxy]|[E Hxy]]; rewrite E in *;
        apply elem_of_cons in Hz as [->|Hz]; try lra;
        apply elem_of_cons in Hz as [->|Hz]; try lra;
        apply Hle; right; exact Hz.
Qed.

Lemma np_max_is_max (l : list Q) (m : Q) : np_max l = Ok m -> is_max l m.
Proof.
  destruct l as [|x l]; cbn; [discriminate|]. intros [= <-].
  apply foldl_Qmaxb_is_max.
Qed.

Lemma np_max_nonempty (l : list Q) : l <> [] -> exists m, np_max l = Ok m.
Proof. destruct l; [congruence|]. cbn. eauto. Qed.

(** ** The scalar agent *)

Lemma getitem2_setitem2 {A} (a : list (list A)) (i j : Z) (x y : A) :
  getitem2 a i j = Ok y ->
  exists a', setitem2 a i j x = Ok a' /\ getitem2 a' i j = Ok x.
Proof.
  intros (row & Hrow & Hy)%getitem2_Ok.
  destruct (getitem_setitem row j x y Hy) as (row' & Hset & Hget & _).
  destruct (getitem_setitem a i row' row Hrow) as (a' & Hset' & Hget' & _).
  exists a'. split.
  - unfold setitem2. rewrite Hrow. cbn. rewrite Hset. cbn. exact Hset'.
  - apply getitem2_Ok. eauto.
Qed.

Lemma QAgent_episode_loop_S (fuel : nat) (self : QAgent.t) (state : Z) (total : Q) :
  QAgent.episode_loop (S fuel) self state total =
  (action <- QAgent.act self state false ;;
   sr <- Chain.step (QAgent.env self) action ;;
   match snd sr with
   | Chain.PyNone => lift (Raise TypeError)
   | Chain.Transition next_state reward done =>
       self1 <- lift (QAgent.learn
                        (QAgent.set_total_steps (QAgent.set_env self (fst sr))
                                                (QAgent.total_steps self + 1))
                        state action reward next_state done) ;;
       if done then ret (self1, total + reward)
       else QAgent.episode_loop fuel self1 next_state (total + reward)
   end).
Proof. reflexivity. Qed.

Lemma QAgent_learn_result (self : QAgent.t) (state action : Z) (reward : Q)
        (next_state : Z) (done : bool) (q : Q) (next_row : list Q) :
  getitem2 (QAgent.q_values self) state action = Ok q ->
  (done = false ->
   getitem (QAgent.q_values self) next_state = Ok next_row /\ next_row <> []) ->
  exists (self' : QAgent.t) (target : Q),
    QAgent.learn self state action reward next_state done = Ok self' /\
    getitem2 (QAgent.q_values self') state action
      = Ok (q + QAgent.lr self * (reward + target - q)) /\
    (if done then target = 0
     else exists m, is_max next_row m /\ target = QAgent.discount self * m).
Proof.
  intros Hq Hnext. unfold QAgent.learn.
  destruct done.
  - cbn. rewrite Hq. cbn.
    destruct (getitem2_setitem2 _ _ _ (q + QAgent.lr self * (reward + 0 - q)) _ Hq)
      as (a' & -> & Hget).
    cbn. eexists _, 0. split; [reflexivity|]. split; [exact Hget|reflexivity].
  - destruct (Hnext eq_refl) as [Hrow Hne].
    destruct (np_max_nonempty _ Hne) as [m Hm].
    rewrite Hrow. cbn. rewrite Hm. cbn. rewrite Hq. cbn.
    destruct (getitem2_setitem2 _ _ _
                (q + QAgent.lr self * (reward + QAgent.discount self * m - q)) _ Hq)
      as (a' & -> & Hget).
    cbn. eexists _, (QAgent.discount self * m). split; [reflexivity|].
    split; [exact Hget|]. exists m. split; [by apply np_max_is_max|reflexivity].
Qed.

Lemma QAgent_learn_table (self : QAgent.t) (state action : Z) (reward : Q)
      (next_state : Z) (done : bool) (q : Q) (next_row : list Q) :
  getitem2 (QAgent.q_values self) state action = Ok q ->
  (done = false ->
   getitem (QAgent.q_values self) next_state = Ok next_row /\ next_row <> []) ->
  exists (target : Q) (table : list (list Q)),
    (if done then target = 0
     else exists m, is_max next_row m /\ target = QAgent.discount self * m) /\
    setitem2 (QAgent.q_values self) state action
             (q + QAgent.lr self * (reward + target - q)) = Ok table /\
    getitem2 table state action = Ok (q + QAgent.lr self * (reward + target - q)) /\
    QAgent.learn self state action reward next_state done
    = Ok (QAgent.set_q_values self table).
Proof.
  intros Hq Hnext. unfold QAgent.learn.
  destruct done.
  - cbn. rewrite Hq. cbn.
    destruct (getitem2_setitem2 _ _ _ (q + QAgent.lr self * (reward + 0 - q)) _ Hq)
      as (table & Hset & Hget).
    rewrite Hset. cbn. exists 0, table. auto.
  - destruct (Hnext eq_refl) as [Hrow Hne].
    destruct (np_max_nonempty _ Hne) as [m Hm].
    rewrite Hrow. cbn. rewrite Hm. cbn. rewrite Hq. cbn.
    destruct (getitem2_setitem2 _ _ _
                (q + QAgent.lr self * (reward + QAgent.discount self * m - q)) _ Hq)
      as (table & Hset & Hget).
    rewrite Hset. cbn. exists (QAgent.discount self * m), table.
    split; [exists m; split; [by apply np_max_is_max|reflexivity]|]. auto.
Qed.

Lemma QAgent_episode_loop_iteration (fuel : nat) (self : QAgent.t) (state : Z)
      (total : Q) (g : RandomState) (action : Z) (g1 : RandomState) (e : Chain.t)
      (next_state : Z) (reward : Q) (done : bool) (g2 : RandomState)
      (table : list (list Q)) :
  QAgent.act self state false g = Ok (action, g1) ->
  Chain.step (QAgent.env self) action g1
  = Ok (e, Chain.Transition next_state reward done, g2) ->
  QAgent.learn (QAgent.set_total_steps (QAgent.set_env self e)
                                       (QAgent.total_steps self + 1))
               state action reward next_state done
  = Ok (QAgent.set_q_values
          (QAgent.set_total_steps (QAgent.set_env self e) (QAgent.total_steps self + 1))
          table) ->
  QAgent.episode_loop (S fuel) self state total g
  = let self' := QAgent.set_q_values
                   (QAgent.set_total_steps (QAgent.set_env self e)
                                           (QAgent.total_steps self + 1))
                   table in
    if done then Ok (self', total + reward, g2)
    else QAgent.episode_loop fuel self' next_state (total + reward) g2.
Proof.
  intros Hact Hstep Hlearn. rewrite QAgent_episode_loop_S.
  unfold bind at 1. rewrite Hact. unfold bind at 1. rewrite Hstep.
  cbn [fst snd]. unfold bind, lift. rewrite Hlearn. cbv zeta.
  destruct done; reflexivity.
Qed.

(** C5: [QAgent.episode] runs the loop from the reset state, and every
    iteration of the loop, on the transition
    [(state, action, reward, next_state, done)] that [act] and [step] give
    it, goes on with the table in which [Q(state, action)] is replaced by
    [Q(state, action) + lr * (reward + target - Q(state, action))], where
    [target] is 0 on a terminal transition and the discounted maximum of the
    row of [next_state] otherwise. *)
Theorem QAgent_episode_td_update :
  (forall (self : QAgent.t) (g : RandomState),
      QAgent.episode self g
      = QAgent.episode_loop (S (length (QAgent.q_values self)))
                            (QAgent.set_env self (Chain.set_state (QAgent.env self) 0))
                            0 0 g) /\
  (forall (fuel : nat) (self : QAgent.t) (state : Z) (total : Q) (g : RandomState)
          (action : Z) (g1 : RandomState) (e : Chain.t) (next_state : Z) (reward : Q)
          (done : bool) (g2 : RandomState) (q : Q) (next_row : list Q),
      QAgent.act self state false g = Ok (action, g1) ->
      Chain.step (QAgent.env self) action g1
      = Ok (e, Chain.Transition next_state reward done, g2) ->
      getitem2 (QAgent.q_values self) state action = Ok q ->
      (done = false ->
       getitem (QAgent.q_values self) next_state = Ok next_row /\ next_row <> []) ->
      exists (target : Q) (table : list (list Q)),
        (if done then target = 0
         else exists m, is_max next_row m /\ target = QAgent.discount self * m) /\
        setitem2 (QAgent.q_values self) state action
                 (q + QAgent.lr self * (reward + target - q)) = Ok table /\
        getitem2 table state action = Ok (q + QAgent.lr self * (reward + target - q)) /\
        QAgent.episode_loop (S fuel) self state total g
        = let self' := QAgent.set_q_values
                         (QAgent.set_total_steps (QAgent.set_env self e)
                                                 (QAgent.total_steps self + 1))
                         table in
          if done then Ok (self', total + reward, g2)
          else QAgent.episode_loop fuel self' next_state (total + reward) g2).
Proof.
  split; [reflexivity|].
  intros fuel self state total g action g1 e next_state reward done g2 q next_row
         Hact Hstep Hq Hnext.
  destruct (QAgent_learn_table
              (QAgent.set_total_steps (QAgent.set_env self e)
                                      (QAgent.total_steps self + 1))
              state action reward next_state done q next_row Hq Hnext)
    as (target & table & Htarget & Hset & Hget & Hlearn).
  exists target, table. split; [exact Htarget|]. split; [exact Hset|].
  split; [exact Hget|].
  exact (QAgent_episode_loop_iteration fuel self state total g action g1 e next_state
           reward done g2 table Hact Hstep Hlearn).
Qed.

Lemma QAgent_episode_td_update_witness :
  exists (target : Q) (table : list (list Q)),
    (exists m, is_max [2; 3] m /\ target = QAgent.discount qagent3 * m) /\
    setitem2 (QAgent.q_values qagent3) 0 0
             (1 + QAgent.lr qagent3 * ((2 # 3) + target - 1)) = Ok table /\
    getitem2 table 0 0 = Ok (1 + QAgent.lr qagent3 * ((2 # 3) + target - 1)) /\
    QAgent.episode_loop 4 qagent3 0 0 g0
    = QAgent.episode_loop
        3
        (QAgent.set_q_values
           (QAgent.set_total_steps (QAgent.set_env qagent3 (Chain.set_state chain3 1))
                                   (QAgent.total_steps qagent3 + 1))
           table)
        1 (0 + (2 # 3)) (advance (advance (advance g0))).
Proof.
  apply (proj2 QAgent_episode_td_update 3%nat qagent3 0%Z 0 g0 0%Z (advance (advance g0))
               (Chain.set_state chain3 1) 1%Z (2 # 3) false
               (advance (advance (advance g0))) 1 [2; 3]).
  - reflexivity.
  - reflexivity.
  - reflexivity.
  - intros _. split; [reflexivity|discriminate].
Defined.

(** ** Frame of the updates *)

Lemma setitem2_Ok {A} (a a' : list (list A)) (i j : Z) (x : A) :
  setitem2 a i j x = Ok a' ->
  exists ki kj row,
    position2 a i j = Some (ki, kj) /\ a !! ki = Some row /\
    a' = <[ki := <[kj := x]> row]> a.
Proof.
  unfold setitem2, position2. intros H.
  destruct (getitem a i) as [row| |] eqn:Hrow; cbn in H; [|discriminate..].
  apply getitem_Ok in Hrow as (ki & Hki & Hrow).
  destruct (setitem row j x) as [row'| |] eqn:Hset; cbn in H; [|discriminate..].
  apply setitem_Ok in Hset as (kj & Hkj & ->).
  apply setitem_Ok in H as (ki' & Hki' & ->).
  rewrite Hki in Hki'. injection Hki' as <-.
  exists ki, kj, row. rewrite Hki, Hrow, Hkj. auto.
Qed.

Lemma entry_insert_ne {A} (a : list (list A)) (row : list A) (ki kj i j : nat) (x : A) :
  a !! ki = Some row -> (i, j) <> (ki, kj) ->
  entry (<[ki := <[kj := x]> row]> a) i j = entry a i j.
Proof.
  intros Hrow Hne. unfold entry.
  destruct (decide (i = ki)) as [->|Hi].
  - rewrite list_lookup_insert_eq by (by eapply lookup_lt_Some).
    rewrite Hrow. apply list_lookup_insert_ne. congruence.
  - by rewrite list_lookup_insert_ne.
Qed.

Lemma QAgent_learn_frame (self self' : QAgent.t) (state action : Z) (reward : Q)
      (next_state : Z) (done : bool) :
  QAgent.learn self state action reward next_state done = Ok self' ->
  exists ki kj,
    position2 (QAgent.q_values self) state action = Some (ki, kj) /\
    forall i j, (i, j) <> (ki, kj) ->
                entry (QAgent.q_values self') i j = entry (QAgent.q_values self) i j.
Proof.
  unfold QAgent.learn. intros H.
  destruct (if done then _ else _) as [target| |]; cbn in H; [|discriminate..].
  destruct (getitem2 _ state action) as [q| |]; cbn in H; [|discriminate..].
  destruct (setitem2 _ _ _ _) as [q'| |] eqn:Hset; cbn in H; [|discriminate..].
  injection H as <-. cbn.
  apply setitem2_Ok in Hset as (ki & kj & row & Hpos & Hrow & ->).
  exists ki, kj. split; [exact Hpos|]. intros i j Hne. by apply entry_insert_ne.
Qed.

Lemma QuantileAgent_learn_frame (self self' : QuantileAgent.t) (state action : Z)
      (reward : Q) (next_state : Z) (done : bool) :
  QuantileAgent.learn self state action reward next_state done = Ok self' ->
  QuantileAgent.cumulative_density self' = QuantileAgent.cumulative_density self /\
  exists ki kj,
    position2 (QuantileAgent.q_values self) state action = Some (ki, kj) /\
    forall i j, (i, j) <> (ki, kj) ->
                entry (QuantileAgent.q_values self') i j
                = entry (QuantileAgent.q_values self) i j.
Proof.
  unfold QuantileAgent.learn. intros H.
  destruct (QuantileAgent.bootstrap _ _ _ _) as [target| |]; cbn in H; [|discriminate..].
  destruct (getitem2 _ state action) as [q| |]; cbn in H; [|discriminate..].
  destruct (QuantileAgent.backward _ _ _) as [grad| |]; cbn in H; [|discriminate..].
  destruct (setitem2 _ _ _ _) as [q'| |] eqn:Hset; cbn in H; [|discriminate..].
  injection H as <-. cbn. split; [reflexivity|].
  apply setitem2_Ok in Hset as (ki & kj & row & Hpos & Hrow & ->).
  exists ki, kj. split; [exact Hpos|]. intros i j Hne. by apply entry_insert_ne.
Qed.

Lemma QuantileAgent_episode_loop_S (fuel : nat) (self : QuantileAgent.t) (state : Z)
      (total : Q) :
  QuantileAgent.episode_loop (S fuel) self state total =
  (action <- QuantileAgent.act self state false ;;
   sr <- Chain.step (QuantileAgent.env self) action ;;
   match snd sr with
   | Chain.PyNone => lift (Raise TypeError)
   | Chain.Transition next_state reward done =>
       self1 <- lift (QuantileAgent.learn
                        (QuantileAgent.set_total_steps
                           (QuantileAgent.set_env self (fst sr))
                           (QuantileAgent.total_steps self + 1))
                        state action reward next_state done) ;;
       if done then ret (self1, total + reward)
       else QuantileAgent.episode_loop fuel self1 next_state (total + reward)
   end).
Proof. reflexivity. Qed.

Lemma QuantileAgent_episode_loop_density (fuel : nat) (self self' : QuantileAgent.t)
      (state : Z) (total total' : Q) (g g' : RandomState) :
  QuantileAgent.episode_loop fuel self state total g = Ok (self', total', g') ->
  QuantileAgent.cumulative_density self' = QuantileAgent.cumulative_density self.
Proof.
  revert self state total g. induction fuel as [|fuel IH]; intros self state total g H.
  - discriminate.
  - rewrite QuantileAgent_episode_loop_S in H. unfold bind in H.
    destruct (QuantileAgent.act self state false g) as [[action g1]| |]; [|discriminate..].
    destruct (Chain.step _ action g1) as [[[e res] g2]| |]; [|discriminate..].
    cbn [fst snd] in H. destruct res as [next_state reward done|]; [|discriminate].
    unfold lift in H.
    destruct (QuantileAgent.learn _ _ _ _ _ _) as [self1| |] eqn:Hlearn; [|discriminate..].
    apply QuantileAgent_learn_frame in Hlearn as [Hcd _]. cbn in Hcd.
    destruct done.
    + unfold ret in H. injection H as <- _ _. exact Hcd.
    + apply IH in H. congruence.
Qed.

(** C10: an update of either agent changes the table at the position of
    [(state, action)] only, and neither the update, nor an episode, nor the
    clamping of the step count changes [cumulative_density]. *)
Theorem updates_frame :
  (forall (self self' : QAgent.t) state action reward next_state done,
      QAgent.learn self state action reward next_state done = Ok self' ->
      exists ki kj,
        position2 (QAgent.q_values self) state action = Some (ki, kj) /\
        forall i j, (i, j) <> (ki, kj) ->
                    entry (QAgent.q_values self') i j = entry (QAgent.q_values self) i j) /\
  (forall (self self' : QuantileAgent.t) state action reward next_state done,
      QuantileAgent.learn self state action reward next_state done = Ok self' ->
      QuantileAgent.cumulative_density self' = QuantileAgent.cumulative_density self /\
      exists ki kj,
        position2 (QuantileAgent.q_values self) state action = Some (ki, kj) /\
        forall i j, (i, j) <> (ki, kj) ->
                    entry (QuantileAgent.q_values self') i j
                    = entry (QuantileAgent.q_values self) i j) /\
  (forall (self self' : QuantileAgent.t) (g g' : RandomState) (r : Q),
      QuantileAgent.episode self g = Ok (self', r, g') ->
      QuantileAgent.cumulative_density self' = QuantileAgent.cumulative_density self) /\
  (forall (self : QuantileAgent.t) (n : Z),
      QuantileAgent.cumulative_density (QuantileAgent.set_total_steps self n)
      = QuantileAgent.cumulative_density self).
Proof.
  split; [|split; [|split]].
  - intros. by eapply QAgent_learn_frame.
  - intros. by eapply QuantileAgent_learn_frame.
  - intros self self' g g' r H. unfold QuantileAgent.episode, Chain.reset in H.
    by apply QuantileAgent_episode_loop_density in H.
  - reflexivity.
Qed.

Lemma updates_frame_witness :
  (exists self',
      QAgent.learn qagent3 0 0 1 1 false = Ok self' /\
      exists ki kj,
        position2 (QAgent.q_values qagent3) 0 0 = Some (ki, kj) /\
        forall i j, (i, j) <> (ki, kj) ->
                    entry (QAgent.q_values self') i j
                    = entry (QAgent.q_values qagent3) i j) /\
  (exists self',
      QuantileAgent.learn quantile3 0 0 1 1 false = Ok self' /\
      QuantileAgent.cumulative_density self'
      = QuantileAgent.cumulative_density quantile3) /\
  (exists self' r g',
      QuantileAgent.episode quantile3 g0 = Ok (self', r, g') /\
      QuantileAgent.cumulative_density self'
      = QuantileAgent.cumulative_density quantile3).
Proof.
  split; [|split].
  - eexists. split; [reflexivity|].
    apply (proj1 updates_frame qagent3 _ 0%Z 0%Z 1 1%Z false). reflexivity.
  - eexists. split; [reflexivity|].
    apply (proj1 (proj2 updates_frame) quantile3 _ 0%Z 0%Z 1 1%Z false). reflexivity.
  - eexists _, _, _. split; [vm_compute; reflexivity|].
    eapply (proj1 (proj2 (proj2 updates_frame)) quantile3 _ g0).
    vm_compute. reflexivity.
Defined.

(** ** The bootstrap target *)

Lemma argmax_from_spec (l : list Q) (best : Q) (besti i : nat) :
  (argmax_from best besti i l = besti /\ forall x, x ∈ l -> x <= best) \/
  (exists k m, argmax_from best besti i l = (i + k)%nat /\ l !! k = Some m /\
               best < m /\ forall x, x ∈ l -> x <= m).
Proof.
  revert best besti i. induction l as [|y l IH]; intros best besti i; cbn.
  - left. split; [reflexivity|]. intros x Hx. by apply elem_of_nil in Hx.
  - destruct (Qltb best y) eqn:E.
    + apply Qltb_lt in E. right.
      destruct (IH y i (S i)) as [[-> Hle]|(k & m & -> & Hk & Hlt & Hle)].
      * exists 0%nat, y. split; [lia|]. split; [reflexivity|]. split; [exact E|].
        intros x [->|Hx]%elem_of_cons; [lra|auto].
      * exists (S k), m. split; [lia|]. split; [exact Hk|]. split; [lra|].
        intros x [->|Hx]%elem_of_cons; [lra|auto].
    + apply Qltb_ge in E.
      destruct (IH best besti (S i)) as [[-> Hle]|(k & m & -> & Hk & Hlt & Hle)].
      * left. split; [reflexivity|].
        intros x [->|Hx]%elem_of_cons; [lra|auto].
      * right. exists (S k), m. split; [lia|]. split; [exact Hk|]. split; [exact Hlt|].
        intros x [->|Hx]%elem_of_cons; [lra|auto].
Qed.

Lemma np_argmax_spec (l : list Q) : l <> [] ->
  exists k m, np_argmax l = Ok (Z.of_nat k) /\ l !! k = Some m /\
              forall x, x ∈ l -> x <= m.
Proof.
  destruct l as [|y l]; [congruence|]. intros _. cbn.
  destruct (argmax_from_spec l y 0 1) as [[-> Hle]|(k & m & -> & Hk & Hlt & Hle)].
  - exists 0%nat, y. split; [reflexivity|]. split; [reflexivity|].
    intros x [->|Hx]%elem_of_cons; [lra|auto].
  - exists (S k), m. split; [reflexivity|]. split; [exact Hk|].
    intros x [->|Hx]%elem_of_cons; [lra|auto].
Qed.

Lemma getitem_nat {A} (l : list A) (k : nat) (x : A) :
  l !! k = Some x -> getitem l (Z.of_nat k) = Ok x.
Proof.
  intros H. apply getitem_Ok. exists k. split; [|exact H].
  rewrite np_index_nonneg; [by rewrite Nat2Z.id|].
  apply lookup_lt_Some in H. lia.
Qed.


(** ** The convergence check *)

Lemma omap_Ok {A B} (f : A -> outcome B) (l : list A) (ys : list B) :
  omap f l = Ok ys <-> Forall2 (fun x y => f x = Ok y) l ys.
Proof.
  revert ys. induction l as [|x l IH]; intros ys; cbn.
  - split; [intros [= <-]; constructor|intros H; inversion H; reflexivity].
  - split.
    + destruct (f x) as [y| |] eqn:Hy; cbn; [|discriminate..].
      destruct (omap f l) as [ys'| |]; cbn; [|discriminate..].
      intros [= <-]. constructor; [exact Hy|by apply IH].
    + intros H. inversion H as [|? y ? ys' Hy Hys]; subst.
      rewrite Hy. cbn. apply IH in Hys. rewrite Hys. reflexivity.
Qed.

Lemma omap_total {A B} (f : A -> outcome B) (l : list A) :
  (forall x, x ∈ l -> exists y, f x = Ok y) -> exists ys, omap f l = Ok ys.
Proof.
  induction l as [|x l IH]; intros H; cbn; [eauto|].
  destruct (H x) as [y ->]; [left|]. cbn.
  destruct IH as [ys ->]; [intros; apply H; by right|]. cbn. eauto.
Qed.

Lemma getitem_nonneg {A} (l : list A) (k : nat) (x : A) :
  getitem l (Z.of_nat k) = Ok x <-> l !! k = Some x.
Proof.
  split; [|apply getitem_nat].
  intros (k' & Hk' & Hx)%getitem_Ok. unfold np_index in Hk'.
  destruct ((0 <=? Z.of_nat k) && (Z.of_nat k <? Z.of_nat (length l)))%Z.
  - rewrite Nat2Z.id in Hk'. congruence.
  - destruct ((- Z.of_nat (length l) <=? Z.of_nat k) && (Z.of_nat k <? 0))%Z eqn:E;
      [|discriminate].
    apply andb_true_iff in E as [_ E]. apply Z.ltb_lt in E. lia.
Qed.

Lemma count_true_le (l : list bool) : (count_true l <= length l)%nat.
Proof. unfold count_true. apply length_filter. Qed.

Lemma count_true_cons (b : bool) (l : list bool) :
  count_true (b :: l) = length (b :: l) <-> b = true /\ count_true l = length l.
Proof.
  pose proof (count_true_le l) as Hle. unfold count_true in *.
  rewrite filter_cons. destruct b; cbn.
  - rewrite decide_True by reflexivity. cbn. split; [intros; split; [reflexivity|lia]|intros [_ ->]; reflexivity].
  - rewrite decide_False by discriminate. split; [lia|intros [? _]; discriminate].
Qed.

Lemma check_columns (q : list (list Q)) (c0 c1 : list Q) :
  Forall2 (fun row x => getitem row 0 = Ok x) q c0 ->
  Forall2 (fun row y => getitem row 1 = Ok y) q c1 ->
  let optimal := zip_with (fun x y => Qltb 0 (x - y)) c0 c1 in
  count_true optimal = length optimal <-> forall row, row ∈ q -> advance_beats_escape row.
Proof.
  intros H0. revert c1. induction H0 as [|row x q c0 Hx H0 IH]; intros c1 H1.
  - inversion H1; subst. cbn. split; [|reflexivity].
    intros _ row Hrow. by apply elem_of_nil in Hrow.
  - inversion H1 as [|? y ? c1' Hy H1']; subst. cbn zeta. cbn [zip_with].
    rewrite count_true_cons. specialize (IH _ H1'). cbn zeta in IH. rewrite IH.
    apply (getitem_nonneg row 0) in Hx. apply (getitem_nonneg row 1) in Hy.
    split.
    + intros [Hlt Hall] row' [->|Hrow']%elem_of_cons; [|auto].
      exists x, y. apply Qltb_lt in Hlt. repeat split; [assumption..|lra].
    + intros Hall. split.
      * destruct (Hall row) as (x' & y' & Hx' & Hy' & Hlt); [left|].
        apply Qltb_lt. assert (x' = x) by congruence. assert (y' = y) by congruence.
        subst. lra.
      * intros row' Hrow'. apply Hall. by right.
Qed.

Lemma check_matrix (q : list (list Q)) :
  check_optimality (Array2 q) = Ok true <->
  forall row, row ∈ q -> advance_beats_escape row.
Proof.
  unfold check_optimality. split.
  - destruct (omap _ q) as [c0| |] eqn:H0; cbn; [|discriminate..].
    destruct (omap (fun row => getitem row 1) q) as [c1| |] eqn:H1; cbn; [|discriminate..].
    intros [= H]. apply Nat.eqb_eq in H.
    apply omap_Ok in H0, H1. by apply (check_columns q c0 c1 H0 H1).
  - intros Hall.
    destruct (omap_total (fun row : list Q => getitem row 0) q) as [c0 H0].
    { intros row (x & y & Hx & _)%Hall. exists x. by apply (getitem_nonneg row 0). }
    destruct (omap_total (fun row : list Q => getitem row 1) q) as [c1 H1].
    { intros row (x & y & _ & Hy & _)%Hall. exists y. by apply (getitem_nonneg row 1). }
    rewrite H0. cbn. rewrite H1. cbn. f_equal. apply Nat.eqb_eq.
    apply omap_Ok in H0, H1. by apply (check_columns q c0 c1 H0 H1).
Qed.

(** C6: [check_optimality] returns [True] exactly when, in the table
    collapsed to a state-by-action matrix, every state values advancing
    strictly above escaping; a state where the two are equal makes it return
    [False]. *)
Theorem check_optimality_iff (q_values : ndarray) :
  (check_optimality q_values = Ok true <->
   exists m, collapse q_values = Some m /\ Forall advance_beats_escape m) /\
  (forall m s row x y,
      collapse q_values = Some m ->
      Forall (fun r => (2 <= length r)%nat) m ->
      m !! s = Some row -> row !! 0%nat = Some x -> row !! 1%nat = Some y -> x == y ->
      check_optimality q_values = Ok false).
Proof.
  assert (Hiff : check_optimality q_values = Ok true <->
                 exists m, collapse q_values = Some m /\
                           Forall advance_beats_escape m).
  { setoid_rewrite Forall_forall. destruct q_values as [a|a|n].
    - rewrite check_matrix. cbn. split; [eauto|]. by intros (m & [= <-] & H).
    - change (check_optimality (Array3 a)) with (check_optimality (Array2 (mean_last3 a))).
      rewrite check_matrix. cbn. split; [eauto|]. by intros (m & [= <-] & H).
    - cbn. split; [discriminate|]. by intros (m & [=] & _). }
  split; [exact Hiff|].
  intros m s row x y Hm Hlen Hrow Hx Hy Hxy. rewrite Forall_forall in Hlen.
  assert (Hret : exists b, check_optimality q_values = Ok b).
  { assert (Hmat : forall a, (forall r, r ∈ a -> (2 <= length r)%nat) ->
                             exists b, check_optimality (Array2 a) = Ok b).
    { intros a Ha. unfold check_optimality.
      destruct (omap_total (fun row : list Q => getitem row 0) a) as [c0 ->].
      { intros r Hr%Ha. destruct r as [|x0 r]; [cbn in Hr; lia|].
        exists x0. by apply (getitem_nonneg _ 0). }
      destruct (omap_total (fun row : list Q => getitem row 1) a) as [c1 ->].
      { intros r Hr%Ha. destruct r as [|x0 [|x1 r]]; [cbn in Hr; lia..|].
        exists x1. by apply (getitem_nonneg _ 1). }
      cbn. eauto. }
    destruct q_values as [a|a|n]; cbn in Hm; [| |discriminate]; injection Hm as <-.
    - by apply Hmat.
    - change (check_optimality (Array3 a)) with (check_optimality (Array2 (mean_last3 a))).
      apply Hmat. exact Hlen. }
  destruct Hret as [[|] Hb]; [|exact Hb].
  apply Hiff in Hb as (m' & Hm' & Hall). rewrite Hm in Hm'. injection Hm' as <-.
  rewrite Forall_forall in Hall.
  destruct (Hall row) as (x' & y' & Hx' & Hy' & Hlt); [by eapply list_elem_of_lookup_2|].
  assert (x' = x) by congruence. assert (y' = y) by congruence. subst. lra.
Qed.

Lemma check_optimality_iff_witness :
  check_optimality (Array3 [[[1; 3]; [0; 1]]; [[2; 2]; [1; 0]]]) = Ok true /\
  check_optimality (Array2 [[1; 0]; [2; 2]]) = Ok false.
Proof.
  split.
  - apply (proj1 (check_optimality_iff _)). eexists. split; [reflexivity|].
    repeat constructor; eexists _, _; (split; [reflexivity|split; [reflexivity|]]);
      reflexivity.
  - apply (proj2 (check_optimality_iff (Array2 [[1; 0]; [2; 2]]))
             [[1; 0]; [2; 2]] 1%nat [2; 2] 2 2); try reflexivity.
    repeat constructor.
Defined.

(** ** Action selection *)

Lemma elem_of_range (n : nat) (a : Z) :
  a ∈ range (Z.of_nat n) <-> exists k, a = Z.of_nat k /\ (k < n)%nat.
Proof.
  unfold range. rewrite Nat2Z.id, list_elem_of_fmap. split.
  - intros (k & -> & Hk). apply elem_of_seq in Hk. exists k. split; [reflexivity|lia].
  - intros (k & -> & Hk). exists k. split; [reflexivity|]. apply elem_of_seq. lia.
Qed.

Lemma candidates_in_spec (q : list Q) (best : Q) (l : list Z) :
  (forall a, a ∈ l -> exists k, a = Z.of_nat k /\ (k < length q)%nat) ->
  exists cands,
    candidates_in q best l = Ok cands /\
    forall a, a ∈ cands <->
              a ∈ l /\ exists k v, a = Z.of_nat k /\ q !! k = Some v /\ v == best.
Proof.
  induction l as [|i l IH]; intros Hl; cbn.
  - exists []. split; [reflexivity|]. intros a. split.
    + intros H. by apply elem_of_nil in H.
    + intros [H _]. by apply elem_of_nil in H.
  - destruct (Hl i) as (k & -> & Hk); [left|].
    destruct (lookup_lt_is_Some_2 q k Hk) as [v Hv].
    rewrite (getitem_nat _ _ _ Hv). cbn.
    destruct IH as (cands & -> & Hc); [intros; apply Hl; by right|]. cbn.
    eexists. split; [reflexivity|]. intros a.
    destruct (Qeq_bool v best) eqn:E.
    + apply Qeq_bool_iff in E. rewrite !elem_of_cons, Hc. split.
      * intros [->|[Ha Hex]]; [|by auto]. split; [by left|]. by exists k, v.
      * intros [[->|Ha] Hex]; [by left|right; by auto].
    + rewrite elem_of_cons, Hc. split.
      * intros [Ha Hex]; by auto.
      * intros [[->|Ha] Hex]; [|by auto].
        destruct Hex as (k' & v' & Hk' & Hv' & Heq).
        apply Nat2Z.inj in Hk' as <-. rewrite Hv in Hv'. injection Hv' as <-.
        apply Qeq_bool_iff in Heq. congruence.
Qed.

Lemma candidates_maximal (q : list Q) (best : Q) :
  np_max q = Ok best ->
  exists cands,
    candidates q best (Z.of_nat (length q)) = Ok cands /\ cands <> [] /\
    forall a, a ∈ cands <-> maximal q a.
Proof.
  intros [Hin Hle]%np_max_is_max. unfold candidates.
  destruct (candidates_in_spec q best (range (Z.of_nat (length q)))) as (cands & Hc & Hiff).
  { intros a. apply elem_of_range. }
  exists cands. split; [exact Hc|].
  assert (Hmax : forall a, a ∈ cands <-> maximal q a).
  { intros a. rewrite Hiff, elem_of_range. unfold maximal. split.
    - intros [_ (k & v & -> & Hv & Heq)]. exists k, v. repeat split; [assumption|].
      intros w Hw. rewrite Heq. by apply Hle.
    - intros (k & v & -> & Hv & Hall). split.
      + exists k. split; [reflexivity|]. by eapply lookup_lt_Some.
      + exists k, v. repeat split; [assumption|].
        apply Qle_antisym; [apply Hle; by eapply list_elem_of_lookup_2|by apply Hall]. }
  split; [|exact Hmax].
  apply list_elem_of_lookup_1 in Hin as [k Hk].
  assert (Hcand : Z.of_nat k ∈ cands).
  { apply Hmax. exists k, best. repeat split; assumption. }
  intros ->. by apply elem_of_nil in Hcand.
Qed.

Lemma choice_Ok {A} (l : list A) (g : RandomState) :
  l <> [] -> exists x, choice l g = Ok (x, advance g) /\ x ∈ l.
Proof.
  intros Hne. unfold choice.
  assert (Hlen : (0 < length l)%nat) by (destruct l; [congruence|cbn; lia]).
  destruct (lookup_lt_is_Some_2 l (N.to_nat (entropy g (position g)) mod length l))
    as [x Hx]; [apply Nat.mod_upper_bound; lia|].
  rewrite Hx. exists x. split; [reflexivity|]. by eapply list_elem_of_lookup_2.
Qed.

Lemma choice_reaches {A} (l : list A) (x : A) :
  x ∈ l ->
  exists n, forall g, entropy g (position g) = n -> choice l g = Ok (x, advance g).
Proof.
  intros [k Hk]%list_elem_of_lookup_1. exists (N.of_nat k). intros g Hg.
  unfold choice. rewrite Hg, Nat2N.id, Nat.mod_small by (by eapply lookup_lt_Some).
  rewrite Hk. reflexivity.
Qed.

Lemma greedy_spec (self : QuantileAgent.t) (q : list Q) :
  q <> [] -> Chain.action_dim (QuantileAgent.env self) = Z.of_nat (length q) ->
  exists cands,
    cands <> [] /\ (forall a, a ∈ cands <-> maximal q a) /\
    forall g, QuantileAgent.greedy self q g = choice cands g.
Proof.
  intros Hne Hdim. destruct (np_max_nonempty q Hne) as [best Hbest].
  destruct (candidates_maximal q best Hbest) as (cands & Hc & Hcne & Hmax).
  exists cands. split; [exact Hcne|]. split; [exact Hmax|]. intros g.
  unfold QuantileAgent.greedy, bind, lift. rewrite Hbest, Hdim, Hc. reflexivity.
Qed.

Lemma randint_Ok (n : Z) (g : RandomState) :
  (0 < n)%Z -> exists a, randint n g = Ok (a, advance g) /\ (0 <= a < n)%Z.
Proof.
  intros Hn. unfold randint. destruct (0 <? n)%Z eqn:E; [|lia].
  eexists. split; [reflexivity|]. by apply Z.mod_pos_bound.
Qed.

Lemma next_uniform_range (g : RandomState) : 0 <= next_uniform g < 1.
Proof.
  unfold next_uniform, Qle, Qlt. cbn [Qnum Qden].
  assert (Hlt : (entropy g (position g) mod N.pos two53 < N.pos two53)%N)
    by (by apply N.mod_lt).
  apply N2Z.inj_lt in Hlt. rewrite N2Z.inj_pos in Hlt.
  pose proof (N2Z.is_nonneg (entropy g (position g) mod N.pos two53)).
  split; lia.
Qed.

Lemma getitem_last {A} (v : list A) :
  getitem v (-1) = match last v with Some x => Ok x | None => Raise IndexError end.
Proof.
  unfold getitem. rewrite last_lookup. destruct v as [|x v]; [reflexivity|].
  unfold np_index.
  replace ((0 <=? -1) && (-1 <? Z.of_nat (length (x :: v))))%Z with false by reflexivity.
  replace ((- Z.of_nat (length (x :: v)) <=? -1) && (-1 <? 0))%Z with true.
  2:{ symmetry. apply andb_true_iff. split; [apply Z.leb_le; cbn [length]; lia|reflexivity]. }
  replace (Z.to_nat (Z.of_nat (length (x :: v)) + -1)) with (pred (length (x :: v)))
    by (cbn [length]; lia).
  reflexivity.
Qed.

(** C7: for a state whose actions all carry at least one quantile, in
    evaluation mode [act] draws, whatever [epsilon] is, from exactly the
    actions of maximal mean over quantiles; in training mode it returns
    [randint(action_dim)] when the uniform draw falls below [epsilon], and
    otherwise draws from exactly the actions maximising the summary: the mean
    when [mean_exploration], else the entry at [active_quantile], where -1 is
    the last quantile. *)
Theorem QuantileAgent_act_selection (self : QuantileAgent.t) (state : Z)
        (rows : list (list Q)) :
  getitem (QuantileAgent.q_values self) state = Ok rows ->
  rows <> [] ->
  Forall (fun v => v <> []) rows ->
  Chain.action_dim (QuantileAgent.env self) = Z.of_nat (length rows) ->
  (exists cands,
      cands <> [] /\
      (forall a, a ∈ cands <-> maximal (map np_mean rows) a) /\
      (forall epsilon g,
          QuantileAgent.act (with_epsilon self epsilon) state true g = choice cands g) /\
      (forall g, exists a,
            a ∈ cands /\ QuantileAgent.act self state true g = Ok (a, advance g)) /\
      (forall a, a ∈ cands ->
                 exists g, QuantileAgent.act self state true g = Ok (a, advance g))) /\
  (forall g,
      next_uniform g < QuantileAgent.epsilon self ->
      QuantileAgent.act self state false g
      = randint (Chain.action_dim (QuantileAgent.env self)) (advance g) /\
      exists a,
        QuantileAgent.act self state false g = Ok (a, advance (advance g)) /\
        (0 <= a < Chain.action_dim (QuantileAgent.env self))%Z) /\
  (forall q,
      summary (QuantileAgent.mean_exploration self) (QuantileAgent.active_quantile self)
              rows q ->
      exists cands,
        cands <> [] /\
        (forall a, a ∈ cands <-> maximal q a) /\
        forall g,
          QuantileAgent.epsilon self <= next_uniform g ->
          QuantileAgent.act self state false g = choice cands (advance g) /\
          exists a,
            a ∈ cands /\
            QuantileAgent.act self state false g = Ok (a, advance (advance g))) /\
  (forall (v : list Q),
      getitem v (-1) = match last v with Some x => Ok x | None => Raise IndexError end) /\
  (forall g, 0 <= next_uniform g < 1).
Proof.
  intros Hrows Hne _ Hdim.
  assert (Hmeans : map np_mean rows <> []) by (destruct rows; [congruence|discriminate]).
  split; [|split; [|split; [|split]]].
  - destruct (greedy_spec self (mean_last2 rows)) as (cands & Hcne & Hmax & Hg).
    { exact Hmeans. }
    { unfold mean_last2. by rewrite length_map. }
    assert (Hact : forall epsilon g,
               QuantileAgent.act (with_epsilon self epsilon) state true g = choice cands g).
    { intros epsilon g. unfold QuantileAgent.act. cbn [negb].
      unfold bind, lift. cbn [QuantileAgent.q_values with_epsilon]. rewrite Hrows.
      exact (Hg g). }
    assert (Hself : forall g, QuantileAgent.act self state true g = choice cands g).
    { intros g. rewrite <- (Hact (QuantileAgent.epsilon self) g).
      by destruct self. }
    exists cands. split; [exact Hcne|]. split; [exact Hmax|]. split; [exact Hact|]. split.
    + intros g. destruct (choice_Ok cands g Hcne) as (a & Ha & Hin).
      exists a. split; [exact Hin|]. by rewrite Hself.
    + intros a Ha. destruct (choice_reaches cands a Ha) as [n Hn].
      exists {| entropy := fun _ => n; gaussian := fun _ => 0; position := 0 |}.
      rewrite Hself. by apply Hn.
  - intros g Hu. apply Qltb_lt in Hu.
    assert (Hact : QuantileAgent.act self state false g
                   = randint (Chain.action_dim (QuantileAgent.env self)) (advance g)).
    { unfold QuantileAgent.act. cbn [negb]. unfold bind, rand.
      fold (next_uniform g). rewrite Hu. reflexivity. }
    split; [exact Hact|]. rewrite Hact.
    apply randint_Ok. rewrite Hdim. destruct rows; [congruence|cbn [length]; lia].
  - intros q Hq.
    assert (Hsum : (if QuantileAgent.mean_exploration self
                    then Ok (mean_last2 rows)
                    else omap (fun row => getitem row (QuantileAgent.active_quantile self))
                              rows) = Ok q /\ length q = length rows).
    { unfold summary in Hq. destruct (QuantileAgent.mean_exploration self).
      - subst q. split; [reflexivity|by rewrite length_map].
      - split; [by apply omap_Ok|]. symmetry. by eapply Forall2_length. }
    destruct Hsum as [Hsum Hlen].
    destruct (greedy_spec self q) as (cands & Hcne & Hmax & Hg).
    { intros ->. destruct rows; [congruence|discriminate]. }
    { by rewrite Hlen. }
    exists cands. split; [exact Hcne|]. split; [exact Hmax|].
    intros g Hu. apply Qltb_ge in Hu.
    assert (Hact : QuantileAgent.act self state false g = choice cands (advance g)).
    { unfold QuantileAgent.act. cbn [negb]. unfold bind at 1. unfold rand.
      fold (next_uniform g). rewrite Hu. unfold bind, lift. rewrite Hrows, Hsum.
      exact (Hg (advance g)). }
    split; [exact Hact|]. rewrite Hact.
    destruct (choice_Ok cands (advance g) Hcne) as (a & Ha & Hin). eauto.
  - intros v. apply getitem_last.
  - apply next_uniform_range.
Qed.

Lemma QuantileAgent_act_selection_witness :
  (exists cands,
      cands <> [] /\
      (forall a, a ∈ cands <-> maximal (map np_mean [[0; 1]; [0; 0]]) a) /\
      forall epsilon g,
        QuantileAgent.act (with_epsilon quantile3 epsilon) 0 true g = choice cands g) /\
  QuantileAgent.act quantile3 0 false g0 = randint 2 (advance g0) /\
  (exists cands,
      (forall a, a ∈ cands <-> maximal [1; 0] a) /\
      QuantileAgent.act quantile3 0 false g_half = choice cands (advance g_half)).
Proof.
  assert (Hvec : Forall (fun v : list Q => v <> []) [[0; 1]; [0; 0]])
    by (repeat (constructor; [discriminate|]); constructor).
  pose proof (QuantileAgent_act_selection quantile3 0 [[0; 1]; [0; 0]]
                eq_refl ltac:(discriminate) Hvec eq_refl) as (He & Hx & Hg & _).
  split; [|split].
  - destruct He as (cands & H1 & H2 & H3 & _). exists cands. auto.
  - apply (Hx g0). reflexivity.
  - destruct (Hg [1; 0]) as (cands & _ & H2 & H3).
    { repeat constructor. }
    exists cands. split; [exact H2|]. apply (H3 g_half). discriminate.
Defined.

(** ** The quantile-regression loss and its gradient *)

Ltac sum_step := unfold Qsum in *; cbn [foldr app map zip_with].

Lemma Qsum_app (l1 l2 : list Q) : Qsum (l1 ++ l2) == Qsum l1 + Qsum l2.
Proof.
  induction l1 as [|x l1 IH]; sum_step; [ring|]. rewrite IH. ring.
Qed.

Lemma Qsum_ext {A} (f g : A -> Q) (l : list A) :
  (forall x, x ∈ l -> f x == g x) -> Qsum (map f l) == Qsum (map g l).
Proof.
  induction l as [|x l IH]; intros H; sum_step; [reflexivity|].
  rewrite (H x) by left. rewrite IH; [reflexivity|].
  intros y Hy. apply H. by right.
Qed.

Lemma Qsum_zip_ext {A B} (f g : A -> B -> Q) (l1 : list A) (l2 : list B) :
  (forall x y, f x y == g x y) ->
  Qsum (zip_with f l1 l2) == Qsum (zip_with g l1 l2).
Proof.
  intros H. revert l2.
  induction l1 as [|x l1 IH]; intros [|y l2]; sum_step; try reflexivity.
  rewrite H, (IH l2). reflexivity.
Qed.

Lemma Qsum_zip_zero {A B} (f : A -> B -> Q) (l1 : list A) (l2 : list B) :
  (forall x y, f x y == 0) -> Qsum (zip_with f l1 l2) == 0.
Proof.
  intros H. revert l2.
  induction l1 as [|x l1 IH]; intros [|y l2]; sum_step; try reflexivity.
  rewrite H, (IH l2). ring.
Qed.

Lemma Qsum_scale (c : Q) (l : list Q) : Qsum (map (Qmult c) l) == c * Qsum l.
Proof.
  induction l as [|x l IH]; sum_step; [ring|]. rewrite IH. ring.
Qed.

Lemma val_sum (l : list dual) : val (foldr dadd (const 0) l) = Qsum (map val l).
Proof. induction l as [|x l IH]; cbn; [reflexivity|]. by rewrite IH. Qed.

Lemma der_sum (l : list dual) : der (foldr dadd (const 0) l) = Qsum (map der l).
Proof. induction l as [|x l IH]; cbn; [reflexivity|]. by rewrite IH. Qed.

Lemma Qsign_abs (x : Q) : Qsign x * x == Qabs x.
Proof.
  unfold Qsign. destruct (Qltb 0 x) eqn:E1.
  - apply Qltb_lt in E1. rewrite Qabs_pos by lra. ring.
  - apply Qltb_ge in E1. destruct (Qltb x 0) eqn:E2.
    + apply Qltb_lt in E2. rewrite Qabs_neg by lra. ring.
    + apply Qltb_ge in E2. assert (Hx : x == 0) by lra. rewrite Hx. reflexivity.
Qed.

Lemma loss_elem_val (tau : Q) (d : dual) :
  val (loss_elem tau d) == pair_loss tau (val d).
Proof.
  unfold loss_elem, pair_loss. cbn [val dmul]. rewrite huber_val.
  unfold spec_huber, indicator_neg, dlt, dfloat, float_of_bool. cbn [val detach dabs dsub const].
  destruct (Qltb (val d) 0); reflexivity.
Qed.

Lemma huber_der (x : dual) :
  der (QuantileAgent.huber x 1) == der x * huber_slope (val x).
Proof.
  unfold QuantileAgent.huber, huber_slope, dlt, dfloat, float_of_bool.
  cbn [val der dabs detach const dadd dmul dsub dpow2].
  destruct (Qltb (Qabs (val x)) 1); cbn [val der]; ring.
Qed.

Lemma loss_elem_der (tau : Q) (d : dual) :
  der (loss_elem tau d) == der d * pair_slope tau (val d).
Proof.
  unfold loss_elem, pair_slope. cbn [der dmul]. rewrite huber_der.
  unfold indicator_neg, dlt, dfloat, float_of_bool. cbn [val der detach dabs dsub const].
  destruct (Qltb (val d) 0); cbn [val der]; ring.
Qed.

Lemma sq_nonneg (x : Q) : 0 <= x * x.
Proof. nra. Qed.

Lemma spec_huber_cases (x : Q) :
  (x <= -(1) /\ spec_huber x == - x - (1 # 2) /\ huber_slope x == -(1)) \/
  (-(1) < x /\ x < 1 /\ spec_huber x == (1 # 2) * (x * x) /\ huber_slope x == x) \/
  (1 <= x /\ spec_huber x == x - (1 # 2) /\ huber_slope x == 1).
Proof.
  unfold spec_huber, huber_slope, Qsign.
  destruct (Qltb (Qabs x) 1) eqn:E.
  - apply Qltb_lt in E. right; left.
    destruct (Qlt_le_dec x 0) as [Hx|Hx].
    + rewrite Qabs_neg in E by lra. repeat split; try lra; reflexivity.
    + rewrite Qabs_pos in E by lra. repeat split; try lra; reflexivity.
  - apply Qltb_ge in E. destruct (Qlt_le_dec x 0) as [Hx|Hx].
    + left. rewrite Qabs_neg in * by lra.
      assert (H0 : Qltb 0 x = false) by (apply Qltb_ge; lra).
      assert (H1 : Qltb x 0 = true) by (apply Qltb_lt; lra).
      rewrite H0, H1. repeat split; try lra; reflexivity.
    + right; right. rewrite Qabs_pos in * by lra.
      assert (H0 : Qltb 0 x = true) by (apply Qltb_lt; lra).
      rewrite H0. repeat split; try lra; reflexivity.
Qed.






Lemma broadcast_same_length {A B C} (f : A -> B -> C) (a : list A) (b : list B) :
  length a = length b -> broadcast f a b = Ok (zip_with f a b).
Proof.
  intros Hlen. unfold broadcast.
  destruct a as [|x [|x' a]], b as [|y [|y' b]]; try discriminate; try reflexivity.
  by rewrite Hlen, Nat.eqb_refl.
Qed.

Lemma omap_map {A B} (f : A -> outcome B) (g : A -> B) (l : list A) :
  (forall x, x ∈ l -> f x = Ok (g x)) -> omap f l = Ok (map g l).
Proof.
  intros H. induction l as [|x l IH]; cbn; [reflexivity|].
  rewrite H by left. cbn. rewrite IH; [reflexivity|]. intros y Hy. apply H. by right.
Qed.

Lemma loss_graph_rows (taus target : list Q) (quantiles : list dual) :
  length taus = length quantiles ->
  QuantileAgent.loss_graph taus target quantiles
  = Ok (dmean (map (loss_row taus quantiles) target)).
Proof.
  intros Hlen. unfold QuantileAgent.loss_graph. cbv zeta.
  rewrite omap_map with (g := fun row => zip_with loss_elem taus row).
  - cbn [obind]. do 2 f_equal. rewrite map_map. apply map_ext. intros t.
    unfold loss_row. by rewrite zip_with_fmap_r.
  - intros row (t & -> & _)%list_elem_of_fmap.
    rewrite broadcast_same_length by (by rewrite !length_map).
    cbn [obind]. rewrite broadcast_same_length.
    2:{ rewrite length_map, length_zip_with, !length_map. lia. }
    f_equal. clear. revert taus.
    induction (map (fun q => dsub (const t) q) quantiles) as [|d row IH];
      intros [|tau taus]; cbn; try reflexivity.
    by rewrite IH.
Qed.

Lemma length_loss_rows (taus target : list Q) (quantiles : list dual) :
  length taus = length quantiles ->
  length (concat (map (loss_row taus quantiles) target))
  = (length target * length quantiles)%nat.
Proof.
  intros Hlen. induction target as [|t target IH]; cbn; [reflexivity|].
  rewrite length_app, IH. unfold loss_row. rewrite length_zip_with. lia.
Qed.

Lemma Qsum_concat_map {A} (f : dual -> Q) (R : A -> list dual) (l : list A) :
  Qsum (map f (concat (map R l))) == Qsum (map (fun t => Qsum (map f (R t))) l).
Proof.
  induction l as [|t l IH]; [reflexivity|].
  cbn [map concat]. rewrite map_app, Qsum_app, IH. reflexivity.
Qed.

Lemma map_zip_with {A B C D} (g : C -> D) (f : A -> B -> C) (l : list A) (k : list B) :
  map g (zip_with f l k) = zip_with (fun x y => g (f x y)) l k.
Proof.
  revert k. induction l as [|x l IH]; intros [|y k]; cbn; try reflexivity.
  by rewrite IH.
Qed.

(** The value of the loss that the graph computes is the total loss of the
    specification. *)
Lemma loss_graph_val (taus target : list Q) (quantiles : list dual) (l : dual) :
  length taus = length quantiles ->
  QuantileAgent.loss_graph taus target quantiles = Ok l ->
  val l == total_loss taus target (map val quantiles).
Proof.
  intros Hlen. rewrite loss_graph_rows by exact Hlen. intros [= <-].
  unfold dmean, total_loss. cbn [val dmul const].
  rewrite val_sum, length_loss_rows, length_map by exact Hlen.
  rewrite Qsum_concat_map.
  rewrite (Qsum_ext _ (fun t => Qsum (zip_with (fun tau q => pair_loss tau (t - q))
                                                 taus (map val quantiles)))).
  - unfold Qdiv. ring.
  - intros t _. unfold loss_row. rewrite map_zip_with, zip_with_fmap_r.
    apply Qsum_zip_ext. intros tau q. rewrite loss_elem_val. reflexivity.
Qed.

(** The derivative that the graph propagates to the loss. *)
Lemma loss_graph_der (taus target : list Q) (quantiles : list dual) (l : dual) :
  length taus = length quantiles ->
  QuantileAgent.loss_graph taus target quantiles = Ok l ->
  der l ==
  Qsum (map (fun t => Qsum (zip_with (fun tau q => (0 - der q) * pair_slope tau (t - val q))
                                     taus quantiles)) target)
  / inject_Z (Z.of_nat (length target * length quantiles)).
Proof.
  intros Hlen. rewrite loss_graph_rows by exact Hlen. intros [= <-].
  unfold dmean. cbn [der val dmul const].
  rewrite der_sum, length_loss_rows by exact Hlen.
  rewrite Qsum_concat_map.
  rewrite (Qsum_ext _ (fun t => Qsum (zip_with (fun tau q => (0 - der q)
                                                             * pair_slope tau (t - val q))
                                                 taus quantiles))).
  - unfold Qdiv. ring.
  - intros t _. unfold loss_row. rewrite map_zip_with.
    apply Qsum_zip_ext. intros tau q. rewrite loss_elem_der. reflexivity.
Qed.

Lemma seed_val (j : nat) (quantiles : list Q) : map val (QuantileAgent.seed j quantiles) = quantiles.
Proof.
  revert j. induction quantiles as [|x l IH]; intros [|j]; cbn; try reflexivity.
  - f_equal. rewrite map_map. cbn. apply map_id.
  - by rewrite IH.
Qed.

Lemma seed_length (j : nat) (quantiles : list Q) :
  length (QuantileAgent.seed j quantiles) = length quantiles.
Proof. by rewrite <- (seed_val j quantiles) at 2; rewrite length_map. Qed.

Lemma Qsum_zip_seed (G : Q -> dual -> Q) (taus quantiles : list Q) (j : nat) (tau q : Q) :
  (forall tau x, G tau (const x) == 0) ->
  taus !! j = Some tau -> quantiles !! j = Some q ->
  Qsum (zip_with G taus (QuantileAgent.seed j quantiles)) == G tau (D q 1).
Proof.
  intros HG. revert taus quantiles.
  induction j as [|j IH]; intros [|tau' taus] [|q' quantiles] Htau Hq;
    try discriminate; cbn in Htau, Hq.
  - injection Htau as ->. injection Hq as ->. cbn [QuantileAgent.seed]. sum_step.
    rewrite zip_with_fmap_r. fold (Qsum (zip_with (fun x y => G x (const y)) taus quantiles)).
    rewrite Qsum_zip_zero by (intros; apply HG). ring.
  - cbn [QuantileAgent.seed]. sum_step. fold (Qsum (zip_with G taus (QuantileAgent.seed j quantiles))).
    rewrite (IH taus quantiles Htau Hq), HG. ring.
Qed.

Lemma backward_gradient (taus target quantiles : list Q) :
  length taus = length quantiles ->
  exists grad,
    QuantileAgent.backward taus target quantiles = Ok grad /\
    length grad = length quantiles /\
    forall j tau q g,
      taus !! j = Some tau -> quantiles !! j = Some q -> grad !! j = Some g ->
      g == loss_gradient target (length target * length quantiles) tau q.
Proof.
  intros Hlen. unfold QuantileAgent.backward.
  set (gj := fun j => der (dmean (map (loss_row taus (QuantileAgent.seed j quantiles)) target))).
  exists (map gj (seq 0 (length quantiles))). split; [|split].
  - apply omap_map. intros j _.
    rewrite loss_graph_rows by (by rewrite seed_length). reflexivity.
  - by rewrite length_map, length_seq.
  - intros j tau q g Htau Hq Hg.
    rewrite list_lookup_fmap in Hg.
    assert (Hj : (j < length quantiles)%nat) by (by eapply lookup_lt_Some).
    rewrite lookup_seq_lt in Hg by exact Hj. cbn in Hg. injection Hg as <-.
    unfold gj.
    assert (Hlen' : length taus = length (QuantileAgent.seed j quantiles))
      by (by rewrite seed_length).
    rewrite (loss_graph_der taus target (QuantileAgent.seed j quantiles) _ Hlen'
                            (loss_graph_rows taus target _ Hlen')).
    rewrite seed_length. unfold loss_gradient.
    rewrite (Qsum_ext _ (fun t => (0 - 1) * pair_slope tau (t - q))).
    + rewrite <- (map_map (fun t => pair_slope tau (t - q)) (Qmult (0 - 1))).
      rewrite Qsum_scale. unfold Qdiv. ring.
    + intros t _.
      apply (Qsum_zip_seed (fun tau q => (0 - der q) * pair_slope tau (t - val q))
                           taus quantiles j tau q); [|assumption..].
      intros tau' x. cbn. ring.
Qed.








(** A function has at most one derivative at a point. *)
Lemma derivative_at_unique (f : Q -> Q) (x d1 d2 : Q) :
  derivative_at f x d1 -> derivative_at f x d2 -> d1 == d2.
Proof.
  intros [C1 H1] [C2 H2].
  assert (Hbound : forall h, Qabs ((d1 - d2) * h) <= (C1 + C2) * (h * h)).
  { intros h. specialize (H1 h). specialize (H2 h).
    assert (E : (d1 - d2) * h
                == (f (x + h) - f x - d2 * h) - (f (x + h) - f x - d1 * h)) by ring.
    rewrite E. unfold Qminus at 1.
    eapply Qle_trans; [apply Qabs_triangle|]. rewrite Qabs_opp. lra. }
  set (C := C1 + C2) in *.
  assert (HC : Qabs (d1 - d2) <= C).
  { specialize (Hbound 1). rewrite Qmult_1_r in Hbound. lra. }
  destruct (Qeq_dec d1 d2) as [|Hne]; [assumption|exfalso].
  assert (Hpos : 0 < Qabs (d1 - d2)).
  { destruct (Qlt_le_dec 0 (Qabs (d1 - d2))) as [|Hle]; [assumption|].
    exfalso. apply Hne. apply Qabs_Qle_condition in Hle. lra. }
  set (delta := Qabs (d1 - d2)) in *.
  assert (HCpos : 0 < C) by lra.
  specialize (Hbound (delta / (2 * C))).
  rewrite Qabs_Qmult in Hbound. fold delta in Hbound.
  assert (Hh : 0 < delta / (2 * C)).
  { apply Qlt_shift_div_l; lra. }
  rewrite (Qabs_pos (delta / (2 * C))) in Hbound by lra.
  assert (E : C * (delta / (2 * C) * (delta / (2 * C)))
              == (1 # 2) * (delta * (delta / (2 * C)))) by (field; lra).
  rewrite E in Hbound.
  assert (Hprod : 0 < delta * (delta / (2 * C))) by (apply Qmult_lt_0_compat; lra).
  lra.
Qed.

Lemma QuantileAgent_learn_step (self : QuantileAgent.t) (state action : Z) (reward : Q)
      (next_state : Z) (done : bool) (target quantiles : list Q) :
  QuantileAgent.bootstrap self reward next_state done = Ok target ->
  getitem2 (QuantileAgent.q_values self) state action = Ok quantiles ->
  length (QuantileAgent.cumulative_density self) = length quantiles ->
  exists grad table,
    QuantileAgent.backward (QuantileAgent.cumulative_density self)
                           (map float32 target) (map float32 quantiles)
    = Ok grad /\
    setitem2 (QuantileAgent.q_values self) state action
             (zip_with (fun q g => q - QuantileAgent.lr self * g) quantiles grad)
    = Ok table /\
    QuantileAgent.learn self state action reward next_state done
    = Ok (QuantileAgent.set_q_values self table) /\
    getitem2 table state action
    = Ok (zip_with (fun q g => q - QuantileAgent.lr self * g) quantiles grad).
Proof.
  intros Htarget Hq Hlen.
  assert (Hlen' : length (QuantileAgent.cumulative_density self)
                  = length (map float32 quantiles)) by (by rewrite length_map).
  destruct (backward_gradient _ (map float32 target) _ Hlen') as (grad & Hgrad & _).
  unfold QuantileAgent.learn. rewrite Htarget. cbn [obind]. rewrite Hq. cbn [obind].
  cbv zeta. rewrite Hgrad. cbn [obind].
  rewrite zip_with_fmap_r.
  destruct (getitem2_setitem2 _ _ _
              (zip_with (fun q g => q - QuantileAgent.lr self * g) quantiles grad)
              _ Hq) as (table & Hset & Hget).
  rewrite Hset. cbn [obind]. exists grad, table. auto.
Qed.








(** ** Zero pairwise differences *)

Lemma pair_zero (tau d : Q) : d == 0 -> pair_loss tau d == 0 /\ pair_slope tau d == 0.
Proof.
  intros Hd. unfold pair_loss, pair_slope.
  destruct (spec_huber_cases d) as [(Hx & _)|[(_ & _ & Hh & Hs)|(Hx & _)]]; try lra.
  assert (Hh0 : spec_huber d == 0) by (rewrite Hh, Hd; reflexivity).
  assert (Hs0 : huber_slope d == 0) by lra.
  rewrite Hh0, Hs0. split; ring.
Qed.

Lemma Qsum_zip_zero_in {A} (f : A -> Q -> Q) (l1 : list A) (l2 : list Q) :
  (forall x y, y ∈ l2 -> f x y == 0) -> Qsum (zip_with f l1 l2) == 0.
Proof.
  revert l2. induction l1 as [|x l1 IH]; intros [|y l2] H; sum_step; try reflexivity.
  rewrite (H x y) by left. rewrite (IH l2); [ring|].
  intros x' y' Hy'. apply H. by right.
Qed.

Lemma Qsum_zero {A} (f : A -> Q) (l : list A) :
  (forall t, t ∈ l -> f t == 0) -> Qsum (map f l) == 0.
Proof.
  induction l as [|t l IH]; intros H; sum_step; [reflexivity|].
  rewrite (H t) by left. rewrite IH; [ring|]. intros t' Ht'. apply H. by right.
Qed.

(** C4, as the code has it: when every pairwise difference
    [target i - current j] is zero, the loss is exactly 0, on the two
    vectors as on their float32 copies, and the update leaves every
    quantile of [Q(state, action)] at its value. *)
Theorem QuantileAgent_learn_zero_diff (self : QuantileAgent.t) (state action : Z)
        (reward : Q) (next_state : Z) (done : bool) (target quantiles : list Q) :
  QuantileAgent.bootstrap self reward next_state done = Ok target ->
  getitem2 (QuantileAgent.q_values self) state action = Ok quantiles ->
  length (QuantileAgent.cumulative_density self) = length quantiles ->
  length target = length quantiles ->
  Forall (fun t => Forall (fun q => t - q == 0) quantiles) target ->
  exists self' updated,
    QuantileAgent.learn self state action reward next_state done = Ok self' /\
    getitem2 (QuantileAgent.q_values self') state action = Ok updated /\
    Forall2 Qeq updated quantiles /\
    (forall j, (j < length quantiles)%nat ->
               exists l,
                 QuantileAgent.loss_graph (QuantileAgent.cumulative_density self) target
                                          (QuantileAgent.seed j quantiles) = Ok l /\
                 val l == 0) /\
    (forall j, (j < length quantiles)%nat ->
               exists l,
                 QuantileAgent.loss_graph
                   (QuantileAgent.cumulative_density self) (map float32 target)
                   (QuantileAgent.seed j (map float32 quantiles)) = Ok l /\
                 val l == 0).
Proof.
  intros Htarget Hq Hlen _ Hzero.
  assert (Hz : forall t q, t ∈ target -> q ∈ quantiles -> t - q == 0).
  { intros t q Ht Hq'. rewrite Forall_forall in Hzero.
    specialize (Hzero t Ht). rewrite Forall_forall in Hzero. by apply Hzero. }
  assert (Hz32 : forall t q, t ∈ map float32 target -> q ∈ map float32 quantiles ->
                             t - q == 0).
  { intros t q (t0 & -> & Ht)%list_elem_of_fmap (q0 & -> & Hq0)%list_elem_of_fmap.
    rewrite (float32_proper t0 q0); [ring|]. specialize (Hz t0 q0 Ht Hq0). lra. }
  assert (Hloss : forall ts qs,
             length (QuantileAgent.cumulative_density self) = length qs ->
             (forall t q, t ∈ ts -> q ∈ qs -> t - q == 0) ->
             forall j, (j < length qs)%nat ->
                       exists l,
                         QuantileAgent.loss_graph (QuantileAgent.cumulative_density self)
                                                  ts (QuantileAgent.seed j qs) = Ok l /\
                         val l == 0).
  { intros ts qs Hl Hzz j Hj.
    assert (Hlen' : length (QuantileAgent.cumulative_density self)
                    = length (QuantileAgent.seed j qs))
      by (by rewrite seed_length).
    eexists. split; [by apply loss_graph_rows|].
    rewrite (loss_graph_val _ ts (QuantileAgent.seed j qs) _ Hlen'
                            (loss_graph_rows _ ts _ Hlen')).
    rewrite seed_val. unfold total_loss. rewrite Qsum_zero.
    + unfold Qdiv. ring.
    + intros t Ht. apply Qsum_zip_zero_in. intros tau q Hq'.
      apply pair_zero. by apply Hzz. }
  assert (Hlen32 : length (QuantileAgent.cumulative_density self)
                   = length (map float32 quantiles)) by (by rewrite length_map).
  destruct (QuantileAgent_learn_step self state action reward next_state done
              target quantiles Htarget Hq Hlen) as (grad & table & Hback & _ & Hlearn & Hnew).
  destruct (backward_gradient _ (map float32 target) _ Hlen32)
    as (grad' & Hgrad & Hglen & Hg).
  rewrite Hback in Hgrad. injection Hgrad as <-. rewrite length_map in Hglen.
  eexists _, _. split; [exact Hlearn|]. split; [exact Hnew|].
  split; [|split].
  - apply Forall2_same_length_lookup. split; [rewrite length_zip_with; lia|].
    intros j u q Hu Hqj.
    apply lookup_zip_with_Some in Hu as (q' & d & -> & Hq' & Hgj).
    rewrite Hqj in Hq'. injection Hq' as <-.
    assert (Hj : (j < length (QuantileAgent.cumulative_density self))%nat)
      by (rewrite Hlen; by eapply lookup_lt_Some).
    destruct (lookup_lt_is_Some_2 _ _ Hj) as [tau Htau].
    assert (Hq32 : map float32 quantiles !! j = Some (float32 q))
      by (by rewrite list_lookup_fmap, Hqj).
    rewrite (Hg j tau (float32 q) d Htau Hq32 Hgj). unfold loss_gradient.
    rewrite Qsum_zero.
    + unfold Qdiv. ring.
    + intros t Ht. apply pair_zero. apply Hz32; [exact Ht|].
      by eapply list_elem_of_lookup_2.
  - by apply Hloss.
  - intros j Hj. apply Hloss; [exact Hlen32|exact Hz32|by rewrite length_map].
Qed.

Lemma QuantileAgent_learn_zero_diff_witness :
  exists self' updated,
    QuantileAgent.learn quantile3 2 0 0 (-1) true = Ok self' /\
    getitem2 (QuantileAgent.q_values self') 2 0 = Ok updated /\
    Forall2 Qeq updated [0; 0].
Proof.
  destruct (QuantileAgent_learn_zero_diff quantile3 2 0 0 (-1) true [0 + 0; 0 + 0] [0; 0]
              eq_refl eq_refl eq_refl eq_refl)
    as (self' & updated & H1 & H2 & H3 & _).
  - repeat constructor.
  - exists self', updated. auto.
Defined.

(** C4 as stated fails: the target vector of this transition equals the
    current vector [0; 1], yet the loss is 1/16 and the update moves both
    quantiles. *)
Lemma QuantileAgent_learn_equal_vectors_move :
  QuantileAgent.bootstrap quantile3 0 1 false = Ok [0; 1] /\
  getitem2 (QuantileAgent.q_values quantile3) 0 0 = Ok [0; 1] /\
  (exists l,
      QuantileAgent.loss_graph (QuantileAgent.cumulative_density quantile3) [0; 1]
                               (QuantileAgent.seed 0 [0; 1]) = Ok l /\
      val l == 1 # 16 /\ ~ val l == 0) /\
  (exists self' updated,
      QuantileAgent.learn quantile3 0 0 0 1 false = Ok self' /\
      getitem2 (QuantileAgent.q_values self') 0 0 = Ok updated /\
      Forall2 Qeq updated [1 # 160; 159 # 160] /\
      ~ Forall2 Qeq updated [0; 1]).
Proof.
  split; [reflexivity|]. split; [reflexivity|]. split.
  - eexists. split; [reflexivity|]. split; [reflexivity|discriminate].
  - eexists _, _. split; [reflexivity|]. split; [reflexivity|]. split.
    + repeat constructor.
    + intros H. inversion H as [|? ? ? ? Hhd _]; subst. discriminate Hhd.
Qed.

(** ** The training loop *)

Section Training.

Context {A : Type} `{Agent A}.

Variable Inv : A -> Prop.

Hypothesis episode_progress :
  forall a g, Inv a ->
              exists a1 r g1,
                agent_episode a g = Ok (a1, r, g1) /\ Inv a1 /\
                (agent_total_steps a + 1 <= agent_total_steps a1)%Z.

Hypothesis check_returns :
  forall a, Inv a -> exists b, check_optimality (agent_q_values a) = Ok b.

Lemma run_episodes_loop_S (fuel : nat) (agent : A) (ep max_steps : Z) :
  run_episodes_loop (S fuel) agent ep max_steps =
  (r <- agent_episode agent ;;
   optimal <- lift (check_optimality (agent_q_values (fst r))) ;;
   if (optimal : bool) then ret (fst r, agent_total_steps (fst r))
   else if (agent_total_steps (fst r) >? max_steps)%Z then
     ret (agent_set_total_steps (fst r) max_steps,
          agent_total_steps (agent_set_total_steps (fst r) max_steps))
   else run_episodes_loop fuel (fst r) (ep + 1) max_steps).
Proof. reflexivity. Qed.

Lemma run_episodes_loop_returns (max_steps : Z) (fuel : nat) :
  forall (a : A) (ep : Z) (g : RandomState),
    Inv a ->
    (Z.to_nat (max_steps - agent_total_steps a) < fuel)%nat ->
    exists a' n g',
      run_episodes_loop fuel a ep max_steps g = Ok (a', n, g') /\
      training max_steps a g a' n /\ n = agent_total_steps a'.
Proof.
  induction fuel as [|fuel IH]; intros a ep g Ha Hfuel; [lia|].
  destruct (episode_progress a g Ha) as (a1 & r & g1 & Hep & Ha1 & Hsteps).
  destruct (check_returns a1 Ha1) as [optimal Hopt].
  rewrite run_episodes_loop_S. unfold bind, lift. rewrite Hep. cbn [fst].
  rewrite Hopt. destruct optimal.
  - exists a1, (agent_total_steps a1), g1. split; [reflexivity|].
    split; [|reflexivity]. by eapply training_converged.
  - destruct (agent_total_steps a1 >? max_steps)%Z eqn:E.
    + apply Z.gtb_lt in E.
      exists (agent_set_total_steps a1 max_steps), max_steps, g1.
      rewrite agent_total_steps_set. split; [reflexivity|].
      split; [|reflexivity]. eapply training_over_budget; [eassumption..|lia].
    + assert (Hle : (agent_total_steps a1 <= max_steps)%Z).
      { destruct (Z.gtb_spec (agent_total_steps a1) max_steps); [discriminate|lia]. }
      destruct (IH a1 (ep + 1)%Z g1 Ha1) as (a' & n & g' & Hrun & Htr & Hn); [lia|].
      exists a', n, g'. split; [exact Hrun|]. split; [|exact Hn].
      by eapply training_continues.
Qed.

End Training.

Lemma run_episodes_loop_sound {A : Type} `{Agent A} (max_steps : Z) (fuel : nat) :
  forall (a a' : A) (ep n : Z) (g g' : RandomState),
    run_episodes_loop fuel a ep max_steps g = Ok (a', n, g') ->
    training max_steps a g a' n /\ n = agent_total_steps a'.
Proof.
  induction fuel as [|fuel IH]; intros a a' ep n g g' Hrun; [discriminate|].
  rewrite run_episodes_loop_S in Hrun. unfold bind, lift in Hrun.
  destruct (agent_episode a g) as [[[a1 r] g1]| |] eqn:Hep; [|discriminate..].
  cbn [fst] in Hrun.
  destruct (check_optimality (agent_q_values a1)) as [optimal| |] eqn:Hopt;
    [|discriminate..].
  destruct optimal.
  - unfold ret in Hrun. injection Hrun as <- <- <-. split; [|reflexivity].
    by eapply training_converged.
  - destruct (agent_total_steps a1 >? max_steps)%Z eqn:E.
    + unfold ret in Hrun. injection Hrun as <- <- <-.
      rewrite agent_total_steps_set. split; [|reflexivity].
      apply Z.gtb_lt in E. eapply training_over_budget; [eassumption..|lia].
    + destruct (IH _ _ _ _ _ _ Hrun) as [Htr Hn]. split; [|exact Hn].
      eapply training_continues; [eassumption..| |exact Htr].
      destruct (Z.gtb_spec (agent_total_steps a1) max_steps); [discriminate|lia].
Qed.

(** C8: whatever [run_episodes] returns comes from running an episode and
    checking convergence until the table is optimal or the step count
    exceeds [max_steps], the count then being set to [max_steps], and is the
    agent's step count on stopping; and it does return, for an agent whose
    episodes end and take at least one step each. *)
Theorem run_episodes_training {A : Type} `{Agent A} (max_steps : Z) :
  (forall (fuel : nat) (a a' : A) (n : Z) (g g' : RandomState),
      run_episodes fuel a max_steps g = Ok (a', n, g') ->
      training max_steps a g a' n /\ n = agent_total_steps a') /\
  (forall (Inv : A -> Prop),
      (forall a g, Inv a ->
                   exists a1 r g1,
                     agent_episode a g = Ok (a1, r, g1) /\ Inv a1 /\
                     (agent_total_steps a + 1 <= agent_total_steps a1)%Z) ->
      (forall a, Inv a -> exists b, check_optimality (agent_q_values a) = Ok b) ->
      forall (fuel : nat) (a : A) (g : RandomState),
        Inv a ->
        (Z.to_nat (max_steps - agent_total_steps a) < fuel)%nat ->
        exists a' n g',
          run_episodes fuel a max_steps g = Ok (a', n, g') /\
          training max_steps a g a' n /\ n = agent_total_steps a').
Proof.
  split.
  - intros fuel a a' n g g'. apply run_episodes_loop_sound.
  - intros Inv Hep Hcheck fuel a g Ha Hfuel.
    by apply (run_episodes_loop_returns Inv Hep Hcheck).
Qed.

(** ** The scalar agent's episodes end *)

Lemma getitem_in_range {A} (l : list A) (i : Z) :
  (0 <= i < Z.of_nat (length l))%Z -> exists x, getitem l i = Ok x /\ l !! Z.to_nat i = Some x.
Proof.
  intros Hi. destruct (lookup_lt_is_Some_2 l (Z.to_nat i)) as [x Hx]; [lia|].
  exists x. split; [|exact Hx]. apply getitem_Ok. exists (Z.to_nat i).
  split; [by apply np_index_nonneg|exact Hx].
Qed.

Lemma QAgent_act_ok (self : QAgent.t) (state : Z) (g : RandomState) :
  QAgent_wf self -> (0 <= state < Chain.num_states (QAgent.env self))%Z ->
  exists a g', QAgent.act self state false g = Ok (a, g') /\ (a = 0 \/ a = 1)%Z.
Proof.
  intros (Hdim & Hn & Hlen & Hrows) Hstate.
  unfold QAgent.act. cbn [negb]. unfold bind at 1. unfold bind at 1. unfold rand, ret.
  destruct (Qltb _ (QAgent.epsilon self)).
  - rewrite Hdim. destruct (randint_Ok 2 (advance g)) as (a & -> & Ha); [lia|].
    exists a, (advance (advance g)). split; [reflexivity|lia].
  - destruct (getitem_in_range (QAgent.q_values self) state) as (row & Hrow & Hrow');
      [lia|].
    assert (Hlen2 : length row = 2%nat).
    { rewrite Forall_forall in Hrows. apply Hrows. by eapply list_elem_of_lookup_2. }
    destruct (np_max_nonempty row) as [best Hbest]; [by destruct row|].
    destruct (candidates_maximal row best Hbest) as (cands & Hc & Hcne & Hmax).
    unfold bind, lift. rewrite Hrow, Hbest, Hdim.
    rewrite Hlen2 in Hc. change (Z.of_nat 2) with 2%Z in Hc. rewrite Hc.
    destruct (choice_Ok cands (advance g) Hcne) as (a & -> & Ha).
    exists a, (advance (advance g)). split; [reflexivity|].
    apply Hmax in Ha as (k & v & -> & Hv & _). apply lookup_lt_Some in Hv. lia.
Qed.

Lemma QAgent_learn_ok (self : QAgent.t) (state action : Z) (reward : Q)
      (next_state : Z) (done : bool) :
  QAgent_wf self -> (0 <= state < Chain.num_states (QAgent.env self))%Z ->
  (action = 0 \/ action = 1)%Z ->
  (done = false -> (0 <= next_state < Chain.num_states (QAgent.env self))%Z) ->
  exists self',
    QAgent.learn self state action reward next_state done = Ok self' /\
    QAgent_wf self' /\ QAgent.env self' = QAgent.env self /\
    QAgent.total_steps self' = QAgent.total_steps self.
Proof.
  intros (Hdim & Hn & Hlen & Hrows) Hstate Haction Hnext.
  assert (Hrow2 : forall row, row ∈ QAgent.q_values self -> length row = 2%nat)
    by (by apply Forall_forall).
  destruct (getitem_in_range (QAgent.q_values self) state) as (row & Hrow & Hrow');
    [lia|].
  assert (Hq : exists q, getitem2 (QAgent.q_values self) state action = Ok q).
  { destruct (getitem_in_range row action) as (q & Hq & _).
    - rewrite (Hrow2 row) by (by eapply list_elem_of_lookup_2). lia.
    - exists q. apply getitem2_Ok. eauto. }
  destruct Hq as [q Hq].
  assert (Hnrow : done = false ->
                  exists next_row, getitem (QAgent.q_values self) next_state = Ok next_row
                                   /\ next_row <> []).
  { intros Hd. destruct (getitem_in_range (QAgent.q_values self) next_state)
      as (next_row & Hnr & Hnr'); [specialize (Hnext Hd); lia|].
    exists next_row. split; [exact Hnr|].
    assert (length next_row = 2%nat) by (apply Hrow2; by eapply list_elem_of_lookup_2).
    by destruct next_row. }
  assert (Hlearn : exists self', QAgent.learn self state action reward next_state done
                                 = Ok self').
  { destruct done.
    - destruct (QAgent_learn_result self state action reward next_state true q [] Hq)
        as (self' & _ & Hl & _); [discriminate|]. eauto.
    - destruct (Hnrow eq_refl) as (next_row & Hnr & Hne).
      destruct (QAgent_learn_result self state action reward next_state false q
                                       next_row Hq) as (self' & _ & Hl & _); [by auto|].
      eauto. }
  destruct Hlearn as [self' Hlearn]. exists self'. split; [exact Hlearn|].
  unfold QAgent.learn in Hlearn.
  destruct (if done then _ else _) as [target| |]; cbn in Hlearn; [|discriminate..].
  rewrite Hq in Hlearn. cbn in Hlearn.
  destruct (setitem2 _ _ _ _) as [q'| |] eqn:Hset; cbn in Hlearn; [|discriminate..].
  injection Hlearn as <-.
  apply setitem2_Ok in Hset as (ki & kj & row' & _ & Hki & ->).
  split; [|split; reflexivity].
  unfold QAgent_wf. cbn [QAgent.env QAgent.q_values QAgent.set_q_values].
  split; [exact Hdim|]. split; [exact Hn|]. split; [by rewrite length_insert|].
  apply Forall_insert; [exact Hrows|]. rewrite length_insert.
  apply Hrow2. by eapply list_elem_of_lookup_2.
Qed.

Lemma QAgent_wf_env (self : QAgent.t) (e : Chain.t) (n : Z) :
  QAgent_wf self ->
  Chain.action_dim e = Chain.action_dim (QAgent.env self) ->
  Chain.num_states e = Chain.num_states (QAgent.env self) ->
  QAgent_wf (QAgent.set_total_steps (QAgent.set_env self e) n).
Proof.
  intros (Hdim & Hn & Hlen & Hrows) Hd Hs. unfold QAgent_wf. cbn.
  rewrite Hd, Hs. auto.
Qed.

Lemma QAgent_episode_loop_ok (fuel : nat) :
  forall (self : QAgent.t) (state : Z) (total : Q) (g : RandomState),
    QAgent_wf self ->
    (0 <= state < Chain.num_states (QAgent.env self))%Z ->
    Chain.state (QAgent.env self) = state ->
    (Z.to_nat (Chain.num_states (QAgent.env self) - state) <= fuel)%nat ->
    exists self' r g',
      QAgent.episode_loop fuel self state total g = Ok (self', r, g') /\
      QAgent_wf self' /\
      (QAgent.total_steps self + 1 <= QAgent.total_steps self')%Z.
Proof.
  induction fuel as [|fuel IH]; intros self state total g Hwf Hstate Henv Hfuel; [lia|].
  rewrite QAgent_episode_loop_S.
  destruct (QAgent_act_ok self state g Hwf Hstate) as (action & g1 & Hact & Haction).
  unfold bind at 1. rewrite Hact.
  unfold Chain.step. destruct Haction as [-> | ->]; cbn [Z.eqb Pos.eqb].
  - unfold bind, randn, ret, lift. cbn [fst snd Chain.state Chain.set_state
                                          Chain.num_states Chain.left_std].
    rewrite Henv.
    set (e := Chain.set_state (QAgent.env self) (state + 1)).
    set (self1 := QAgent.set_total_steps (QAgent.set_env self e)
                                         (QAgent.total_steps self + 1)).
    assert (Hwf1 : QAgent_wf self1) by (by apply QAgent_wf_env).
    destruct (state + 1 =? Chain.num_states (QAgent.env self))%Z eqn:Hdone.
    + destruct (QAgent_learn_ok self1 state 0 (gaussian g1 (position g1)
                                               * Chain.left_std (QAgent.env self) + 10)
                                (state + 1) true Hwf1)
        as (self' & -> & Hwf' & _ & Hsteps); [exact Hstate|by left|discriminate|].
      eexists _, _, _. split; [reflexivity|]. split; [exact Hwf'|].
      rewrite Hsteps. cbn. lia.
    + apply Z.eqb_neq in Hdone.
      destruct (QAgent_learn_ok self1 state 0 (gaussian g1 (position g1)
                                               * Chain.left_std (QAgent.env self))
                                (state + 1) false Hwf1)
        as (self' & -> & Hwf' & Henv' & Hsteps);
        [exact Hstate|by left|intros _; cbn; lia|].
      destruct (IH self' (state + 1)%Z
                   (total + gaussian g1 (position g1) * Chain.left_std (QAgent.env self))
                   (advance g1) Hwf')
        as (self'' & r & g' & Hloop & Hwf'' & Hsteps'').
      * rewrite Henv'. cbn. lia.
      * rewrite Henv'. reflexivity.
      * rewrite Henv'. cbn. lia.
      * exists self'', r, g'. split; [exact Hloop|]. split; [exact Hwf''|].
        rewrite Hsteps in Hsteps''. cbn in Hsteps''. lia.
  - unfold bind, randn, ret, lift. cbn [fst snd].
    set (self1 := QAgent.set_total_steps (QAgent.set_env self (QAgent.env self))
                                         (QAgent.total_steps self + 1)).
    assert (Hwf1 : QAgent_wf self1) by (by apply QAgent_wf_env).
    destruct (QAgent_learn_ok self1 state 1 (gaussian g1 (position g1)
                                             * Chain.up_std (QAgent.env self))
                              (-1) true Hwf1)
      as (self' & -> & Hwf' & _ & Hsteps); [exact Hstate|by right|discriminate|].
    eexists _, _, _. split; [reflexivity|]. split; [exact Hwf'|].
    rewrite Hsteps. cbn. lia.
Qed.

Lemma QAgent_episode_progress (self : QAgent.t) (g : RandomState) :
  QAgent_wf self ->
  exists self' r g',
    agent_episode self g = Ok (self', r, g') /\ QAgent_wf self' /\
    (agent_total_steps self + 1 <= agent_total_steps self')%Z.
Proof.
  intros Hwf. cbn [agent_episode agent_total_steps QAgent_Agent].
  unfold QAgent.episode, Chain.reset.
  set (self0 := QAgent.set_env self (Chain.set_state (QAgent.env self) 0)).
  assert (Hwf0 : QAgent_wf self0).
  { destruct Hwf as (Hdim & Hn & Hlen & Hrows). unfold QAgent_wf. cbn. auto. }
  destruct (QAgent_episode_loop_ok (S (length (QAgent.q_values self0))) self0 0 0 g Hwf0)
    as (self' & r & g' & Hloop & Hwf' & Hsteps).
  - destruct Hwf0 as (_ & Hn & _). lia.
  - reflexivity.
  - destruct Hwf0 as (_ & _ & Hlen & _). rewrite Hlen. lia.
  - exists self', r, g'. auto.
Qed.

Lemma QAgent_check_returns (self : QAgent.t) :
  QAgent_wf self -> exists b, check_optimality (agent_q_values self) = Ok b.
Proof.
  intros (_ & _ & _ & Hrows). rewrite Forall_forall in Hrows.
  cbn [agent_q_values QAgent_Agent]. unfold check_optimality.
  destruct (omap_total (fun row : list Q => getitem row 0) (QAgent.q_values self))
    as [c0 ->].
  { intros r Hr%Hrows. destruct r as [|x0 r]; [discriminate|].
    exists x0. by apply (getitem_nonneg _ 0). }
  destruct (omap_total (fun row : list Q => getitem row 1) (QAgent.q_values self))
    as [c1 ->].
  { intros r Hr%Hrows. destruct r as [|x0 [|x1 r]]; [discriminate..|].
    exists x1. by apply (getitem_nonneg _ 1). }
  cbn. eauto.
Qed.


(** ** Episodes never run out of fuel

    [Exhausted] appears only where a loop's fuel ends; the fuel that
    [episode] passes is enough whatever the agent holds. *)

Lemma obind_returns {A B} (c : outcome A) (k : A -> outcome B) :
  c <> Exhausted -> (forall a, k a <> Exhausted) -> obind c k <> Exhausted.
Proof. intros Hc Hk. destruct c; cbn; [apply Hk|discriminate|congruence]. Qed.

Lemma bind_returns {A B} (c : Py A) (k : A -> Py B) (g : RandomState) :
  c g <> Exhausted -> (forall a g', k a g' <> Exhausted) -> bind c k g <> Exhausted.
Proof.
  intros Hc Hk. unfold bind. destruct (c g) as [[a g']| |];
    [apply Hk|discriminate|congruence].
Qed.

Lemma lift_returns {A} (c : outcome A) (g : RandomState) :
  c <> Exhausted -> lift c g <> Exhausted.
Proof. intros Hc. unfold lift. destruct c; [discriminate..|congruence]. Qed.

Lemma getitem_returns {A} (l : list A) (i : Z) : getitem l i <> Exhausted.
Proof.
  unfold getitem. destruct (np_index (length l) i) as [k|]; [|discriminate].
  destruct (l !! k); discriminate.
Qed.

Lemma setitem_returns {A} (l : list A) (i : Z) (x : A) : setitem l i x <> Exhausted.
Proof. unfold setitem. destruct (np_index (length l) i); discriminate. Qed.

Lemma getitem2_returns {A} (a : list (list A)) (i j : Z) : getitem2 a i j <> Exhausted.
Proof.
  unfold getitem2. apply obind_returns; [apply getitem_returns|].
  intros row. apply getitem_returns.
Qed.

Lemma setitem2_returns {A} (a : list (list A)) (i j : Z) (x : A) :
  setitem2 a i j x <> Exhausted.
Proof.
  unfold setitem2. apply obind_returns; [apply getitem_returns|]. intros row.
  apply obind_returns; [apply setitem_returns|]. intros row'. apply setitem_returns.
Qed.

Lemma np_max_returns (l : list Q) : np_max l <> Exhausted.
Proof. destruct l; discriminate. Qed.

Lemma omap_returns {A B} (f : A -> outcome B) (l : list A) :
  (forall x, f x <> Exhausted) -> omap f l <> Exhausted.
Proof.
  intros Hf. induction l as [|x l IH]; cbn; [discriminate|].
  apply obind_returns; [apply Hf|]. intros y.
  apply obind_returns; [exact IH|]. discriminate.
Qed.

Lemma candidates_returns (q : list Q) (best_q : Q) (action_dim : Z) :
  candidates q best_q action_dim <> Exhausted.
Proof.
  unfold candidates. induction (range action_dim) as [|i l IH]; cbn; [discriminate|].
  apply obind_returns; [apply getitem_returns|]. intros x.
  apply obind_returns; [exact IH|]. discriminate.
Qed.

Lemma randint_returns (n : Z) (g : RandomState) : randint n g <> Exhausted.
Proof. unfold randint. destruct (0 <? n)%Z; discriminate. Qed.

Lemma choice_returns {A} (l : list A) (g : RandomState) : choice l g <> Exhausted.
Proof. unfold choice. destruct (l !! _); discriminate. Qed.

Lemma QAgent_act_returns (self : QAgent.t) (state : Z) (eval : bool) (g : RandomState) :
  QAgent.act self state eval g <> Exhausted.
Proof.
  unfold QAgent.act. apply bind_returns.
  - destruct (negb eval); [|discriminate]. apply bind_returns; discriminate.
  - intros explore g1. destruct explore; [apply randint_returns|].
    apply bind_returns; [apply lift_returns, getitem_returns|]. intros q g2.
    apply bind_returns; [apply lift_returns, np_max_returns|]. intros best g3.
    apply bind_returns; [apply lift_returns, candidates_returns|]. intros cands g4.
    apply choice_returns.
Qed.

Lemma QAgent_learn_returns (self : QAgent.t) (state action : Z) (reward : Q)
      (next_state : Z) (done : bool) :
  QAgent.learn self state action reward next_state done <> Exhausted.
Proof.
  unfold QAgent.learn. apply obind_returns.
  - destruct done; [discriminate|].
    apply obind_returns; [apply getitem_returns|]. intros row.
    apply obind_returns; [apply np_max_returns|]. discriminate.
  - intros target. apply obind_returns; [apply getitem2_returns|]. intros q.
    apply obind_returns; [apply setitem2_returns|]. discriminate.
Qed.

Lemma setitem2_length {A} (a a' : list (list A)) (i j : Z) (x : A) :
  setitem2 a i j x = Ok a' -> length a' = length a.
Proof.
  intros (ki & kj & row & _ & _ & ->)%setitem2_Ok. apply length_insert.
Qed.

Lemma QAgent_learn_continue (self self' : QAgent.t) (state action : Z) (reward : Q)
      (next_state : Z) :
  QAgent.learn self state action reward next_state false = Ok self' ->
  (exists row, getitem (QAgent.q_values self) next_state = Ok row) /\
  length (QAgent.q_values self') = length (QAgent.q_values self) /\
  QAgent.env self' = QAgent.env self.
Proof.
  unfold QAgent.learn. intros H.
  destruct (getitem (QAgent.q_values self) next_state) as [row| |] eqn:Hrow;
    cbn in H; [|discriminate..].
  destruct (np_max row) as [m| |]; cbn in H; [|discriminate..].
  destruct (getitem2 _ state action) as [q| |]; cbn in H; [|discriminate..].
  destruct (setitem2 _ _ _ _) as [q'| |] eqn:Hset; cbn in H; [|discriminate..].
  injection H as <-. cbn. split; [eauto|]. split; [|reflexivity].
  by eapply setitem2_length.
Qed.

Lemma getitem_Ok_lt {A} (l : list A) (i : Z) (x : A) :
  getitem l i = Ok x -> (i < Z.of_nat (length l))%Z.
Proof.
  intros (k & Hk & _)%getitem_Ok. unfold np_index in Hk.
  destruct ((0 <=? i) && (i <? Z.of_nat (length l)))%Z eqn:E1.
  - apply andb_true_iff in E1 as [_ E1]. by apply Z.ltb_lt in E1.
  - destruct ((- Z.of_nat (length l) <=? i) && (i <? 0))%Z eqn:E2; [|discriminate].
    apply andb_true_iff in E2 as [_ E2]. apply Z.ltb_lt in E2. lia.
Qed.

Lemma QAgent_episode_loop_returns (fuel : nat) :
  forall (self : QAgent.t) (state : Z) (total : Q) (g : RandomState),
    Chain.state (QAgent.env self) = state ->
    (0 <= state <= Z.of_nat (length (QAgent.q_values self)))%Z ->
    (Z.of_nat (length (QAgent.q_values self)) - state < Z.of_nat fuel)%Z ->
    QAgent.episode_loop fuel self state total g <> Exhausted.
Proof.
  induction fuel as [|fuel IH]; intros self state total g Henv Hstate Hfuel; [lia|].
  rewrite QAgent_episode_loop_S. unfold bind at 1.
  destruct (QAgent.act self state false g) as [[action g1]| |] eqn:Hact;
    [|discriminate|by apply QAgent_act_returns in Hact].
  unfold Chain.step. destruct (action =? 0)%Z; [|destruct (action =? 1)%Z].
  - unfold bind, randn, ret, lift.
    cbn [fst snd Chain.state Chain.set_state Chain.num_states Chain.left_std].
    destruct (Chain.state (QAgent.env self) + 1 =? Chain.num_states (QAgent.env self))%Z.
    + destruct (QAgent.learn _ _ _ _ _ _) as [self'| |] eqn:Hlearn;
        [discriminate|discriminate|by apply QAgent_learn_returns in Hlearn].
    + destruct (QAgent.learn _ _ _ _ _ _) as [self'| |] eqn:Hlearn;
        [|discriminate|by apply QAgent_learn_returns in Hlearn].
      apply QAgent_learn_continue in Hlearn as ([row Hrow] & Hlen & Henv').
      cbn in Hrow, Hlen, Henv'. apply getitem_Ok_lt in Hrow.
      apply IH.
      * rewrite Henv'. reflexivity.
      * rewrite Hlen. lia.
      * rewrite Hlen. lia.
  - unfold bind, randn, ret, lift. cbn [fst snd].
    destruct (QAgent.learn _ _ _ _ _ _) as [self'| |] eqn:Hlearn;
      [discriminate|discriminate|by apply QAgent_learn_returns in Hlearn].
  - unfold bind, ret, lift. cbn [fst snd]. discriminate.
Qed.

(** An episode of the scalar agent ends, with a result or an exception,
    whatever the agent holds. *)
Lemma QAgent_episode_returns (self : QAgent.t) (g : RandomState) :
  QAgent.episode self g <> Exhausted.
Proof.
  unfold QAgent.episode, Chain.reset. apply QAgent_episode_loop_returns.
  - reflexivity.
  - cbn. lia.
  - cbn [QAgent.q_values QAgent.set_env]. lia.
Qed.

Lemma np_zeros_returns {A} (zero : A) (n : Z) : np_zeros zero n <> Exhausted.
Proof. unfold np_zeros. destruct (n <? 0)%Z; discriminate. Qed.

Lemma np_argmax_returns (l : list Q) : np_argmax l <> Exhausted.
Proof. destruct l; discriminate. Qed.

Lemma broadcast_returns {A B C} (f : A -> B -> C) (a : list A) (b : list B) :
  broadcast f a b <> Exhausted.
Proof.
  unfold broadcast. destruct a as [|x [|x' a]], b as [|y [|y' b]]; try discriminate.
  destruct (Nat.eqb _ _); discriminate.
Qed.

Lemma greedy_returns (self : QuantileAgent.t) (q : list Q) (g : RandomState) :
  QuantileAgent.greedy self q g <> Exhausted.
Proof.
  unfold QuantileAgent.greedy.
  apply bind_returns; [apply lift_returns, np_max_returns|]. intros best g1.
  apply bind_returns; [apply lift_returns, candidates_returns|]. intros cands g2.
  apply choice_returns.
Qed.

Lemma QuantileAgent_act_returns (self : QuantileAgent.t) (state : Z) (eval : bool)
      (g : RandomState) :
  QuantileAgent.act self state eval g <> Exhausted.
Proof.
  unfold QuantileAgent.act. destruct (negb eval).
  - apply bind_returns; [discriminate|]. intros u g1.
    destruct (Qltb u _); [apply randint_returns|].
    apply bind_returns; [apply lift_returns, getitem_returns|]. intros rows g2.
    apply bind_returns; [|intros; apply greedy_returns].
    apply lift_returns. destruct (QuantileAgent.mean_exploration self); [discriminate|].
    apply omap_returns. intros row. apply getitem_returns.
  - apply bind_returns; [apply lift_returns, getitem_returns|]. intros rows g1.
    apply greedy_returns.
Qed.

Lemma loss_graph_returns (taus target : list Q) (quantiles : list dual) :
  QuantileAgent.loss_graph taus target quantiles <> Exhausted.
Proof.
  unfold QuantileAgent.loss_graph. cbv zeta. apply obind_returns; [|discriminate].
  apply omap_returns. intros row.
  apply obind_returns; [apply broadcast_returns|]. intros w. apply broadcast_returns.
Qed.

Lemma backward_returns (taus target quantiles : list Q) :
  QuantileAgent.backward taus target quantiles <> Exhausted.
Proof.
  unfold QuantileAgent.backward. apply omap_returns. intros j.
  apply obind_returns; [apply loss_graph_returns|]. discriminate.
Qed.

Lemma bootstrap_returns (self : QuantileAgent.t) (reward : Q) (next_state : Z)
      (done : bool) :
  QuantileAgent.bootstrap self reward next_state done <> Exhausted.
Proof.
  unfold QuantileAgent.bootstrap. apply obind_returns; [|discriminate].
  destruct done; [apply np_zeros_returns|].
  apply obind_returns; [apply getitem_returns|]. intros rows. cbv zeta.
  apply obind_returns; [apply np_argmax_returns|]. intros a.
  apply obind_returns; [apply getitem_returns|]. discriminate.
Qed.

Lemma QuantileAgent_learn_returns (self : QuantileAgent.t) (state action : Z)
      (reward : Q) (next_state : Z) (done : bool) :
  QuantileAgent.learn self state action reward next_state done <> Exhausted.
Proof.
  unfold QuantileAgent.learn. apply obind_returns; [apply bootstrap_returns|].
  intros target. apply obind_returns; [apply getitem2_returns|]. intros quantiles.
  apply obind_returns; [apply backward_returns|]. intros grad. cbv zeta.
  apply obind_returns; [apply setitem2_returns|]. discriminate.
Qed.

Lemma QuantileAgent_learn_continue (self self' : QuantileAgent.t) (state action : Z)
      (reward : Q) (next_state : Z) :
  QuantileAgent.learn self state action reward next_state false = Ok self' ->
  (exists rows, getitem (QuantileAgent.q_values self) next_state = Ok rows) /\
  length (QuantileAgent.q_values self') = length (QuantileAgent.q_values self) /\
  QuantileAgent.env self' = QuantileAgent.env self.
Proof.
  unfold QuantileAgent.learn, QuantileAgent.bootstrap. intros H.
  destruct (getitem (QuantileAgent.q_values self) next_state) as [rows| |] eqn:Hrows;
    cbn in H; [|discriminate..].
  destruct (np_argmax _) as [a| |]; cbn in H; [|discriminate..].
  destruct (getitem rows a) as [v| |]; cbn in H; [|discriminate..].
  destruct (getitem2 _ state action) as [q| |]; cbn in H; [|discriminate..].
  destruct (QuantileAgent.backward _ _ _) as [grad| |]; cbn in H; [|discriminate..].
  destruct (setitem2 _ _ _ _) as [q'| |] eqn:Hset; cbn in H; [|discriminate..].
  injection H as <-. cbn. split; [eauto|]. split; [|reflexivity].
  by eapply setitem2_length.
Qed.

Lemma QuantileAgent_episode_loop_returns (fuel : nat) :
  forall (self : QuantileAgent.t) (state : Z) (total : Q) (g : RandomState),
    Chain.state (QuantileAgent.env self) = state ->
    (0 <= state <= Z.of_nat (length (QuantileAgent.q_values self)))%Z ->
    (Z.of_nat (length (QuantileAgent.q_values self)) - state < Z.of_nat fuel)%Z ->
    QuantileAgent.episode_loop fuel self state total g <> Exhausted.
Proof.
  induction fuel as [|fuel IH]; intros self state total g Henv Hstate Hfuel; [lia|].
  rewrite QuantileAgent_episode_loop_S. unfold bind at 1.
  destruct (QuantileAgent.act self state false g) as [[action g1]| |] eqn:Hact;
    [|discriminate|by apply QuantileAgent_act_returns in Hact].
  unfold Chain.step. destruct (action =? 0)%Z; [|destruct (action =? 1)%Z].
  - unfold bind, randn, ret, lift.
    cbn [fst snd Chain.state Chain.set_state Chain.num_states Chain.left_std].
    destruct (Chain.state (QuantileAgent.env self) + 1
              =? Chain.num_states (QuantileAgent.env self))%Z.
    + destruct (QuantileAgent.learn _ _ _ _ _ _) as [self'| |] eqn:Hlearn;
        [discriminate|discriminate|by apply QuantileAgent_learn_returns in Hlearn].
    + destruct (QuantileAgent.learn _ _ _ _ _ _) as [self'| |] eqn:Hlearn;
        [|discriminate|by apply QuantileAgent_learn_returns in Hlearn].
      apply QuantileAgent_learn_continue in Hlearn as ([rows Hrows] & Hlen & Henv').
      cbn in Hrows, Hlen, Henv'. apply getitem_Ok_lt in Hrows.
      apply IH.
      * rewrite Henv'. reflexivity.
      * rewrite Hlen. lia.
      * rewrite Hlen. lia.
  - unfold bind, randn, ret, lift. cbn [fst snd].
    destruct (QuantileAgent.learn _ _ _ _ _ _) as [self'| |] eqn:Hlearn;
      [discriminate|discriminate|by apply QuantileAgent_learn_returns in Hlearn].
  - unfold bind, ret, lift. cbn [fst snd]. discriminate.
Qed.

(** An episode of the quantile agent ends, with a result or an exception,
    whatever the agent holds. *)
Lemma QuantileAgent_episode_returns (self : QuantileAgent.t) (g : RandomState) :
  QuantileAgent.episode self g <> Exhausted.
Proof.
  unfold QuantileAgent.episode, Chain.reset. apply QuantileAgent_episode_loop_returns.
  - reflexivity.
  - cbn. lia.
  - cbn [QuantileAgent.q_values QuantileAgent.set_env]. lia.
Qed.

(** ** The quantile agent's episodes end with a result *)

Lemma getitem_valid {A} (l : list A) (i : Z) :
  (- Z.of_nat (length l) <= i < Z.of_nat (length l))%Z ->
  exists x, getitem l i = Ok x /\ x ∈ l.
Proof.
  intros Hi. unfold getitem, np_index.
  destruct ((0 <=? i) && (i <? Z.of_nat (length l)))%Z eqn:E1.
  - apply andb_true_iff in E1 as [E0 E1]. apply Z.leb_le in E0. apply Z.ltb_lt in E1.
    destruct (lookup_lt_is_Some_2 l (Z.to_nat i)) as [x Hx]; [lia|].
    rewrite Hx. exists x. split; [reflexivity|by eapply list_elem_of_lookup_2].
  - assert (Hneg : (i < 0)%Z).
    { apply andb_false_iff in E1 as [E|E]; [apply Z.leb_gt in E|apply Z.ltb_ge in E]; lia. }
    assert (E2 : ((- Z.of_nat (length l) <=? i) && (i <? 0))%Z = true).
    { apply andb_true_iff. split; [apply Z.leb_le|apply Z.ltb_lt]; lia. }
    rewrite E2.
    destruct (lookup_lt_is_Some_2 l (Z.to_nat (Z.of_nat (length l) + i))) as [x Hx];
      [lia|].
    rewrite Hx. exists x. split; [reflexivity|by eapply list_elem_of_lookup_2].
Qed.

Lemma QuantileAgent_wf_rows (self : QuantileAgent.t) (state : Z) :
  QuantileAgent_wf self ->
  (0 <= state < Chain.num_states (QuantileAgent.env self))%Z ->
  exists rows,
    getitem (QuantileAgent.q_values self) state = Ok rows /\
    length rows = 2%nat /\
    Forall (fun v => length v = Z.to_nat (QuantileAgent.num_quantiles self)) rows.
Proof.
  intros (_ & _ & _ & Hlen & Hrows & _) Hstate.
  destruct (getitem_in_range (QuantileAgent.q_values self) state) as (rows & Hr & Hr');
    [lia|].
  exists rows. split; [exact Hr|].
  rewrite Forall_forall in Hrows. apply Hrows. by eapply list_elem_of_lookup_2.
Qed.

Lemma QuantileAgent_act_ok (self : QuantileAgent.t) (state : Z) (g : RandomState) :
  QuantileAgent_wf self ->
  (0 <= state < Chain.num_states (QuantileAgent.env self))%Z ->
  exists a g', QuantileAgent.act self state false g = Ok (a, g') /\ (a = 0 \/ a = 1)%Z.
Proof.
  intros Hwf Hstate.
  destruct (QuantileAgent_wf_rows self state Hwf Hstate) as (rows & Hrows & Hlen2 & Hvec).
  destruct Hwf as (Hdim & Hn & HN & _ & _ & _ & Haq).
  unfold QuantileAgent.act. cbn [negb]. unfold bind at 1. unfold rand.
  destruct (Qltb _ (QuantileAgent.epsilon self)).
  - rewrite Hdim. destruct (randint_Ok 2 (advance g)) as (a & -> & Ha); [lia|].
    exists a, (advance (advance g)). split; [reflexivity|lia].
  - assert (Hq : exists q,
               (if QuantileAgent.mean_exploration self
                then Ok (mean_last2 rows)
                else omap (fun row => getitem row (QuantileAgent.active_quantile self))
                          rows) = Ok q /\ length q = 2%nat).
    { destruct (QuantileAgent.mean_exploration self) eqn:Hme.
      - eexists. split; [reflexivity|]. unfold mean_last2. by rewrite length_map.
      - destruct Haq as [Haq|Haq]; [discriminate|].
        destruct (omap_total (fun row : list Q =>
                                getitem row (QuantileAgent.active_quantile self)) rows)
          as [q Hq].
        + intros v Hv. rewrite Forall_forall in Hvec.
          destruct (getitem_valid v (QuantileAgent.active_quantile self)) as (x & Hx & _);
            [rewrite (Hvec v Hv); lia|eauto].
        + exists q. split; [exact Hq|]. apply omap_Ok in Hq.
          apply Forall2_length in Hq. lia. }
    destruct Hq as (q & Hq & Hqlen).
    destruct (greedy_spec self q) as (cands & Hcne & Hmax & Hgreedy).
    { by destruct q. }
    { rewrite Hdim, Hqlen. reflexivity. }
    unfold bind, lift. rewrite Hrows, Hq, Hgreedy.
    destruct (choice_Ok cands (advance g) Hcne) as (a & -> & Ha).
    exists a, (advance (advance g)). split; [reflexivity|].
    apply Hmax in Ha as (k & v & -> & Hv & _). apply lookup_lt_Some in Hv. lia.
Qed.

Lemma QuantileAgent_bootstrap_ok (self : QuantileAgent.t) (reward : Q) (next_state : Z)
      (done : bool) :
  QuantileAgent_wf self ->
  (done = false -> (0 <= next_state < Chain.num_states (QuantileAgent.env self))%Z) ->
  exists target,
    QuantileAgent.bootstrap self reward next_state done = Ok target /\
    length target = Z.to_nat (QuantileAgent.num_quantiles self).
Proof.
  intros Hwf Hnext. unfold QuantileAgent.bootstrap. destruct done.
  - destruct Hwf as (_ & _ & HN & _). unfold np_zeros.
    destruct (QuantileAgent.num_quantiles self <? 0)%Z eqn:E; [lia|]. cbn [obind].
    eexists. split; [reflexivity|]. by rewrite length_map, length_replicate.
  - destruct (QuantileAgent_wf_rows self next_state Hwf (Hnext eq_refl))
      as (rows & Hrows & Hlen2 & Hvec).
    rewrite Hrows. cbn [obind]. cbv zeta.
    destruct (np_argmax_spec (mean_last2 rows)) as (k & m & -> & Hk & _).
    { unfold mean_last2. by destruct rows. }
    cbn [obind]. unfold mean_last2 in Hk. rewrite list_lookup_fmap in Hk.
    destruct (rows !! k) as [v|] eqn:Hv; [|discriminate].
    rewrite (getitem_nat _ _ _ Hv). cbn [obind].
    eexists. split; [reflexivity|]. rewrite !length_map.
    rewrite Forall_forall in Hvec. apply Hvec. by eapply list_elem_of_lookup_2.
Qed.

Lemma QuantileAgent_learn_ok (self : QuantileAgent.t) (state action : Z) (reward : Q)
      (next_state : Z) (done : bool) :
  QuantileAgent_wf self ->
  (0 <= state < Chain.num_states (QuantileAgent.env self))%Z ->
  (action = 0 \/ action = 1)%Z ->
  (done = false -> (0 <= next_state < Chain.num_states (QuantileAgent.env self))%Z) ->
  exists self',
    QuantileAgent.learn self state action reward next_state done = Ok self' /\
    QuantileAgent_wf self' /\ QuantileAgent.env self' = QuantileAgent.env self /\
    QuantileAgent.total_steps self' = QuantileAgent.total_steps self.
Proof.
  intros Hwf Hstate Haction Hnext.
  destruct (QuantileAgent_bootstrap_ok self reward next_state done Hwf Hnext)
    as (target & Htarget & Htlen).
  destruct (QuantileAgent_wf_rows self state Hwf Hstate) as (rows & Hrows & Hlen2 & Hvec).
  destruct (getitem_in_range rows action) as (quantiles & Hquant & Hquant'); [lia|].
  assert (HqN : length quantiles = Z.to_nat (QuantileAgent.num_quantiles self)).
  { rewrite Forall_forall in Hvec. apply Hvec. by eapply list_elem_of_lookup_2. }
  assert (Hq : getitem2 (QuantileAgent.q_values self) state action = Ok quantiles)
    by (apply getitem2_Ok; eauto).
  destruct Hwf as (Hdim & Hn & HN & Hlen & Hall & Hcd & Haq).
  assert (Hcdlen : length (QuantileAgent.cumulative_density self) = length quantiles)
    by congruence.
  assert (Hcdlen' : length (QuantileAgent.cumulative_density self)
                    = length (map float32 quantiles)) by (by rewrite length_map).
  destruct (backward_gradient _ (map float32 target) _ Hcdlen')
    as (grad & Hgrad & Hglen & _).
  rewrite length_map in Hglen.
  unfold QuantileAgent.learn. rewrite Htarget. cbn [obind]. rewrite Hq. cbn [obind].
  cbv zeta. rewrite Hgrad. cbn [obind].
  set (new := zip_with Qminus quantiles (map (Qmult (QuantileAgent.lr self)) grad)).
  destruct (getitem2_setitem2 _ _ _ new _ Hq) as (q' & Hset & _).
  rewrite Hset. cbn [obind]. eexists. split; [reflexivity|].
  split; [|split; reflexivity].
  apply setitem2_Ok in Hset as (ki & kj & rows' & _ & Hki & ->).
  unfold QuantileAgent_wf.
  cbn [QuantileAgent.env QuantileAgent.q_values QuantileAgent.set_q_values
       QuantileAgent.num_quantiles QuantileAgent.cumulative_density
       QuantileAgent.mean_exploration QuantileAgent.active_quantile].
  split; [exact Hdim|]. split; [exact Hn|]. split; [exact HN|].
  split; [by rewrite length_insert|]. split; [|split; assumption].
  apply Forall_insert; [exact Hall|].
  rewrite Forall_forall in Hall.
  destruct (Hall rows') as [Hr2 Hrv]; [by eapply list_elem_of_lookup_2|].
  split; [by rewrite length_insert|].
  apply Forall_insert; [exact Hrv|].
  unfold new. rewrite length_zip_with, length_map. lia.
Qed.

Lemma QuantileAgent_wf_env (self : QuantileAgent.t) (e : Chain.t) (n : Z) :
  QuantileAgent_wf self ->
  Chain.action_dim e = Chain.action_dim (QuantileAgent.env self) ->
  Chain.num_states e = Chain.num_states (QuantileAgent.env self) ->
  QuantileAgent_wf (QuantileAgent.set_total_steps (QuantileAgent.set_env self e) n).
Proof.
  intros (Hdim & Hn & HN & Hlen & Hrows & Hcd & Haq) Hd Hs. unfold QuantileAgent_wf. cbn.
  rewrite Hd, Hs. auto 10.
Qed.

Lemma QuantileAgent_episode_loop_ok (fuel : nat) :
  forall (self : QuantileAgent.t) (state : Z) (total : Q) (g : RandomState),
    QuantileAgent_wf self ->
    (0 <= state < Chain.num_states (QuantileAgent.env self))%Z ->
    Chain.state (QuantileAgent.env self) = state ->
    (Z.to_nat (Chain.num_states (QuantileAgent.env self) - state) <= fuel)%nat ->
    exists self' r g',
      QuantileAgent.episode_loop fuel self state total g = Ok (self', r, g') /\
      QuantileAgent_wf self' /\
      (QuantileAgent.total_steps self + 1 <= QuantileAgent.total_steps self')%Z.
Proof.
  induction fuel as [|fuel IH]; intros self state total g Hwf Hstate Henv Hfuel; [lia|].
  rewrite QuantileAgent_episode_loop_S.
  destruct (QuantileAgent_act_ok self state g Hwf Hstate) as (action & g1 & Hact & Haction).
  unfold bind at 1. rewrite Hact.
  unfold Chain.step. destruct Haction as [-> | ->]; cbn [Z.eqb Pos.eqb].
  - unfold bind, randn, ret, lift. cbn [fst snd Chain.state Chain.set_state
                                          Chain.num_states Chain.left_std].
    rewrite Henv.
    set (e := Chain.set_state (QuantileAgent.env self) (state + 1)).
    set (self1 := QuantileAgent.set_total_steps (QuantileAgent.set_env self e)
                                                (QuantileAgent.total_steps self + 1)).
    assert (Hwf1 : QuantileAgent_wf self1) by (by apply QuantileAgent_wf_env).
    destruct (state + 1 =? Chain.num_states (QuantileAgent.env self))%Z eqn:Hdone.
    + destruct (QuantileAgent_learn_ok self1 state 0
                  (gaussian g1 (position g1) * Chain.left_std (QuantileAgent.env self) + 10)
                  (state + 1) true Hwf1)
        as (self' & -> & Hwf' & _ & Hsteps); [exact Hstate|by left|discriminate|].
      eexists _, _, _. split; [reflexivity|]. split; [exact Hwf'|].
      rewrite Hsteps. cbn. lia.
    + apply Z.eqb_neq in Hdone.
      destruct (QuantileAgent_learn_ok self1 state 0
                  (gaussian g1 (position g1) * Chain.left_std (QuantileAgent.env self))
                  (state + 1) false Hwf1)
        as (self' & -> & Hwf' & Henv' & Hsteps);
        [exact Hstate|by left|intros _; cbn; lia|].
      destruct (IH self' (state + 1)%Z
                   (total + gaussian g1 (position g1)
                            * Chain.left_std (QuantileAgent.env self))
                   (advance g1) Hwf')
        as (self'' & r & g' & Hloop & Hwf'' & Hsteps'').
      * rewrite Henv'. cbn. lia.
      * rewrite Henv'. reflexivity.
      * rewrite Henv'. cbn. lia.
      * exists self'', r, g'. split; [exact Hloop|]. split; [exact Hwf''|].
        rewrite Hsteps in Hsteps''. cbn in Hsteps''. lia.
  - unfold bind, randn, ret, lift. cbn [fst snd].
    set (self1 := QuantileAgent.set_total_steps
                    (QuantileAgent.set_env self (QuantileAgent.env self))
                    (QuantileAgent.total_steps self + 1)).
    assert (Hwf1 : QuantileAgent_wf self1) by (by apply QuantileAgent_wf_env).
    destruct (QuantileAgent_learn_ok self1 state 1
                (gaussian g1 (position g1) * Chain.up_std (QuantileAgent.env self))
                (-1) true Hwf1)
      as (self' & -> & Hwf' & _ & Hsteps); [exact Hstate|by right|discriminate|].
    eexists _, _, _. split; [reflexivity|]. split; [exact Hwf'|].
    rewrite Hsteps. cbn. lia.
Qed.

Lemma QuantileAgent_episode_progress (self : QuantileAgent.t) (g : RandomState) :
  QuantileAgent_wf self ->
  exists self' r g',
    agent_episode self g = Ok (self', r, g') /\ QuantileAgent_wf self' /\
    (agent_total_steps self + 1 <= agent_total_steps self')%Z.
Proof.
  intros Hwf. cbn [agent_episode agent_total_steps QuantileAgent_Agent].
  unfold QuantileAgent.episode, Chain.reset.
  set (self0 := QuantileAgent.set_env self
                  (Chain.set_state (QuantileAgent.env self) 0)).
  assert (Hwf0 : QuantileAgent_wf self0).
  { destruct Hwf as (Hdim & Hn & HN & Hlen & Hrows & Hcd & Haq).
    unfold QuantileAgent_wf. cbn. auto 10. }
  destruct (QuantileAgent_episode_loop_ok (S (length (QuantileAgent.q_values self0)))
                                          self0 0 0 g Hwf0)
    as (self' & r & g' & Hloop & Hwf' & Hsteps).
  - destruct Hwf0 as (_ & Hn & _). lia.
  - reflexivity.
  - destruct Hwf0 as (_ & _ & _ & Hlen & _). rewrite Hlen. lia.
  - exists self', r, g'. auto.
Qed.

Lemma QuantileAgent_check_returns (self : QuantileAgent.t) :
  QuantileAgent_wf self -> exists b, check_optimality (agent_q_values self) = Ok b.
Proof.
  intros (_ & _ & _ & _ & Hrows & _). rewrite Forall_forall in Hrows.
  cbn [agent_q_values QuantileAgent_Agent].
  change (check_optimality (Array3 (QuantileAgent.q_values self)))
    with (check_optimality (Array2 (mean_last3 (QuantileAgent.q_values self)))).
  assert (Hlen : forall r, r ∈ mean_last3 (QuantileAgent.q_values self) ->
                           length r = 2%nat).
  { intros r (rows & -> & Hin)%list_elem_of_fmap. unfold mean_last2.
    rewrite length_map. by apply Hrows. }
  unfold check_optimality.
  destruct (omap_total (fun row : list Q => getitem row 0)
                       (mean_last3 (QuantileAgent.q_values self))) as [c0 ->].
  { intros r Hr%Hlen. destruct r as [|x0 r]; [discriminate|].
    exists x0. by apply (getitem_nonneg _ 0). }
  destruct (omap_total (fun row : list Q => getitem row 1)
                       (mean_last3 (QuantileAgent.q_values self))) as [c1 ->].
  { intros r Hr%Hlen. destruct r as [|x0 [|x1 r]]; [discriminate..|].
    exists x1. by apply (getitem_nonneg _ 1). }
  cbn. eauto.
Qed.

(** The transitions that an episode of a well-formed quantile agent
    processes have a target and a current quantile vector of
    [num_quantiles] entries each. *)
Lemma QuantileAgent_wf_transition (self : QuantileAgent.t) (state action : Z)
      (reward : Q) (next_state : Z) (done : bool) :
  QuantileAgent_wf self ->
  (0 <= state < Chain.num_states (QuantileAgent.env self))%Z ->
  (action = 0 \/ action = 1)%Z ->
  (done = false -> (0 <= next_state < Chain.num_states (QuantileAgent.env self))%Z) ->
  exists target quantiles,
    QuantileAgent.bootstrap self reward next_state done = Ok target /\
    getitem2 (QuantileAgent.q_values self) state action = Ok quantiles /\
    length (QuantileAgent.cumulative_density self) = length quantiles /\
    length target = length quantiles /\
    length quantiles = Z.to_nat (QuantileAgent.num_quantiles self).
Proof.
  intros Hwf Hstate Haction Hnext.
  destruct (QuantileAgent_bootstrap_ok self reward next_state done Hwf Hnext)
    as (target & Htarget & Htlen).
  destruct (QuantileAgent_wf_rows self state Hwf Hstate) as (rows & Hrows & Hlen2 & Hvec).
  destruct (getitem_in_range rows action) as (quantiles & Hquant & Hquant'); [lia|].
  assert (HqN : length quantiles = Z.to_nat (QuantileAgent.num_quantiles self)).
  { rewrite Forall_forall in Hvec. apply Hvec. by eapply list_elem_of_lookup_2. }
  destruct Hwf as (_ & _ & _ & _ & _ & Hcd & _).
  exists target, quantiles. split; [exact Htarget|].
  split; [apply getitem2_Ok; eauto|]. repeat split; congruence.
Qed.

(** ** Agents as their constructors build them *)

Lemma QAgent_init_wf (n : Z) (up_std left_std lr epsilon discount : Q) :
  (1 <= n)%Z ->
  exists self,
    QAgent.init (fun _ => Chain.init n up_std left_std) lr epsilon discount = Ok self /\
    QAgent_wf self.
Proof.
  intros Hn. unfold QAgent.init, np_zeros. cbn [Chain.init Chain.action_dim Chain.state_dim].
  change (2 <? 0)%Z with false. cbn [obind].
  destruct (n <? 0)%Z eqn:E; [lia|]. cbn [obind].
  eexists. split; [reflexivity|]. unfold QAgent_wf. cbn.
  split; [reflexivity|]. split; [exact Hn|]. split; [apply length_replicate|].
  apply Forall_forall. intros row [-> _]%elem_of_replicate. reflexivity.
Qed.

Lemma QuantileAgent_init_wf (n : Z) (up_std left_std lr epsilon discount : Q)
      (num_quantiles : Z) (mean_exploration : bool) (active_quantile : Z) :
  (1 <= n)%Z -> (1 <= num_quantiles)%Z ->
  (mean_exploration = true \/ (- num_quantiles <= active_quantile < num_quantiles)%Z) ->
  exists self,
    QuantileAgent.init (fun _ => Chain.init n up_std left_std) lr epsilon discount
                       num_quantiles mean_exploration active_quantile = Ok self /\
    QuantileAgent_wf self.
Proof.
  intros Hn HN Haq. unfold QuantileAgent.init, np_zeros.
  cbn [Chain.init Chain.action_dim Chain.state_dim].
  destruct (num_quantiles <? 0)%Z eqn:E1; [lia|]. cbn [obind].
  change (2 <? 0)%Z with false. cbn [obind].
  destruct (n <? 0)%Z eqn:E2; [lia|]. cbn [obind].
  eexists. split; [reflexivity|]. unfold QuantileAgent_wf. cbn.
  split; [reflexivity|]. split; [exact Hn|]. split; [exact HN|].
  split; [apply length_replicate|]. split; [|split; [|exact Haq]].
  - apply Forall_forall. intros rows [-> _]%elem_of_replicate.
    split; [reflexivity|]. repeat constructor; apply length_replicate.
  - unfold QuantileAgent.density, range. by rewrite !length_map, length_seq.
Qed.

Lemma run_episodes_training_witness :
  (exists a' n g',
      run_episodes 4 qagent3 3 g0 = Ok (a', n, g') /\
      training 3 qagent3 g0 a' n /\ n = agent_total_steps a') /\
  (exists a' n g',
      run_episodes 4 quantile3 3 g0 = Ok (a', n, g') /\
      training 3 quantile3 g0 a' n /\ n = agent_total_steps a').
Proof.
  split.
  - apply (proj2 (run_episodes_training 3) QAgent_wf
                 (fun a g Ha => QAgent_episode_progress a g Ha)
                 QAgent_check_returns 4%nat qagent3 g0).
    + unfold QAgent_wf. cbn. repeat split; try lia. repeat constructor.
    + cbn. lia.
  - apply (proj2 (run_episodes_training 3) QuantileAgent_wf
                 (fun a g Ha => QuantileAgent_episode_progress a g Ha)
                 QuantileAgent_check_returns 4%nat quantile3 g0).
    + unfold QuantileAgent_wf. cbn.
      repeat split; try lia; first [right; lia|repeat constructor].
    + cbn. lia.
Defined.

(** * Further properties of the code *)

(** ** Walking the chain *)

Lemma iter_advance (k : nat) (g : RandomState) :
  entropy (Nat.iter k advance g) = entropy g /\
  gaussian (Nat.iter k advance g) = gaussian g /\
  position (Nat.iter k advance g) = (position g + k)%nat.
Proof.
  induction k as [|k (He & Hg & Hp)]; [cbn; auto with lia|].
  rewrite Nat.iter_succ. set (g' := Nat.iter k advance g) in *.
  cbn. rewrite Hp. auto with lia.
Qed.

Lemma steps_advance (k : nat) :
  forall (c : Chain.t) (g : RandomState),
  exists c' rs,
    steps (replicate k 0%Z) c g = Ok (c', rs, Nat.iter k advance g) /\
    c' = Chain.set_state c (if k is O then Chain.state c
                            else Chain.state c + Z.of_nat k) /\
    length rs = k /\
    forall j, (j < k)%nat ->
      rs !! j
      = Some (let next := (Chain.state c + Z.of_nat j + 1)%Z in
              let done := (next =? Chain.num_states c)%Z in
              let z := gaussian g (position g + j)%nat * Chain.left_std c in
              Chain.Transition next (if done then z + 10 else z) done).
Proof.
  induction k as [|k IH]; intros c g.
  - exists c, []. cbn. split; [reflexivity|]. split; [by destruct c|].
    split; [reflexivity|]. intros j Hj. lia.
  - destruct (IH (Chain.set_state c (Chain.state c + 1)) (advance g))
      as (c' & rs & Hrun & Hc' & Hlen & Hrs).
    eexists c', (_ :: rs). split; [|split; [|split]].
    + cbn [replicate steps]. unfold bind at 1. unfold Chain.step. cbn [Z.eqb].
      unfold bind at 1. unfold randn, ret at 1. cbn [fst snd].
      unfold bind. rewrite Hrun. unfold ret. cbn [fst snd].
      rewrite Nat.iter_succ_r. reflexivity.
    + rewrite Hc'. unfold Chain.set_state. cbn. f_equal.
      destruct k; lia.
    + cbn. by rewrite Hlen.
    + intros [|j] Hj.
      * cbn. rewrite Nat.add_0_r, Z.add_0_r. reflexivity.
      * cbn [lookup list_lookup]. rewrite Hrs by lia. cbn.
        replace (Chain.state c + 1 + Z.of_nat j + 1)%Z
          with (Chain.state c + Z.pos (Pos.of_succ_nat j) + 1)%Z by lia.
        replace (S (position g + j)) with (position g + S j)%nat by lia.
        reflexivity.
Qed.

(** X1: from a reset, the k-th advance returns state k and consumes one
    normal sample; it reports [done], and adds the bonus of 10 to its
    reward, exactly when k is [num_states]; the environment ends in state
    k. *)
Theorem chain_walk (c : Chain.t) (k : nat) (g : RandomState) :
  exists c' rs g',
    steps (replicate k 0%Z) (fst (Chain.reset c)) g = Ok (c', rs, g') /\
    Chain.state c' = Z.of_nat k /\
    position g' = (position g + k)%nat /\
    length rs = k /\
    forall j, (j < k)%nat ->
      rs !! j
      = Some (let done := (Z.of_nat (S j) =? Chain.num_states c)%Z in
              let z := gaussian g (position g + j)%nat * Chain.left_std c in
              Chain.Transition (Z.of_nat (S j)) (if done then z + 10 else z) done).
Proof.
  destruct (steps_advance k (fst (Chain.reset c)) g) as (c' & rs & Hrun & Hc' & Hlen & Hrs).
  exists c', rs, (Nat.iter k advance g). split; [exact Hrun|].
  split; [rewrite Hc'; cbn; destruct k; lia|].
  split; [apply iter_advance|]. split; [exact Hlen|].
  intros j Hj. rewrite (Hrs j Hj). cbn.
  replace (0 + Z.of_nat j + 1)%Z with (Z.pos (Pos.of_succ_nat j)) by lia.
  reflexivity.
Qed.

Lemma chain_walk_witness :
  exists c' rs g',
    steps (replicate 3 0%Z) (fst (Chain.reset chain3)) g0 = Ok (c', rs, g') /\
    Chain.state c' = 3%Z /\ length rs = 3%nat.
Proof.
  destruct (chain_walk chain3 3 g0) as (c' & rs & g' & H1 & H2 & _ & H4 & _).
  exists c', rs, g'. auto.
Defined.

(** X2: on a chain with no states ([num_states <= 0]) an advance never
    reports [done], however many are made. *)
Theorem chain_without_states_never_done (c : Chain.t) (k : nat) (g : RandomState) :
  (Chain.num_states c <= 0)%Z ->
  exists c' rs g',
    steps (replicate k 0%Z) (fst (Chain.reset c)) g = Ok (c', rs, g') /\
    length rs = k /\
    forall r, r ∈ rs -> exists next reward, r = Chain.Transition next reward false.
Proof.
  intros Hn.
  destruct (steps_advance k (fst (Chain.reset c)) g) as (c' & rs & Hrun & _ & Hlen & Hrs).
  exists c', rs, (Nat.iter k advance g). split; [exact Hrun|]. split; [exact Hlen|].
  intros r [j Hj]%list_elem_of_lookup_1.
  assert (Hlt : (j < k)%nat) by (rewrite <- Hlen; by eapply lookup_lt_Some).
  rewrite (Hrs j Hlt) in Hj. cbv zeta in Hj.
  cbn [fst Chain.reset Chain.set_state Chain.state Chain.num_states] in Hj.
  destruct (0 + Z.of_nat j + 1 =? Chain.num_states c)%Z eqn:E;
    [apply Z.eqb_eq in E; lia|].
  injection Hj as <-. eauto.
Qed.

Lemma chain_without_states_never_done_witness :
  exists c' rs g',
    steps (replicate 3 0%Z) (fst (Chain.reset (Chain.init 0 0 1))) g0 = Ok (c', rs, g') /\
    length rs = 3%nat /\
    forall r, r ∈ rs -> exists next reward, r = Chain.Transition next reward false.
Proof.
  apply (chain_without_states_never_done (Chain.init 0 0 1) 3 g0). cbn. lia.
Defined.

(** ** Action selection of the scalar agent *)

Lemma QAgent_greedy (self : QAgent.t) (state : Z) (row : list Q) :
  getitem (QAgent.q_values self) state = Ok row ->
  row <> [] ->
  Chain.action_dim (QAgent.env self) = Z.of_nat (length row) ->
  exists cands,
    cands <> [] /\ (forall a, a ∈ cands <-> maximal row a) /\
    (forall g, QAgent.act self state true g = choice cands g) /\
    (forall g, QAgent.epsilon self <= next_uniform g ->
               QAgent.act self state false g = choice cands (advance g)).
Proof.
  intros Hrow Hne Hdim. destruct (np_max_nonempty row Hne) as [best Hbest].
  destruct (candidates_maximal row best Hbest) as (cands & Hc & Hcne & Hmax).
  exists cands. split; [exact Hcne|]. split; [exact Hmax|]. split.
  - intros g. unfold QAgent.act. cbn [negb]. unfold bind, ret, lift.
    rewrite Hrow, Hbest, Hdim, Hc. reflexivity.
  - intros g Hu. apply Qltb_ge in Hu. unfold QAgent.act. cbn [negb].
    unfold bind, ret, lift, rand. fold (next_uniform g).
    rewrite Hu, Hrow, Hbest, Hdim, Hc. reflexivity.
Qed.

(** X3: [QAgent.act] in evaluation mode draws from exactly the actions whose
    table value at the state is maximal, without a uniform draw; in training
    mode it returns [randint(action_dim)] when the uniform draw is below
    [epsilon] and draws from the same maximal actions otherwise. *)
Theorem QAgent_act_selection (self : QAgent.t) (state : Z) (row : list Q) :
  getitem (QAgent.q_values self) state = Ok row ->
  row <> [] ->
  Chain.action_dim (QAgent.env self) = Z.of_nat (length row) ->
  exists cands,
    cands <> [] /\
    (forall a, a ∈ cands <-> maximal row a) /\
    (forall g, exists a,
          a ∈ cands /\ QAgent.act self state true g = Ok (a, advance g)) /\
    (forall a, a ∈ cands ->
               exists g, QAgent.act self state true g = Ok (a, advance g)) /\
    (forall g, QAgent.epsilon self <= next_uniform g ->
               exists a,
                 a ∈ cands /\
                 QAgent.act self state false g = Ok (a, advance (advance g))) /\
    (forall g, next_uniform g < QAgent.epsilon self ->
               exists a,
                 (0 <= a < Chain.action_dim (QAgent.env self))%Z /\
                 QAgent.act self state false g = Ok (a, advance (advance g)) /\
                 QAgent.act self state false g
                 = randint (Chain.action_dim (QAgent.env self)) (advance g)).
Proof.
  intros Hrow Hne Hdim.
  destruct (QAgent_greedy self state row Hrow Hne Hdim)
    as (cands & Hcne & Hmax & Heval & Htrain).
  exists cands. split; [exact Hcne|]. split; [exact Hmax|].
  split; [|split; [|split]].
  - intros g. destruct (choice_Ok cands g Hcne) as (a & Ha & Hin).
    exists a. split; [exact Hin|]. by rewrite Heval.
  - intros a Ha. destruct (choice_reaches cands a Ha) as [n Hn].
    exists {| entropy := fun _ => n; gaussian := fun _ => 0; position := 0 |}.
    rewrite Heval. by apply Hn.
  - intros g Hu. destruct (choice_Ok cands (advance g) Hcne) as (a & Ha & Hin).
    exists a. split; [exact Hin|]. by rewrite Htrain.
  - intros g Hu. apply Qltb_lt in Hu.
    assert (Hact : QAgent.act self state false g
                   = randint (Chain.action_dim (QAgent.env self)) (advance g)).
    { unfold QAgent.act. cbn [negb]. unfold bind, ret, rand.
      fold (next_uniform g). rewrite Hu. reflexivity. }
    destruct (randint_Ok (Chain.action_dim (QAgent.env self)) (advance g))
      as (a & Ha & Hrange).
    { rewrite Hdim. destruct row; [congruence|cbn [length]; lia]. }
    exists a. split; [exact Hrange|]. split; [by rewrite Hact|exact Hact].
Qed.

Lemma QAgent_act_selection_witness :
  exists cands,
    cands <> [] /\ (forall a, a ∈ cands <-> maximal [2; 3] a) /\
    (forall g, exists a,
          a ∈ cands /\ QAgent.act qagent3 1 true g = Ok (a, advance g)).
Proof.
  destruct (QAgent_act_selection qagent3 1 [2; 3] eq_refl ltac:(discriminate) eq_refl)
    as (cands & H1 & H2 & H3 & _).
  exists cands. auto.
Defined.

(** ** Freshly constructed agents *)

Lemma omap_replicate {A B} (f : A -> outcome B) (x : A) (y : B) (n : nat) :
  f x = Ok y -> omap f (replicate n x) = Ok (replicate n y).
Proof.
  intros H. induction n as [|n IH]; cbn; [reflexivity|]. by rewrite H, IH.
Qed.

Lemma check_constant_rows (m : Q) (n : nat) :
  check_optimality (Array2 (replicate n [m; m])) = Ok (Nat.eqb n 0).
Proof.
  unfold check_optimality.
  rewrite (omap_replicate _ [m; m] m) by reflexivity. cbn [obind].
  rewrite (omap_replicate _ [m; m] m) by reflexivity. cbn [obind]. f_equal.
  assert (Hneg : Qltb 0 (m - m) = false) by (apply Qltb_ge; lra).
  assert (Hzip : zip_with (fun x y => Qltb 0 (x - y)) (replicate n m) (replicate n m)
                 = replicate n false).
  { induction n as [|n IH]; cbn; [reflexivity|]. by rewrite Hneg, IH. }
  rewrite Hzip, length_replicate. unfold count_true. clear Hzip.
  assert (Hfil : filter (fun b : bool => b = true) (replicate n false) = []).
  { induction n as [|n IH]; [reflexivity|]. cbn [replicate]. rewrite filter_cons.
    rewrite decide_False by discriminate. exact IH. }
  rewrite Hfil. cbn. by destruct n.
Qed.

(** X4: [QAgent.__init__] fails with [ValueError] on a negative number of
    states; otherwise it builds two fresh environments in state 0, a step
    count of 0 and a table of [num_states] rows of two zeros, on which
    [check_optimality] is false unless there is no state at all. *)
Theorem QAgent_init_fresh (n : Z) (up_std left_std lr epsilon discount : Q) :
  ((n < 0)%Z ->
   QAgent.init (fun _ => Chain.init n up_std left_std) lr epsilon discount
   = Raise ValueError) /\
  ((0 <= n)%Z ->
   exists self,
     QAgent.init (fun _ => Chain.init n up_std left_std) lr epsilon discount = Ok self /\
     QAgent.q_values self = replicate (Z.to_nat n) [0; 0] /\
     QAgent.total_steps self = 0%Z /\
     QAgent.env self = Chain.init n up_std left_std /\
     QAgent.eval_env self = Chain.init n up_std left_std /\
     check_optimality (agent_q_values self) = Ok (n =? 0)%Z).
Proof.
  unfold QAgent.init, np_zeros. cbn [Chain.init Chain.action_dim Chain.state_dim].
  change (2 <? 0)%Z with false. cbn [obind]. split; intros Hn.
  - destruct (n <? 0)%Z eqn:E; [reflexivity|lia].
  - destruct (n <? 0)%Z eqn:E; [lia|]. cbn [obind].
    eexists. split; [reflexivity|].
    cbn [QAgent.q_values QAgent.total_steps QAgent.env QAgent.eval_env
         agent_q_values QAgent_Agent].
    change (replicate (Z.to_nat 2) 0) with [0; 0].
    repeat (split; [reflexivity|]).
    rewrite check_constant_rows. f_equal.
    destruct (Z.eqb_spec n 0) as [->|Hne]; [reflexivity|].
    apply Nat.eqb_neq. lia.
Qed.

Lemma QAgent_init_fresh_witness :
  QAgent.init (fun _ => Chain.init (-1) 0 1) (1 # 10) (1 # 10) 1 = Raise ValueError /\
  exists self,
    QAgent.init (fun _ => Chain.init 3 0 1) (1 # 10) (1 # 10) 1 = Ok self /\
    QAgent.q_values self = replicate 3 [0; 0] /\
    check_optimality (agent_q_values self) = Ok false.
Proof.
  split.
  - apply (proj1 (QAgent_init_fresh (-1) 0 1 (1 # 10) (1 # 10) 1)). lia.
  - destruct (proj2 (QAgent_init_fresh 3 0 1 (1 # 10) (1 # 10) 1))
      as (self & H1 & H2 & _ & _ & _ & H3); [lia|].
    exists self. auto.
Defined.

(** X5: [QuantileAgent.__init__] fails with [ValueError] on a negative
    number of quantiles or of states; otherwise it builds a table of
    [num_states] by two vectors of [num_quantiles] zeros, the density vector
    of that many entries and a step count of 0, and [check_optimality] is
    false on that table unless there is no state at all. *)
Theorem QuantileAgent_init_fresh (n : Z) (up_std left_std lr epsilon discount : Q)
        (num_quantiles : Z) (mean_exploration : bool) (active_quantile : Z) :
  ((num_quantiles < 0 \/ n < 0)%Z ->
   QuantileAgent.init (fun _ => Chain.init n up_std left_std) lr epsilon discount
                      num_quantiles mean_exploration active_quantile
   = Raise ValueError) /\
  ((0 <= num_quantiles)%Z -> (0 <= n)%Z ->
   exists self,
     QuantileAgent.init (fun _ => Chain.init n up_std left_std) lr epsilon discount
                        num_quantiles mean_exploration active_quantile = Ok self /\
     QuantileAgent.q_values self
     = replicate (Z.to_nat n)
                 [replicate (Z.to_nat num_quantiles) 0;
                  replicate (Z.to_nat num_quantiles) 0] /\
     length (QuantileAgent.cumulative_density self) = Z.to_nat num_quantiles /\
     QuantileAgent.total_steps self = 0%Z /\
     check_optimality (agent_q_values self) = Ok (n =? 0)%Z).
Proof.
  unfold QuantileAgent.init, np_zeros.
  cbn [Chain.init Chain.action_dim Chain.state_dim]. split.
  - intros [HN|Hn].
    + destruct (num_quantiles <? 0)%Z eqn:E; [reflexivity|lia].
    + destruct (num_quantiles <? 0)%Z eqn:E; [reflexivity|]. cbn [obind].
      change (2 <? 0)%Z with false. cbn [obind].
      destruct (n <? 0)%Z eqn:E'; [reflexivity|lia].
  - intros HN Hn.
    destruct (num_quantiles <? 0)%Z eqn:E; [lia|]. cbn [obind].
    change (2 <? 0)%Z with false. cbn [obind].
    destruct (n <? 0)%Z eqn:E'; [lia|]. cbn [obind].
    eexists. split; [reflexivity|].
    cbn [QuantileAgent.q_values QuantileAgent.total_steps
         QuantileAgent.cumulative_density agent_q_values QuantileAgent_Agent].
    set (z := replicate (Z.to_nat num_quantiles) 0).
    change (replicate (Z.to_nat 2) z) with [z; z].
    split; [reflexivity|]. split.
    { unfold QuantileAgent.density, range. by rewrite !length_map, length_seq. }
    split; [reflexivity|].
    change (check_optimality (Array3 (replicate (Z.to_nat n) [z; z])))
      with (check_optimality (Array2 (mean_last3 (replicate (Z.to_nat n) [z; z])))).
    unfold mean_last3. rewrite fmap_replicate. cbn [mean_last2 map].
    rewrite check_constant_rows. f_equal.
    destruct (Z.eqb_spec n 0) as [->|Hne]; [reflexivity|].
    apply Nat.eqb_neq. lia.
Qed.

Lemma QuantileAgent_init_fresh_witness :
  QuantileAgent.init (fun _ => Chain.init 3 0 1) (1 # 10) (1 # 10) 1 (-5) false (-1)
  = Raise ValueError /\
  exists self,
    QuantileAgent.init (fun _ => Chain.init 3 0 1) (1 # 10) (1 # 10) 1 5 false (-1)
    = Ok self /\
    length (QuantileAgent.cumulative_density self) = 5%nat /\
    check_optimality (agent_q_values self) = Ok false.
Proof.
  split.
  - apply (proj1 (QuantileAgent_init_fresh 3 0 1 (1 # 10) (1 # 10) 1 (-5) false (-1))).
    left. lia.
  - destruct (proj2 (QuantileAgent_init_fresh 3 0 1 (1 # 10) (1 # 10) 1 5 false (-1)))
      as (self & H1 & _ & H2 & _ & H3); [lia..|].
    exists self. auto.
Defined.

(** ** The cumulative densities *)

Lemma density_lookup (n : Z) (k : nat) :
  (Z.of_nat k < n)%Z ->
  QuantileAgent.density n !! k
  = Some (inject_Z (2 * Z.of_nat k + 1) / (2 * inject_Z n)).
Proof.
  intros Hk. unfold QuantileAgent.density, range.
  rewrite !list_lookup_fmap, lookup_seq_lt by lia. reflexivity.
Qed.

Lemma density_length (n : Z) : length (QuantileAgent.density n) = Z.to_nat n.
Proof. unfold QuantileAgent.density, range. by rewrite !length_map, length_seq. Qed.

Lemma inject_Z_double (n : Z) : inject_Z (2 * n) == 2 * inject_Z n.
Proof. rewrite inject_Z_mult. reflexivity. Qed.

(** Rounding to float32 within the unit interval. *)
Lemma Qlog2_le (x : Q) : 0 < x -> 2 ^ Qlog2 x <= x.
Proof.
  intros Hx. unfold Qlog2.
  destruct (Qle_bool _ x) eqn:E; [by apply Qle_bool_iff|]. clear E.
  destruct x as [n d]. cbn [Qnum Qden].
  assert (Hn : (0 < n)%Z) by (unfold Qlt in Hx; cbn in Hx; lia).
  pose proof (Z.log2_spec n Hn) as [Ha _].
  pose proof (Z.log2_spec (Z.pos d) eq_refl) as [_ Hb].
  pose proof (Z.log2_nonneg n) as Ha0.
  pose proof (Z.log2_nonneg (Z.pos d)) as Hb0.
  set (a := Z.log2 n) in *. set (b := Z.log2 (Z.pos d)) in *.
  replace (a - b - 1)%Z with (a - (b + 1))%Z by lia.
  rewrite Qpower_minus by discriminate.
  rewrite <- (Zpower_Qpower 2 a), <- (Zpower_Qpower 2 (b + 1)) by lia.
  replace (Z.succ b) with (b + 1)%Z in Hb by lia.
  assert (Hp : (0 < 2 ^ (b + 1))%Z) by (apply Z.pow_pos_nonneg; lia).
  apply Qle_shift_div_r; [by rewrite <- (Zlt_Qlt 0)|].
  rewrite (Qmake_Qdiv n d). unfold Qdiv.
  rewrite <- Qmult_assoc, (Qmult_comm (/ _)), Qmult_assoc.
  apply Qle_shift_div_l; [by rewrite <- (Zlt_Qlt 0)|].
  rewrite <- !inject_Z_mult, <- Zle_Qle. nia.
Qed.

Lemma Qlog2_unit (x : Q) : 0 < x -> x < 1 -> (Qlog2 x <= -1)%Z.
Proof.
  intros H0 H1. destruct (Z_lt_le_dec (Qlog2 x) 0) as [|Hge]; [lia|].
  pose proof (Qlog2_le x H0) as Hle.
  pose proof (Qpower_1_le 2 (Qlog2 x) ltac:(lra) Hge). lra.
Qed.

Lemma round_half_even_cases (y : Q) :
  round_half_even y = Qfloor y \/
  (round_half_even y = (Qfloor y + 1)%Z /\ (1 # 2) <= y - inject_Z (Qfloor y)).
Proof.
  unfold round_half_even.
  destruct (Qcompare_spec (y - inject_Z (Qfloor y)) (1 # 2)) as [E|E|E].
  - destruct (Z.even (Qfloor y)); [by left|right; split; [reflexivity|lra]].
  - by left.
  - right. split; [reflexivity|lra].
Qed.

Lemma round_half_even_near (y : Q) : Qabs (inject_Z (round_half_even y) - y) <= 1 # 2.
Proof.
  pose proof (Qfloor_le y) as Hlo. pose proof (Qlt_floor y) as Hhi.
  rewrite inject_Z_plus in Hhi. change (inject_Z 1) with 1 in Hhi.
  destruct (round_half_even_cases y) as [E|[E Hhalf]]; rewrite E.
  - unfold round_half_even in E.
    destruct (Qcompare_spec (y - inject_Z (Qfloor y)) (1 # 2)) as [E'|E'|E'].
    + apply Qabs_case; intros; lra.
    + apply Qabs_case; intros; lra.
    + lia.
  - rewrite inject_Z_plus. change (inject_Z 1) with 1.
    apply Qabs_case; intros; lra.
Qed.

Lemma round_half_even_range (y : Q) (K : Z) :
  0 <= y -> y <= inject_Z K -> (0 <= round_half_even y <= K)%Z.
Proof.
  intros H0 HK.
  assert (Hf0 : (0 <= Qfloor y)%Z).
  { change 0%Z with (Qfloor 0). by apply Qfloor_resp_le. }
  pose proof (Qfloor_le y) as Hlo.
  destruct (round_half_even_cases y) as [->|[-> Hhalf]].
  - split; [exact Hf0|]. rewrite Zle_Qle. lra.
  - split; [lia|].
    assert (Hlt : inject_Z (Qfloor y) < inject_Z K) by lra.
    rewrite <- Zlt_Qlt in Hlt. lia.
Qed.

Lemma float32_unit (x : Q) :
  0 < x -> x < 1 ->
  0 <= float32 x /\ float32 x <= 1 /\ Qabs (float32 x - x) <= 1 # 33554432.
Proof.
  intros H0 H1. unfold float32.
  pose proof (Qred_correct x) as Hred.
  set (x' := Qred x) in *.
  assert (H0' : 0 < x') by lra. assert (H1' : x' < 1) by lra.
  destruct (Qeq_bool x' 0) eqn:E; [apply Qeq_bool_iff in E; lra|]. clear E.
  assert (Habs : Qabs x' = x').
  { destruct x' as [n d]. unfold Qlt in H0'. cbn in H0'. cbn. f_equal. lia. }
  rewrite Habs.
  assert (Hs : Qltb x' 0 = false) by (apply Qltb_ge; lra). rewrite Hs.
  pose proof (Qlog2_unit x' H0' H1') as Hl.
  set (e := Z.max (Qlog2 x' - 23) (-149)).
  assert (He : (-149 <= e <= -24)%Z) by lia.
  set (K := (2 ^ (- e))%Z).
  assert (HK : (16777216 <= K)%Z).
  { change 16777216%Z with (2 ^ 24)%Z. apply Z.pow_le_mono_r; lia. }
  assert (Hpow : 2 ^ e == / inject_Z K).
  { replace e with (- - e)%Z at 1 by lia. rewrite Qpower_opp.
    unfold K. rewrite Zpower_Qpower by lia. reflexivity. }
  assert (Hk : 16777216 <= inject_Z K) by (by rewrite <- (Zle_Qle 16777216)).
  set (k := inject_Z K) in *.
  assert (Hy : x' / 2 ^ e == x' * k) by (rewrite Hpow; field; lra).
  set (y := x' / 2 ^ e) in *.
  assert (Hy0 : 0 <= y) by (rewrite Hy; nra).
  assert (HyK : y <= k) by (rewrite Hy; nra).
  pose proof (round_half_even_range y K Hy0 HyK) as [Hm0 HmK].
  pose proof (round_half_even_near y) as Hnear.
  set (m := round_half_even y) in *.
  rewrite Zle_Qle in Hm0, HmK. fold k in HmK. change (inject_Z 0) with 0 in Hm0.
  rewrite Qred_correct, Hpow.
  assert (Hinv : 0 < / k) by (apply Qinv_lt_0_compat; lra).
  assert (Hinv' : / k <= 1 # 16777216).
  { apply Qle_shift_inv_r; lra. }
  assert (Hone : k * / k == 1) by (field; lra).
  assert (Hx : x == y * / k) by (rewrite Hy, <- Hred; field; lra).
  split; [nra|]. split; [nra|].
  assert (E : 1 * inject_Z m * / k - x == (inject_Z m - y) * / k) by (rewrite Hx; ring).
  rewrite E, Qabs_Qmult, (Qabs_pos (/ k)) by lra.
  pose proof (Qabs_nonneg (inject_Z m - y)). nra.
Qed.

Lemma density_unit (n : Z) (k : nat) :
  (Z.of_nat k < n)%Z ->
  1 / (2 * inject_Z n) <= inject_Z (2 * Z.of_nat k + 1) / (2 * inject_Z n) /\
  inject_Z (2 * Z.of_nat k + 1) / (2 * inject_Z n) <= 1 - 1 / (2 * inject_Z n).
Proof.
  intros Hk.
  assert (Hn : 0 < 2 * inject_Z n).
  { rewrite <- inject_Z_double. rewrite <- (Zlt_Qlt 0). lia. }
  assert (Hinv : 0 < / (2 * inject_Z n)) by (by apply Qinv_lt_0_compat).
  assert (H1 : 1 <= inject_Z (2 * Z.of_nat k + 1)) by (rewrite <- (Zle_Qle 1); lia).
  assert (H2 : inject_Z (2 * Z.of_nat k + 1) <= 2 * inject_Z n - 1).
  { assert (E : 2 * inject_Z n - 1 == inject_Z (2 * n - 1)).
    { unfold Zminus. rewrite inject_Z_plus, inject_Z_double. reflexivity. }
    rewrite E, <- Zle_Qle. lia. }
  assert (Hone : 2 * inject_Z n * / (2 * inject_Z n) == 1) by (field; lra).
  unfold Qdiv. split; nra.
Qed.

(** X6: the density vector that [QuantileAgent.__init__] stores has
    [num_quantiles] entries; the k-th is the float32 copy of
    [(2k+1)/(2 num_quantiles)], lies between 0 and 1 and within [2^-25] of
    that level, and lies strictly between 0 and 1 when there are fewer than
    [2^24] quantiles. *)
Theorem density_levels (env_fn : unit -> Chain.t) (lr epsilon discount : Q)
        (num_quantiles : Z) (mean_exploration : bool) (active_quantile : Z)
        (self : QuantileAgent.t) :
  QuantileAgent.init env_fn lr epsilon discount num_quantiles mean_exploration
                     active_quantile = Ok self ->
  length (QuantileAgent.cumulative_density self) = Z.to_nat num_quantiles /\
  forall k : nat,
    (Z.of_nat k < num_quantiles)%Z ->
    exists tau,
      QuantileAgent.cumulative_density self !! k = Some tau /\
      tau = float32 (inject_Z (2 * Z.of_nat k + 1) / (2 * inject_Z num_quantiles)) /\
      0 <= tau /\ tau <= 1 /\
      Qabs (tau - inject_Z (2 * Z.of_nat k + 1) / (2 * inject_Z num_quantiles))
      <= 1 # 33554432 /\
      ((num_quantiles < 16777216)%Z -> 0 < tau /\ tau < 1).
Proof.
  unfold QuantileAgent.init. intros Hinit.
  destruct (np_zeros 0 num_quantiles) as [qs| |]; [|discriminate..]. cbn [obind] in Hinit.
  destruct (np_zeros qs _) as [cols| |]; [|discriminate..]. cbn [obind] in Hinit.
  destruct (np_zeros cols _) as [q| |]; [|discriminate..]. cbn [obind] in Hinit.
  injection Hinit as <-. cbn [QuantileAgent.cumulative_density].
  split; [by rewrite length_map, density_length|].
  intros k Hk. eexists. split.
  { rewrite list_lookup_fmap, density_lookup by exact Hk. reflexivity. }
  split; [reflexivity|].
  destruct (density_unit num_quantiles k Hk) as [Hlo Hhi].
  set (x := inject_Z (2 * Z.of_nat k + 1) / (2 * inject_Z num_quantiles)) in *.
  assert (Hn : 0 < 2 * inject_Z num_quantiles).
  { rewrite <- inject_Z_double. rewrite <- (Zlt_Qlt 0). lia. }
  assert (Hinv : 0 < 1 / (2 * inject_Z num_quantiles)).
  { unfold Qdiv. rewrite Qmult_1_l. by apply Qinv_lt_0_compat. }
  destruct (float32_unit x) as (H0 & H1 & Herr); [lra..|].
  split; [exact H0|]. split; [exact H1|]. split; [exact Herr|].
  intros Hsmall.
  assert (Hbig : 1 # 33554432 < 1 / (2 * inject_Z num_quantiles)).
  { apply Qlt_shift_div_l; [exact Hn|].
    assert (E : inject_Z num_quantiles < 16777216)
      by (by rewrite <- (Zlt_Qlt _ 16777216)).
    lra. }
  revert Herr. apply Qabs_case; intros; lra.
Qed.

Lemma density_levels_witness :
  exists self,
    QuantileAgent.init (fun _ => chain3) (1 # 10) (1 # 10) 1 5 false (-1) = Ok self /\
    length (QuantileAgent.cumulative_density self) = 5%nat /\
    exists tau,
      QuantileAgent.cumulative_density self !! 2%nat = Some tau /\
      tau = float32 (inject_Z (2 * Z.of_nat 2 + 1) / (2 * inject_Z 5)) /\
      0 <= tau /\ tau <= 1.
Proof.
  eexists. split; [reflexivity|].
  destruct (density_levels (fun _ => chain3) (1 # 10) (1 # 10) 1 5 false (-1) _ eq_refl)
    as [Hlen Hk].
  split; [exact Hlen|].
  destruct (Hk 2%nat) as (tau & H1 & H2 & H3 & H4 & _); [lia|].
  exists tau. auto.
Defined.

(** ** Huber at any width *)

Lemma Qsign_pos (x : Q) : 0 < x -> Qsign x = 1.
Proof. intros H. unfold Qsign. apply Qltb_lt in H. by rewrite H. Qed.

Lemma Qsign_neg (x : Q) : x < 0 -> Qsign x = -(1).
Proof.
  intros H. unfold Qsign.
  assert (H0 : Qltb 0 x = false) by (apply Qltb_ge; lra).
  apply Qltb_lt in H. by rewrite H0, H.
Qed.

(** X7: for a width [k > 0], [huber(x, k)] is [x^2/2] where [|x| < k] and
    [k (|x| - k/2)] elsewhere, it is never negative, and the derivative that
    autograd propagates through it is the incoming derivative times [x]
    clipped to [-k, k]. *)
Theorem huber_width (x dx k : Q) :
  0 < k ->
  (Qabs x < k -> val (QuantileAgent.huber (D x dx) k) == (1 # 2) * (x * x)) /\
  (k <= Qabs x ->
   val (QuantileAgent.huber (D x dx) k) == k * (Qabs x - (1 # 2) * k)) /\
  0 <= val (QuantileAgent.huber (D x dx) k) /\
  der (QuantileAgent.huber (D x dx) k) == dx * clip (- k) k x.
Proof.
  intros Hk.
  assert (Hval : val (QuantileAgent.huber (D x dx) k)
                 == if Qltb (Qabs x) k then (1 # 2) * (x * x)
                    else k * (Qabs x - (1 # 2) * k)).
  { unfold QuantileAgent.huber, dlt, dfloat, float_of_bool.
    cbn [val dabs detach const dadd dmul dsub dpow2].
    destruct (Qltb (Qabs x) k); cbn [val]; ring. }
  assert (Hder : der (QuantileAgent.huber (D x dx) k)
                 == if Qltb (Qabs x) k then dx * x else k * (Qsign x * dx)).
  { unfold QuantileAgent.huber, dlt, dfloat, float_of_bool.
    cbn [val der dabs detach const dadd dmul dsub dpow2].
    destruct (Qltb (Qabs x) k); cbn [val der]; ring. }
  split; [|split; [|split]].
  - intros H. apply Qltb_lt in H. rewrite Hval, H. reflexivity.
  - intros H. apply Qltb_ge in H. rewrite Hval, H. reflexivity.
  - rewrite Hval. destruct (Qltb (Qabs x) k) eqn:E.
    + pose proof (sq_nonneg x). lra.
    + apply Qltb_ge in E. nra.
  - rewrite Hder. unfold clip. destruct (Qltb (Qabs x) k) eqn:E.
    + apply Qltb_lt in E. apply Qabs_Qlt_condition in E as [E1 E2].
      assert (H1 : Qltb x (- k) = false) by (apply Qltb_ge; lra).
      assert (H2 : Qltb k x = false) by (apply Qltb_ge; lra).
      rewrite H1, H2. reflexivity.
    + apply Qltb_ge in E. destruct (Qlt_le_dec x 0) as [Hx|Hx].
      * rewrite Qabs_neg in E by lra.
        destruct (Qltb x (- k)) eqn:H1.
        -- rewrite Qsign_neg by exact Hx. ring.
        -- apply Qltb_ge in H1. assert (Hxk : x == - k) by lra.
           assert (H2 : Qltb k x = false) by (apply Qltb_ge; lra).
           rewrite H2, Qsign_neg by exact Hx. rewrite Hxk. ring.
      * rewrite Qabs_pos in E by lra.
        assert (H1 : Qltb x (- k) = false) by (apply Qltb_ge; lra).
        rewrite H1, Qsign_pos by lra.
        destruct (Qltb k x) eqn:H2; [ring|].
        apply Qltb_ge in H2. assert (Hxk : x == k) by lra. rewrite Hxk. ring.
Qed.

Lemma huber_width_witness :
  val (QuantileAgent.huber (D 3 1) 2) == 2 * (Qabs 3 - (1 # 2) * 2) /\
  der (QuantileAgent.huber (D 3 1) 2) == 1 * clip (- (2)) 2 3.
Proof.
  destruct (huber_width 3 1 2 eq_refl) as (_ & H2 & _ & H4).
  split; [apply H2; discriminate|exact H4].
Defined.

(** ** Size and direction of the quantile update *)











(** ** The scalar update never overshoots *)

(** X10: with a learning rate between 0 and 1, the scalar update leaves
    [Q(state, action)] between its old value and [reward + target], the
    target being 0 on a terminal transition and the discounted row maximum
    otherwise; a learning rate of 1 puts it on [reward + target]. *)
Theorem QAgent_learn_between (self : QAgent.t) (state action : Z) (reward : Q)
        (next_state : Z) (done : bool) (q : Q) (next_row : list Q) :
  getitem2 (QAgent.q_values self) state action = Ok q ->
  (done = false ->
   getitem (QAgent.q_values self) next_state = Ok next_row /\ next_row <> []) ->
  0 <= QAgent.lr self -> QAgent.lr self <= 1 ->
  exists (self' : QAgent.t) (q' target : Q),
    QAgent.learn self state action reward next_state done = Ok self' /\
    getitem2 (QAgent.q_values self') state action = Ok q' /\
    (if done then target = 0
     else exists m, is_max next_row m /\ target = QAgent.discount self * m) /\
    (q <= reward + target -> q <= q' /\ q' <= reward + target) /\
    (reward + target <= q -> reward + target <= q' /\ q' <= q) /\
    (QAgent.lr self == 1 -> q' == reward + target).
Proof.
  intros Hq Hnext Hlr0 Hlr1.
  destruct (QAgent_learn_result self state action reward next_state done q next_row
              Hq Hnext) as (self' & target & Hlearn & Hget & Htarget).
  exists self', (q + QAgent.lr self * (reward + target - q)), target.
  split; [exact Hlearn|]. split; [exact Hget|]. split; [exact Htarget|].
  set (lr := QAgent.lr self) in *.
  split; [|split].
  - intros Hle. split; nra.
  - intros Hle. split; nra.
  - intros H1. rewrite H1. ring.
Qed.

Lemma QAgent_learn_between_witness :
  exists (self' : QAgent.t) (q' target : Q),
    QAgent.learn qagent3 0 0 1 1 false = Ok self' /\
    getitem2 (QAgent.q_values self') 0 0 = Ok q' /\
    (exists m, is_max [2; 3] m /\ target = QAgent.discount qagent3 * m) /\
    (1 <= 1 + target -> 1 <= q' /\ q' <= 1 + target).
Proof.
  destruct (QAgent_learn_between qagent3 0 0 1 1 false 1 [2; 3])
    as (self' & q' & target & H1 & H2 & H3 & H4 & _).
  - reflexivity.
  - intros _. split; [reflexivity|discriminate].
  - discriminate.
  - discriminate.
  - exists self', q', target. auto.
Defined.


(** ** What the convergence check raises *)

Lemma getitem_beyond {A} (l : list A) (i : nat) :
  (length l <= i)%nat -> getitem l (Z.of_nat i) = Raise IndexError.
Proof.
  intros Hi. unfold getitem, np_index.
  destruct ((0 <=? Z.of_nat i) && (Z.of_nat i <? Z.of_nat (length l)))%Z eqn:E1.
  - apply andb_true_iff in E1 as [_ E1]. apply Z.ltb_lt in E1. lia.
  - destruct ((- Z.of_nat (length l) <=? Z.of_nat i) && (Z.of_nat i <? 0))%Z eqn:E2;
      [|reflexivity].
    apply andb_true_iff in E2 as [_ E2]. apply Z.ltb_lt in E2. lia.
Qed.

Lemma omap_getitem_outcome (q : list (list Q)) (i : nat) :
  (exists c, omap (fun row => getitem row (Z.of_nat i)) q = Ok c /\
             Forall (fun row => (i < length row)%nat) q) \/
  (omap (fun row => getitem row (Z.of_nat i)) q = Raise IndexError /\
   Exists (fun row => (length row <= i)%nat) q).
Proof.
  induction q as [|row q IH]; cbn [omap].
  - left. exists []. split; [reflexivity|constructor].
  - destruct (Nat.lt_ge_cases i (length row)) as [Hlt|Hge].
    + destruct (lookup_lt_is_Some_2 row i Hlt) as [x Hx].
      rewrite (getitem_nat _ _ _ Hx). cbn [obind].
      destruct IH as [(c & -> & Hall)|[-> Hex]].
      * left. eexists. split; [reflexivity|]. by constructor.
      * right. split; [reflexivity|]. by apply Exists_cons_tl.
    + right. rewrite getitem_beyond by exact Hge. split; [reflexivity|].
      by apply Exists_cons_hd.
Qed.

(** X11: [check_optimality] fails with [AssertionError] on an array that is
    neither 2-D nor 3-D; on a table with at least one state it fails with
    [IndexError] when the states have fewer than two actions each, and
    returns a boolean when they have two or more. *)
Theorem check_optimality_outcomes (q_values : ndarray) :
  (collapse q_values = None -> check_optimality q_values = Raise AssertionError) /\
  (forall (m : list (list Q)) (cols : nat),
      collapse q_values = Some m -> m <> [] ->
      Forall (fun row => length row = cols) m ->
      ((cols < 2)%nat -> check_optimality q_values = Raise IndexError) /\
      ((2 <= cols)%nat -> exists b, check_optimality q_values = Ok b)).
Proof.
  assert (Hmat : forall m,
             (Exists (fun row => (length row < 2)%nat) m ->
              check_optimality (Array2 m) = Raise IndexError) /\
             (Forall (fun row => (2 <= length row)%nat) m ->
              exists b, check_optimality (Array2 m) = Ok b)).
  { intros m. unfold check_optimality.
    destruct (omap_getitem_outcome m 0) as [(c0 & H0 & Hall0)|[H0 Hex0]];
      destruct (omap_getitem_outcome m 1) as [(c1 & H1 & Hall1)|[H1 Hex1]];
      change (Z.of_nat 0) with 0%Z in *; change (Z.of_nat 1) with 1%Z in *;
      rewrite H0; cbn [obind]; try rewrite H1; cbn [obind].
    - split; [|eauto]. intros Hex. exfalso.
      rewrite Exists_exists in Hex. destruct Hex as (row & Hin & Hlen).
      rewrite Forall_forall in Hall1. specialize (Hall1 row Hin). lia.
    - split; [reflexivity|]. intros Hall. exfalso.
      rewrite Exists_exists in Hex1. destruct Hex1 as (row & Hin & Hlen).
      rewrite Forall_forall in Hall. specialize (Hall row Hin). lia.
    - split; [reflexivity|]. intros Hall. exfalso.
      rewrite Exists_exists in Hex0. destruct Hex0 as (row & Hin & Hlen).
      rewrite Forall_forall in Hall. specialize (Hall row Hin). lia.
    - split; [reflexivity|]. intros Hall. exfalso.
      rewrite Exists_exists in Hex0. destruct Hex0 as (row & Hin & Hlen).
      rewrite Forall_forall in Hall. specialize (Hall row Hin). lia. }
  assert (Hrect : forall (m : list (list Q)) (cols : nat),
             m <> [] -> Forall (fun row => length row = cols) m ->
             ((cols < 2)%nat -> check_optimality (Array2 m) = Raise IndexError) /\
             ((2 <= cols)%nat -> exists b, check_optimality (Array2 m) = Ok b)).
  { intros m cols Hne Hall. split; intros Hcols.
    - apply Hmat. destruct m as [|row m]; [congruence|].
      apply Exists_cons_hd. apply Forall_cons in Hall as [Hrow _]. lia.
    - apply Hmat. eapply Forall_impl; [exact Hall|]. cbn. intros row ->. exact Hcols. }
  destruct q_values as [a|a|n]; cbn [collapse].
  - split; [discriminate|]. intros m cols [= <-]. apply Hrect.
  - change (check_optimality (Array3 a)) with (check_optimality (Array2 (mean_last3 a))).
    split; [discriminate|]. intros m cols [= <-]. apply (Hrect (mean_last3 a)).
  - split; [reflexivity|]. intros m cols [=].
Qed.

Lemma check_optimality_outcomes_witness :
  check_optimality (ArrayOther 1) = Raise AssertionError /\
  check_optimality (Array2 [[1]; [2]]) = Raise IndexError /\
  exists b, check_optimality (Array3 [[[1; 2]; [0; 0]]]) = Ok b.
Proof.
  split; [|split].
  - apply (proj1 (check_optimality_outcomes (ArrayOther 1))). reflexivity.
  - apply (proj1 (proj2 (check_optimality_outcomes (Array2 [[1]; [2]]))
                        [[1]; [2]] 1%nat eq_refl ltac:(discriminate)
                        ltac:(repeat constructor))).
    lia.
  - apply (proj2 (proj2 (check_optimality_outcomes (Array3 [[[1; 2]; [0; 0]]]))
                        [[np_mean [1; 2]; np_mean [0; 0]]] 2%nat eq_refl
                        ltac:(discriminate) ltac:(repeat constructor))).
    lia.
Defined.

(** ** What training returns *)

Lemma training_outcome {A : Type} `{Agent A} (max_steps : Z) (a a' : A)
      (g : RandomState) (n : Z) :
  (forall a n, agent_q_values (agent_set_total_steps a n) = agent_q_values a) ->
  training max_steps a g a' n ->
  (check_optimality (agent_q_values a') = Ok true /\ n = agent_total_steps a') \/
  (check_optimality (agent_q_values a') = Ok false /\ n = max_steps /\
   agent_total_steps a' = max_steps).
Proof.
  intros Hset Htr. induction Htr as [a a1 g g1 r Hep Hopt|a a1 g g1 r Hep Hopt Hgt|
                                     a a1 a' g g1 r n Hep Hopt Hle Htr IH].
  - left. auto.
  - right. rewrite Hset, agent_total_steps_set. auto.
  - exact IH.
Qed.

(** X12: when [run_episodes] returns, either the final table passes
    [check_optimality] and the value returned is the agent's step count, or
    the final table fails it and both the value returned and the agent's
    step count are exactly [max_steps]; this holds for either agent. *)
Theorem run_episodes_outcome (max_steps : Z) (fuel : nat) (n : Z) (g g' : RandomState) :
  (forall a a' : QAgent.t,
      run_episodes fuel a max_steps g = Ok (a', n, g') ->
      (check_optimality (Array2 (QAgent.q_values a')) = Ok true /\
       n = QAgent.total_steps a') \/
      (check_optimality (Array2 (QAgent.q_values a')) = Ok false /\
       n = max_steps /\ QAgent.total_steps a' = max_steps)) /\
  (forall a a' : QuantileAgent.t,
      run_episodes fuel a max_steps g = Ok (a', n, g') ->
      (check_optimality (Array3 (QuantileAgent.q_values a')) = Ok true /\
       n = QuantileAgent.total_steps a') \/
      (check_optimality (Array3 (QuantileAgent.q_values a')) = Ok false /\
       n = max_steps /\ QuantileAgent.total_steps a' = max_steps)).
Proof.
  split; intros a a' Hrun; apply run_episodes_loop_sound in Hrun as [Htr _];
    exact (training_outcome max_steps a a' g n (fun _ _ => eq_refl) Htr).
Qed.

Lemma run_episodes_outcome_witness :
  exists a' n g',
    run_episodes 4 qagent3 3 g0 = Ok (a', n, g') /\
    ((check_optimality (Array2 (QAgent.q_values a')) = Ok true /\
      n = QAgent.total_steps a') \/
     (check_optimality (Array2 (QAgent.q_values a')) = Ok false /\
      n = 3%Z /\ QAgent.total_steps a' = 3%Z)).
Proof.
  eexists _, _, _. split; [vm_compute; reflexivity|].
  eapply (proj1 (run_episodes_outcome 3 4 _ g0 _) qagent3). vm_compute. reflexivity.
Defined.

Lemma QAgent_init_steps (env_fn : unit -> Chain.t) (lr epsilon discount : Q)
      (self : QAgent.t) :
  QAgent.init env_fn lr epsilon discount = Ok self -> QAgent.total_steps self = 0%Z.
Proof.
  unfold QAgent.init. cbv zeta.
  destruct (np_zeros 0 _) as [cols| |]; cbn [obind]; [|discriminate..].
  destruct (np_zeros cols _) as [q| |]; cbn [obind]; [|discriminate..].
  by intros [= <-].
Qed.

Lemma QuantileAgent_init_steps (env_fn : unit -> Chain.t) (lr epsilon discount : Q)
      (num_quantiles : Z) (mean_exploration : bool) (active_quantile : Z)
      (self : QuantileAgent.t) :
  QuantileAgent.init env_fn lr epsilon discount num_quantiles mean_exploration
                     active_quantile = Ok self ->
  QuantileAgent.total_steps self = 0%Z.
Proof.
  unfold QuantileAgent.init. cbv zeta.
  destruct (np_zeros 0 _) as [qs| |]; cbn [obind]; [|discriminate..].
  destruct (np_zeros qs _) as [cols| |]; cbn [obind]; [|discriminate..].
  destruct (np_zeros cols _) as [q| |]; cbn [obind]; [|discriminate..].
  by intros [= <-].
Qed.

(** X13: training a freshly constructed agent returns normally: for a chain
    of at least one state and a learning rate and a discount between 0 and
    1, the range in which the updates stay within the rewards seen (and,
    for the quantile agent, at least one quantile and an [active_quantile]
    inside the vector unless the mean is used), [run_episodes] on the new
    agent raises nothing and returns within [max_steps + 1] episodes; so
    does the script's entry point, whose agent has these parameters. *)
Theorem fresh_agent_training_returns (n : Z) (up_std left_std lr epsilon discount : Q)
        (max_steps : Z) (fuel : nat) (g : RandomState) :
  (1 <= n)%Z -> (Z.to_nat max_steps < fuel)%nat ->
  0 <= lr <= 1 -> 0 <= discount <= 1 ->
  (exists self a' m g',
      QAgent.init (fun _ => Chain.init n up_std left_std) lr epsilon discount = Ok self /\
      run_episodes fuel self max_steps g = Ok (a', m, g') /\
      m = QAgent.total_steps a') /\
  (forall num_quantiles mean_exploration active_quantile,
      (1 <= num_quantiles)%Z ->
      (mean_exploration = true \/
       (- num_quantiles <= active_quantile < num_quantiles)%Z) ->
      exists self a' m g',
        QuantileAgent.init (fun _ => Chain.init n up_std left_std) lr epsilon discount
                           num_quantiles mean_exploration active_quantile = Ok self /\
        run_episodes fuel self max_steps g = Ok (a', m, g') /\
        m = QuantileAgent.total_steps a') /\
  ((100000 < Z.of_nat fuel)%Z -> exists m g', main fuel g = Ok (m, g')).
Proof.
  intros Hn Hfuel _ _. split; [|split].
  - destruct (QAgent_init_wf n up_std left_std lr epsilon discount Hn) as (self & Hi & Hwf).
    pose proof (QAgent_init_steps _ _ _ _ _ Hi) as Hsteps.
    destruct (run_episodes_loop_returns QAgent_wf
                (fun a g Ha => QAgent_episode_progress a g Ha) QAgent_check_returns
                max_steps fuel self 0%Z g Hwf) as (a' & m & g' & Hrun & _ & Hm).
    { cbn [agent_total_steps QAgent_Agent]. rewrite Hsteps. rewrite Z.sub_0_r. exact Hfuel. }
    exists self, a', m, g'. auto.
  - intros N me aq HN Haq.
    destruct (QuantileAgent_init_wf n up_std left_std lr epsilon discount N me aq Hn HN Haq)
      as (self & Hi & Hwf).
    pose proof (QuantileAgent_init_steps _ _ _ _ _ _ _ _ Hi) as Hsteps.
    destruct (run_episodes_loop_returns QuantileAgent_wf
                (fun a g Ha => QuantileAgent_episode_progress a g Ha)
                QuantileAgent_check_returns
                max_steps fuel self 0%Z g Hwf) as (a' & m & g' & Hrun & _ & Hm).
    { cbn [agent_total_steps QuantileAgent_Agent]. rewrite Hsteps.
      rewrite Z.sub_0_r. exact Hfuel. }
    exists self, a', m, g'. auto.
  - intros Hbig.
    destruct (QAgent_init_wf 5 0 1 (1 # 10) (1 # 10) 1) as (self & Hi & Hwf); [lia|].
    pose proof (QAgent_init_steps _ _ _ _ _ Hi) as Hsteps.
    destruct (run_episodes_loop_returns QAgent_wf
                (fun a g Ha => QAgent_episode_progress a g Ha) QAgent_check_returns
                100000 fuel self 0%Z g Hwf) as (a' & m & g' & Hrun & _ & Hm).
    { cbn [agent_total_steps QAgent_Agent]. rewrite Hsteps. lia. }
    exists m, g'. unfold main, bind, lift, ret. rewrite Hi.
    unfold run_episodes. rewrite Hrun. reflexivity.
Qed.

Lemma fresh_agent_training_returns_witness :
  exists self a' m g',
    QAgent.init (fun _ => Chain.init 3 0 1) (1 # 10) (1 # 10) 1 = Ok self /\
    run_episodes 4 self 3 g0 = Ok (a', m, g') /\ m = QAgent.total_steps a'.
Proof.
  apply (fresh_agent_training_returns 3 0 1 (1 # 10) (1 # 10) 1 3 4 g0);
    first [lia | split; discriminate].
Defined.

(** ** Evaluation episodes *)

Section Eval.

Context {A : Type} `{BaseAgent A}.

Hypothesis eval_env_set :
  forall a e, agent_eval_env (agent_set_eval_env a e) = e.
Hypothesis set_eval_env_set :
  forall a e e', agent_set_eval_env (agent_set_eval_env a e) e' = agent_set_eval_env a e'.
Hypothesis act_set_eval_env :
  forall a e s b g, agent_act (agent_set_eval_env a e) s b g = agent_act a s b g.

Lemma eval_loop_S (fuel : nat) (self : A) (state : Z) (total : Q) :
  eval_loop (S fuel) self state total =
  (action <- agent_act self state true ;;
   sr <- Chain.step (agent_eval_env self) action ;;
   match snd sr with
   | Chain.PyNone => lift (Raise TypeError)
   | Chain.Transition state' reward done =>
       if done then ret (agent_set_eval_env self (fst sr), total + reward)
       else eval_loop fuel (agent_set_eval_env self (fst sr)) state' (total + reward)
   end).
Proof. reflexivity. Qed.

Lemma eval_loop_frame (fuel : nat) :
  forall (self : A) (e : Chain.t) (state : Z) (total : Q) (g : RandomState)
         (self' : A) (r : Q) (g' : RandomState),
    eval_loop fuel (agent_set_eval_env self e) state total g = Ok (self', r, g') ->
    exists e', self' = agent_set_eval_env self e'.
Proof.
  induction fuel as [|fuel IH]; intros self e state total g self' r g' Hrun;
    [discriminate|].
  rewrite eval_loop_S in Hrun. unfold bind at 1 in Hrun.
  destruct (agent_act _ state true g) as [[action g1]| |]; [|discriminate..].
  rewrite eval_env_set in Hrun. unfold Chain.step in Hrun.
  destruct (action =? 0)%Z; [|destruct (action =? 1)%Z].
  - unfold bind, randn, ret in Hrun. cbn [fst snd] in Hrun.
    rewrite set_eval_env_set in Hrun.
    destruct (Chain.state _ =? Chain.num_states _)%Z.
    + injection Hrun as <- _ _. eauto.
    + by apply IH in Hrun.
  - unfold bind, randn, ret in Hrun. cbn [fst snd] in Hrun.
    rewrite set_eval_env_set in Hrun. injection Hrun as <- _ _. eauto.
  - unfold bind, ret, lift in Hrun. cbn [fst snd] in Hrun. discriminate.
Qed.

Variable self : A.
Variable rows : Z.

Hypothesis act_returns : forall s g, agent_act self s true g <> Exhausted.
Hypothesis act_inside :
  forall s g r, agent_act self s true g = Ok r -> (s < rows)%Z.

Lemma eval_loop_returns (fuel : nat) :
  forall (e : Chain.t) (state : Z) (total : Q) (g : RandomState),
    Chain.state e = state -> (0 <= state <= rows)%Z ->
    (rows - state < Z.of_nat fuel)%Z ->
    eval_loop fuel (agent_set_eval_env self e) state total g <> Exhausted.
Proof.
  induction fuel as [|fuel IH]; intros e state total g He Hstate Hfuel; [lia|].
  rewrite eval_loop_S. unfold bind at 1. rewrite act_set_eval_env.
  destruct (agent_act _ state true g) as [[action g1]| |] eqn:Hact;
    [|discriminate|by apply act_returns in Hact].
  apply act_inside in Hact.
  rewrite eval_env_set. unfold Chain.step.
  destruct (action =? 0)%Z; [|destruct (action =? 1)%Z].
  - unfold bind, randn, ret. cbn [fst snd]. rewrite set_eval_env_set.
    destruct (Chain.state _ =? Chain.num_states _)%Z; [discriminate|].
    apply IH; cbn [Chain.state Chain.set_state]; lia.
  - unfold bind, randn, ret. cbn [fst snd]. discriminate.
  - unfold bind, ret, lift. cbn [fst snd]. discriminate.
Qed.

Variable n : Z.

Hypothesis act_advances :
  forall s g, (0 <= s < n)%Z -> agent_act self s true g = Ok (0%Z, advance g).

Lemma eval_loop_walks (fuel : nat) :
  forall (e : Chain.t) (state : Z) (total : Q) (g : RandomState),
    Chain.state e = state -> Chain.num_states e = n -> (0 <= state < n)%Z ->
    (Z.to_nat (n - state) <= fuel)%nat ->
    exists r,
      eval_loop fuel (agent_set_eval_env self e) state total g
      = Ok (agent_set_eval_env self (Chain.set_state e n), r,
            Nat.iter (2 * Z.to_nat (n - state)) advance g).
Proof.
  induction fuel as [|fuel IH]; intros e state total g He Hn Hstate Hfuel; [lia|].
  rewrite eval_loop_S. unfold bind at 1.
  rewrite act_set_eval_env, (act_advances state g Hstate).
  rewrite eval_env_set. unfold Chain.step. cbn [Z.eqb].
  unfold bind, randn, ret. cbn [fst snd]. rewrite set_eval_env_set.
  cbn [Chain.state Chain.set_state Chain.num_states Chain.left_std].
  rewrite He, Hn.
  replace (2 * Z.to_nat (n - state))%nat
    with (2 * Z.to_nat (n - (state + 1)) + 2)%nat by lia.
  rewrite Nat.iter_add. cbn [Nat.iter nat_rect].
  destruct (state + 1 =? n)%Z eqn:E.
  - apply Z.eqb_eq in E. eexists.
    replace (Z.to_nat (n - (state + 1))) with 0%nat by lia. cbn [Nat.mul Nat.iter nat_rect].
    rewrite E. reflexivity.
  - apply Z.eqb_neq in E.
    destruct (IH (Chain.set_state e (state + 1)) (state + 1)%Z
                 (total + gaussian (advance g) (position (advance g)) * Chain.left_std e)
                 (advance (advance g))) as [r Hr]; [reflexivity|exact Hn|lia|lia|].
    exists r. rewrite Hr. reflexivity.
Qed.

End Eval.

Lemma maximal_advance (row : list Q) (a : Z) :
  length row = 2%nat -> advance_beats_escape row -> maximal row a -> a = 0%Z.
Proof.
  intros Hlen (x & y & Hx & Hy & Hlt) (k & v & -> & Hv & Hmax).
  destruct k as [|[|k]].
  - reflexivity.
  - exfalso. assert (v = y) by congruence. subst.
    assert (x <= y) by (apply Hmax; by eapply list_elem_of_lookup_2). lra.
  - apply lookup_lt_Some in Hv. lia.
Qed.

Lemma QAgent_optimal_act (self : QAgent.t) (state : Z) (g : RandomState) :
  QAgent_wf self ->
  check_optimality (Array2 (QAgent.q_values self)) = Ok true ->
  (0 <= state < Chain.num_states (QAgent.env self))%Z ->
  QAgent.act self state true g = Ok (0%Z, advance g).
Proof.
  intros (Hdim & Hn & Hlen & Hrows) Hopt Hstate.
  destruct (getitem_in_range (QAgent.q_values self) state) as (row & Hrow & Hrow');
    [lia|].
  assert (Hin : row ∈ QAgent.q_values self) by (by eapply list_elem_of_lookup_2).
  assert (Hlen2 : length row = 2%nat) by (rewrite Forall_forall in Hrows; by apply Hrows).
  destruct (QAgent_greedy self state row Hrow) as (cands & Hcne & Hmax & Heval & _).
  { by destruct row. }
  { by rewrite Hdim, Hlen2. }
  rewrite Heval. destruct (choice_Ok cands g Hcne) as (a & -> & Ha).
  apply Hmax in Ha. apply maximal_advance in Ha; [by subst|exact Hlen2|].
  by apply (proj1 (check_matrix _) Hopt).
Qed.

Lemma QuantileAgent_optimal_act (self : QuantileAgent.t) (state : Z) (g : RandomState) :
  QuantileAgent_wf self ->
  check_optimality (Array3 (QuantileAgent.q_values self)) = Ok true ->
  (0 <= state < Chain.num_states (QuantileAgent.env self))%Z ->
  QuantileAgent.act self state true g = Ok (0%Z, advance g).
Proof.
  intros Hwf Hopt Hstate.
  destruct (QuantileAgent_wf_rows self state Hwf Hstate) as (rows & Hrows & Hlen2 & _).
  destruct Hwf as (Hdim & _).
  assert (Hin : mean_last2 rows ∈ mean_last3 (QuantileAgent.q_values self)).
  { apply getitem_Ok in Hrows as (k & _ & Hk). unfold mean_last3.
    apply list_elem_of_fmap. exists rows. split; [reflexivity|].
    by eapply list_elem_of_lookup_2. }
  assert (Hl : length (mean_last2 rows) = 2%nat)
    by (unfold mean_last2; by rewrite length_map).
  destruct (greedy_spec self (mean_last2 rows)) as (cands & Hcne & Hmax & Hgreedy).
  { intros E. rewrite E in Hl. discriminate. }
  { by rewrite Hdim, Hl. }
  unfold QuantileAgent.act. cbn [negb]. unfold bind, lift. rewrite Hrows, Hgreedy.
  destruct (choice_Ok cands g Hcne) as (a & -> & Ha).
  apply Hmax in Ha. apply maximal_advance in Ha; [by subst|exact Hl|].
  change (check_optimality (Array3 (QuantileAgent.q_values self)))
    with (check_optimality (Array2 (mean_last3 (QuantileAgent.q_values self)))) in Hopt.
  by apply (proj1 (check_matrix _) Hopt).
Qed.

Lemma QAgent_act_inside (self : QAgent.t) (s : Z) (g : RandomState) (r : Z * RandomState) :
  QAgent.act self s true g = Ok r -> (s < Z.of_nat (length (QAgent.q_values self)))%Z.
Proof.
  unfold QAgent.act. cbn [negb]. unfold bind, ret, lift.
  destruct (getitem (QAgent.q_values self) s) as [row| |] eqn:Hrow; [|discriminate..].
  intros _. by eapply getitem_Ok_lt.
Qed.

Lemma QuantileAgent_act_inside (self : QuantileAgent.t) (s : Z) (g : RandomState)
      (r : Z * RandomState) :
  QuantileAgent.act self s true g = Ok r ->
  (s < Z.of_nat (length (QuantileAgent.q_values self)))%Z.
Proof.
  unfold QuantileAgent.act. cbn [negb]. unfold bind, lift.
  destruct (getitem (QuantileAgent.q_values self) s) as [row| |] eqn:Hrow;
    [|discriminate..].
  intros _. by eapply getitem_Ok_lt.
Qed.

Lemma QAgent_eval_env_set (a : QAgent.t) (e : Chain.t) :
  agent_eval_env (agent_set_eval_env a e) = e.
Proof. reflexivity. Qed.

Lemma QAgent_set_eval_env_set (a : QAgent.t) (e e' : Chain.t) :
  agent_set_eval_env (agent_set_eval_env a e) e' = agent_set_eval_env a e'.
Proof. reflexivity. Qed.

Lemma QAgent_act_set_eval_env (a : QAgent.t) (e : Chain.t) (s : Z) (b : bool)
      (g : RandomState) :
  agent_act (agent_set_eval_env a e) s b g = agent_act a s b g.
Proof. reflexivity. Qed.

Lemma QuantileAgent_eval_env_set (a : QuantileAgent.t) (e : Chain.t) :
  agent_eval_env (agent_set_eval_env a e) = e.
Proof. reflexivity. Qed.

Lemma QuantileAgent_set_eval_env_set (a : QuantileAgent.t) (e e' : Chain.t) :
  agent_set_eval_env (agent_set_eval_env a e) e' = agent_set_eval_env a e'.
Proof. reflexivity. Qed.

Lemma QuantileAgent_act_set_eval_env (a : QuantileAgent.t) (e : Chain.t) (s : Z)
      (b : bool) (g : RandomState) :
  agent_act (agent_set_eval_env a e) s b g = agent_act a s b g.
Proof. reflexivity. Qed.

(** X14: an evaluation episode of either agent ends, and when it returns it
    has changed nothing of the agent but its evaluation environment: the
    value table, the step count, the training environment and the
    parameters are as before. *)
Theorem eval_changes_eval_env_only :
  (forall (self : QAgent.t) (g : RandomState),
      QAgent_eval self g <> Exhausted /\
      forall self' r g',
        QAgent_eval self g = Ok (self', r, g') ->
        exists e', self' = QAgent_set_eval_env self e') /\
  (forall (self : QuantileAgent.t) (g : RandomState),
      QuantileAgent_eval self g <> Exhausted /\
      forall self' r g',
        QuantileAgent_eval self g = Ok (self', r, g') ->
        exists e', self' = QuantileAgent_set_eval_env self e').
Proof.
  split; intros self g; (split; [|intros self' r g' Hrun]).
  - unfold QAgent_eval, eval, Chain.reset.
    apply (eval_loop_returns QAgent_eval_env_set QAgent_set_eval_env_set
             QAgent_act_set_eval_env self (Z.of_nat (length (QAgent.q_values self)))).
    + intros s g1. apply QAgent_act_returns.
    + intros s g1 r. apply QAgent_act_inside.
    + reflexivity.
    + cbn. lia.
    + lia.
  - unfold QAgent_eval, eval, Chain.reset in Hrun.
    by apply (eval_loop_frame QAgent_eval_env_set QAgent_set_eval_env_set) in Hrun.
  - unfold QuantileAgent_eval, eval, Chain.reset.
    apply (eval_loop_returns QuantileAgent_eval_env_set QuantileAgent_set_eval_env_set
             QuantileAgent_act_set_eval_env self
             (Z.of_nat (length (QuantileAgent.q_values self)))).
    + intros s g1. apply QuantileAgent_act_returns.
    + intros s g1 r. apply QuantileAgent_act_inside.
    + reflexivity.
    + cbn. lia.
    + lia.
  - unfold QuantileAgent_eval, eval, Chain.reset in Hrun.
    by apply (eval_loop_frame QuantileAgent_eval_env_set QuantileAgent_set_eval_env_set)
      in Hrun.
Qed.

Lemma eval_changes_eval_env_only_witness :
  exists self' r g',
    QAgent_eval qagent3 g0 = Ok (self', r, g') /\
    exists e', self' = QAgent_set_eval_env qagent3 e'.
Proof.
  eexists _, _, _. split; [vm_compute; reflexivity|].
  eapply (proj2 (proj1 eval_changes_eval_env_only qagent3 g0)).
  vm_compute. reflexivity.
Defined.

(** X15: when the table of a well-formed agent passes [check_optimality],
    its evaluation episode advances at every state whatever the tie-breaking
    draws are: it returns after exactly [num_states] steps, two draws per
    step, with the evaluation environment at the end of the chain. *)
Theorem optimal_table_eval_walks (g : RandomState) :
  (forall self : QAgent.t,
      QAgent_wf self ->
      Chain.num_states (QAgent.eval_env self) = Chain.num_states (QAgent.env self) ->
      check_optimality (Array2 (QAgent.q_values self)) = Ok true ->
      exists r,
        QAgent_eval self g
        = Ok (QAgent_set_eval_env self
                (Chain.set_state (QAgent.eval_env self)
                                 (Chain.num_states (QAgent.env self))),
              r,
              Nat.iter (2 * Z.to_nat (Chain.num_states (QAgent.env self))) advance g)) /\
  (forall self : QuantileAgent.t,
      QuantileAgent_wf self ->
      Chain.num_states (QuantileAgent.eval_env self)
      = Chain.num_states (QuantileAgent.env self) ->
      check_optimality (Array3 (QuantileAgent.q_values self)) = Ok true ->
      exists r,
        QuantileAgent_eval self g
        = Ok (QuantileAgent_set_eval_env self
                (Chain.set_state (QuantileAgent.eval_env self)
                                 (Chain.num_states (QuantileAgent.env self))),
              r,
              Nat.iter (2 * Z.to_nat (Chain.num_states (QuantileAgent.env self)))
                       advance g)).
Proof.
  split; intros self Hwf Henv Hopt.
  - set (n := Chain.num_states (QAgent.env self)).
    destruct (eval_loop_walks QAgent_eval_env_set QAgent_set_eval_env_set
                QAgent_act_set_eval_env self n
                (fun s g Hs => QAgent_optimal_act self s g Hwf Hopt Hs)
                (S (length (QAgent.q_values self)))
                (Chain.set_state (QAgent.eval_env self) 0) 0%Z 0 g) as [r Hr].
    + reflexivity.
    + exact Henv.
    + destruct Hwf as (_ & Hn & _). fold n in Hn. lia.
    + destruct Hwf as (_ & _ & Hlen & _). rewrite Hlen. fold n. lia.
    + exists r. unfold QAgent_eval, eval, Chain.reset.
      rewrite Z.sub_0_r in Hr. exact Hr.
  - set (n := Chain.num_states (QuantileAgent.env self)).
    destruct (eval_loop_walks QuantileAgent_eval_env_set QuantileAgent_set_eval_env_set
                QuantileAgent_act_set_eval_env self n
                (fun s g Hs => QuantileAgent_optimal_act self s g Hwf Hopt Hs)
                (S (length (QuantileAgent.q_values self)))
                (Chain.set_state (QuantileAgent.eval_env self) 0) 0%Z 0 g) as [r Hr].
    + reflexivity.
    + exact Henv.
    + destruct Hwf as (_ & Hn & _). fold n in Hn. lia.
    + destruct Hwf as (_ & _ & _ & Hlen & _). rewrite Hlen. fold n. lia.
    + exists r. unfold QuantileAgent_eval, eval, Chain.reset.
      rewrite Z.sub_0_r in Hr. exact Hr.
Qed.

Lemma optimal_table_eval_walks_witness :
  exists r,
    QAgent_eval qagent_optimal g0
    = Ok (QAgent_set_eval_env qagent_optimal (Chain.set_state chain3 3), r,
          Nat.iter (2 * Z.to_nat 3) advance g0).
Proof.
  apply (proj1 (optimal_table_eval_walks g0) qagent_optimal).
  - unfold QAgent_wf. cbn. repeat split; try lia. repeat constructor.
  - reflexivity.
  - reflexivity.
Defined.

(** ** Length of a training episode *)

Lemma QAgent_learn_sets_table (self self' : QAgent.t) (state action : Z) (reward : Q)
      (next_state : Z) (done : bool) :
  QAgent.learn self state action reward next_state done = Ok self' ->
  exists q', self' = QAgent.set_q_values self q'.
Proof.
  unfold QAgent.learn. intros H.
  destruct (if done then _ else _) as [target| |]; cbn in H; [|discriminate..].
  destruct (getitem2 _ state action) as [q| |]; cbn in H; [|discriminate..].
  destruct (setitem2 _ _ _ _) as [q'| |]; cbn in H; [|discriminate..].
  injection H as <-. eauto.
Qed.

Lemma QuantileAgent_learn_sets_table (self self' : QuantileAgent.t) (state action : Z)
      (reward : Q) (next_state : Z) (done : bool) :
  QuantileAgent.learn self state action reward next_state done = Ok self' ->
  exists q', self' = QuantileAgent.set_q_values self q'.
Proof.
  unfold QuantileAgent.learn. intros H.
  destruct (QuantileAgent.bootstrap _ _ _ _) as [target| |]; cbn in H; [|discriminate..].
  destruct (getitem2 _ state action) as [q| |]; cbn in H; [|discriminate..].
  destruct (QuantileAgent.backward _ _ _) as [grad| |]; cbn in H; [|discriminate..].
  destruct (setitem2 _ _ _ _) as [q'| |]; cbn in H; [|discriminate..].
  injection H as <-. eauto.
Qed.

Lemma QAgent_episode_loop_bound (fuel : nat) :
  forall (self : QAgent.t) (state : Z) (total : Q) (g : RandomState)
         (self' : QAgent.t) (r : Q) (g' : RandomState),
    QAgent.episode_loop fuel self state total g = Ok (self', r, g') ->
    Chain.state (QAgent.env self) = state ->
    (0 <= state < Chain.num_states (QAgent.env self))%Z ->
    (QAgent.total_steps self'
     <= QAgent.total_steps self + (Chain.num_states (QAgent.env self) - state))%Z /\
    QAgent.lr self' = QAgent.lr self /\
    QAgent.epsilon self' = QAgent.epsilon self /\
    QAgent.discount self' = QAgent.discount self /\
    Chain.num_states (QAgent.env self') = Chain.num_states (QAgent.env self).
Proof.
  induction fuel as [|fuel IH]; intros self state total g self' r g' Hrun Henv Hstate;
    [discriminate|].
  rewrite QAgent_episode_loop_S in Hrun. unfold bind at 1 in Hrun.
  destruct (QAgent.act self state false g) as [[action g1]| |]; [|discriminate..].
  unfold Chain.step in Hrun. destruct (action =? 0)%Z; [|destruct (action =? 1)%Z].
  - unfold bind, randn, ret, lift in Hrun.
    cbn [fst snd Chain.state Chain.set_state Chain.num_states Chain.left_std] in Hrun.
    rewrite Henv in Hrun.
    destruct (state + 1 =? Chain.num_states (QAgent.env self))%Z eqn:Hdone.
    + destruct (QAgent.learn _ _ _ _ _ _) as [self1| |] eqn:Hlearn; [|discriminate..].
      apply QAgent_learn_sets_table in Hlearn as [q' ->].
      injection Hrun as <- _ _. cbn. repeat split; lia.
    + destruct (QAgent.learn _ _ _ _ _ _) as [self1| |] eqn:Hlearn; [|discriminate..].
      apply QAgent_learn_sets_table in Hlearn as [q' ->].
      apply Z.eqb_neq in Hdone.
      apply IH in Hrun; [|reflexivity|cbn; lia].
      cbn in Hrun. destruct Hrun as (H1 & H2 & H3 & H4 & H5).
      repeat split; try assumption. lia.
  - unfold bind, randn, ret, lift in Hrun. cbn [fst snd] in Hrun.
    destruct (QAgent.learn _ _ _ _ _ _) as [self1| |] eqn:Hlearn; [|discriminate..].
    apply QAgent_learn_sets_table in Hlearn as [q' ->].
    injection Hrun as <- _ _. cbn. repeat split; lia.
  - unfold bind, ret, lift in Hrun. cbn [fst snd] in Hrun. discriminate.
Qed.

Lemma QuantileAgent_episode_loop_bound (fuel : nat) :
  forall (self : QuantileAgent.t) (state : Z) (total : Q) (g : RandomState)
         (self' : QuantileAgent.t) (r : Q) (g' : RandomState),
    QuantileAgent.episode_loop fuel self state total g = Ok (self', r, g') ->
    Chain.state (QuantileAgent.env self) = state ->
    (0 <= state < Chain.num_states (QuantileAgent.env self))%Z ->
    (QuantileAgent.total_steps self'
     <= QuantileAgent.total_steps self
        + (Chain.num_states (QuantileAgent.env self) - state))%Z /\
    QuantileAgent.lr self' = QuantileAgent.lr self /\
    QuantileAgent.epsilon self' = QuantileAgent.epsilon self /\
    QuantileAgent.discount self' = QuantileAgent.discount self /\
    Chain.num_states (QuantileAgent.env self')
    = Chain.num_states (QuantileAgent.env self).
Proof.
  induction fuel as [|fuel IH]; intros self state total g self' r g' Hrun Henv Hstate;
    [discriminate|].
  rewrite QuantileAgent_episode_loop_S in Hrun. unfold bind at 1 in Hrun.
  destruct (QuantileAgent.act self state false g) as [[action g1]| |]; [|discriminate..].
  unfold Chain.step in Hrun. destruct (action =? 0)%Z; [|destruct (action =? 1)%Z].
  - unfold bind, randn, ret, lift in Hrun.
    cbn [fst snd Chain.state Chain.set_state Chain.num_states Chain.left_std] in Hrun.
    rewrite Henv in Hrun.
    destruct (state + 1 =? Chain.num_states (QuantileAgent.env self))%Z eqn:Hdone.
    + destruct (QuantileAgent.learn _ _ _ _ _ _) as [self1| |] eqn:Hlearn;
        [|discriminate..].
      apply QuantileAgent_learn_sets_table in Hlearn as [q' ->].
      injection Hrun as <- _ _. cbn. repeat split; lia.
    + destruct (QuantileAgent.learn _ _ _ _ _ _) as [self1| |] eqn:Hlearn;
        [|discriminate..].
      apply QuantileAgent_learn_sets_table in Hlearn as [q' ->].
      apply Z.eqb_neq in Hdone.
      apply IH in Hrun; [|reflexivity|cbn; lia].
      cbn in Hrun. destruct Hrun as (H1 & H2 & H3 & H4 & H5).
      repeat split; try assumption. lia.
  - unfold bind, randn, ret, lift in Hrun. cbn [fst snd] in Hrun.
    destruct (QuantileAgent.learn _ _ _ _ _ _) as [self1| |] eqn:Hlearn;
      [|discriminate..].
    apply QuantileAgent_learn_sets_table in Hlearn as [q' ->].
    injection Hrun as <- _ _. cbn. repeat split; lia.
  - unfold bind, ret, lift in Hrun. cbn [fst snd] in Hrun. discriminate.
Qed.

(** X16: an episode of a well-formed agent of either kind returns normally
    and leaves the agent well-formed; it takes at least one and at most
    [num_states] steps, and changes neither the learning rate, nor the
    exploration rate, nor the discount. *)
Theorem episode_length (g : RandomState) :
  (forall self : QAgent.t,
      QAgent_wf self ->
      exists self' r g',
        QAgent.episode self g = Ok (self', r, g') /\ QAgent_wf self' /\
        (QAgent.total_steps self + 1 <= QAgent.total_steps self'
         <= QAgent.total_steps self + Chain.num_states (QAgent.env self))%Z /\
        QAgent.lr self' = QAgent.lr self /\
        QAgent.epsilon self' = QAgent.epsilon self /\
        QAgent.discount self' = QAgent.discount self) /\
  (forall self : QuantileAgent.t,
      QuantileAgent_wf self ->
      exists self' r g',
        QuantileAgent.episode self g = Ok (self', r, g') /\ QuantileAgent_wf self' /\
        (QuantileAgent.total_steps self + 1 <= QuantileAgent.total_steps self'
         <= QuantileAgent.total_steps self
            + Chain.num_states (QuantileAgent.env self))%Z /\
        QuantileAgent.lr self' = QuantileAgent.lr self /\
        QuantileAgent.epsilon self' = QuantileAgent.epsilon self /\
        QuantileAgent.discount self' = QuantileAgent.discount self).
Proof.
  split; intros self Hwf.
  - destruct (QAgent_episode_progress self g Hwf) as (self' & r & g' & Hep & Hwf' & Hge).
    cbn [agent_episode agent_total_steps QAgent_Agent] in Hep, Hge.
    exists self', r, g'. split; [exact Hep|]. split; [exact Hwf'|].
    unfold QAgent.episode, Chain.reset in Hep.
    apply QAgent_episode_loop_bound in Hep as (H1 & H2 & H3 & H4 & _);
      [|reflexivity|destruct Hwf as (_ & Hn & _); cbn; lia].
    cbn in H1, H2, H3, H4. repeat split; try assumption; lia.
  - destruct (QuantileAgent_episode_progress self g Hwf)
      as (self' & r & g' & Hep & Hwf' & Hge).
    cbn [agent_episode agent_total_steps QuantileAgent_Agent] in Hep, Hge.
    exists self', r, g'. split; [exact Hep|]. split; [exact Hwf'|].
    unfold QuantileAgent.episode, Chain.reset in Hep.
    apply QuantileAgent_episode_loop_bound in Hep as (H1 & H2 & H3 & H4 & _);
      [|reflexivity|destruct Hwf as (_ & Hn & _); cbn; lia].
    cbn in H1, H2, H3, H4. repeat split; try assumption; lia.
Qed.

Lemma episode_length_witness :
  exists self' r g',
    QAgent.episode qagent3 g0 = Ok (self', r, g') /\ QAgent_wf self' /\
    (QAgent.total_steps qagent3 + 1 <= QAgent.total_steps self'
     <= QAgent.total_steps qagent3 + Chain.num_states (QAgent.env qagent3))%Z.
Proof.
  destruct (proj1 (episode_length g0) qagent3) as (self' & r & g' & H1 & H2 & H3 & _).
  - unfold QAgent_wf. cbn. repeat split; try lia. repeat constructor.
  - exists self', r, g'. auto.
Defined.
